(** * MyMCP: the tool handlers and their registration, embedded in Rocq

    The development follows the TypeScript sources of the MCP tool server:
    the registration loop of [src/tools/index.ts], the process-level
    handlers of [src/index.ts], the timeout helpers of [utils/timeout.ts]
    and the handlers of the tools ping-tool, todo-list-tool, count-files,
    read-file, watch-file-changes and get-system-info.

    Handlers are [async] functions: they are embedded in a state-and-exception
    monad, where a computation either returns a value (the promise resolves)
    or throws (the promise rejects). Library calls (JSON, shell-quote, path,
    regular expressions, the file system) are taken as an interface. *)

From Stdlib Require Import ZArith QArith Qminmax Qround Lia Lqa Sorted.
From stdpp Require Import base strings list gmap pretty.

Local Open Scope string_scope.
Local Open Scope list_scope.

(* ===================================================================== *)
(** * JavaScript numbers *)
(* ===================================================================== *)

Module JsNum.

(** A JavaScript [number]: the three special values and the finite ones.
    Finite doubles are kept as exact rationals. *)
Inductive number :=
| NaN
| NegInfinity
| PosInfinity
| Finite (q : Q).

(** [a <= b] of JavaScript: false as soon as one side is NaN. *)
Definition num_leb (a b : number) : bool :=
  match a, b with
  | NaN, _ | _, NaN => false
  | NegInfinity, _ => true
  | _, PosInfinity => true
  | PosInfinity, _ => false
  | _, NegInfinity => false
  | Finite x, Finite y => Qle_bool x y
  end.

(** [Math.max(a, b)] and [Math.min(a, b)]: NaN when an argument is NaN. *)
Definition Math_max (a b : number) : number :=
  match a, b with
  | NaN, _ | _, NaN => NaN
  | _, _ => if num_leb a b then b else a
  end.

Definition Math_min (a b : number) : number :=
  match a, b with
  | NaN, _ | _, NaN => NaN
  | _, _ => if num_leb a b then a else b
  end.

(** The sign of a rational, for products with an infinity. *)
Definition Qsign (q : Q) : comparison := Qcompare q 0.

Definition inf_of_sign (c : comparison) : number :=
  match c with
  | Lt => NegInfinity
  | Gt => PosInfinity
  | Eq => NaN
  end.

(** [a * b]. *)
Definition num_mul (a b : number) : number :=
  match a, b with
  | NaN, _ | _, NaN => NaN
  | Finite x, Finite y => Finite (x * y)
  | PosInfinity, Finite y | Finite y, PosInfinity => inf_of_sign (Qsign y)
  | NegInfinity, Finite y | Finite y, NegInfinity => inf_of_sign (CompOpp (Qsign y))
  | PosInfinity, PosInfinity | NegInfinity, NegInfinity => PosInfinity
  | PosInfinity, NegInfinity | NegInfinity, PosInfinity => NegInfinity
  end.

(** [a ?? b]: the right operand when the left one is undefined. *)
Definition nullish {A} (a : option A) (b : A) : A :=
  match a with
  | Some x => x
  | None => b
  end.


Definition of_Z (z : Z) : number := Finite (inject_Z z).

End JsNum.

(* ===================================================================== *)
(** * utils/timeout.ts *)
(* ===================================================================== *)

Module Timeout.
Import JsNum.

(** The default values of the parameters [defaultTimeout] and [maxTimeout]. *)
Definition defaultTimeout_default : number := of_Z 120.
Definition maxTimeout_default : number := of_Z 600.

(** [normalizeTimeout(timeout, defaultTimeout, maxTimeout)]. *)
Definition normalizeTimeout (timeout : option number)
    (defaultTimeout maxTimeout : number) : number :=
  let timeoutSeconds := nullish timeout defaultTimeout in
  let clampedTimeout := Math_min (Math_max timeoutSeconds (of_Z 1)) maxTimeout in
  num_mul clampedTimeout (of_Z 1000).

(** The call [normalizeTimeout(timeout)] of the handlers: both optional
    parameters take their defaults. *)
Definition normalizeTimeout1 (timeout : option number) : number :=
  normalizeTimeout timeout defaultTimeout_default maxTimeout_default.


End Timeout.

(* ===================================================================== *)
(** * Promises: state and exceptions *)
(* ===================================================================== *)

Module Async.

(** A thrown value: an [Error] object with its [message], or any other
    value, kept by its [String(...)] image. *)
Inductive thrown :=
| ErrorObj (message : string)
| OtherValue (str : string).

(** [error.message] on a caught value typed [any]: undefined on a value
    that is not an [Error]; a template literal prints it as "undefined". *)
Definition message_any (e : thrown) : string :=
  match e with
  | ErrorObj m => m
  | OtherValue _ => "undefined"
  end.

(** [error instanceof Error ? error.message : String(error)]. *)
Definition message_or_String (e : thrown) : string :=
  match e with
  | ErrorObj m => m
  | OtherValue s => s
  end.

(** The state a computation ends in, with its value or the thrown value. *)
Inductive result (S A : Type) :=
| Return (a : A) (s : S)
| Throw (e : thrown) (s : S).
Arguments Return {S A} a s.
Arguments Throw {S A} e s.

(** An [async] body over a world [S]: awaiting it resolves ([Return]) or
    rejects ([Throw]). *)
Definition Eff (S A : Type) : Type := S -> result S A.

Definition ret {S A} (a : A) : Eff S A := fun s => Return a s.
Definition throw {S A} (e : thrown) : Eff S A := fun s => Throw e s.

Definition bind {S A B} (m : Eff S A) (k : A -> Eff S B) : Eff S B :=
  fun s =>
    match m s with
    | Return a s' => k a s'
    | Throw e s' => Throw e s'
    end.

(** [try { body } catch (error) { handler }]. *)
Definition try_catch {S A} (body : Eff S A) (handler : thrown -> Eff S A) : Eff S A :=
  fun s =>
    match body s with
    | Return a s' => Return a s'
    | Throw e s' => handler e s'
    end.

Definition get {S} : Eff S S := fun s => Return s s.
Definition gets {S A} (f : S -> A) : Eff S A := fun s => Return (f s) s.
Definition modify {S} (f : S -> S) : Eff S unit := fun s => Return tt (f s).

(** The outcome of a library call, as the world decides it: the call
    answers ([inr]) or throws ([inl]). *)
Definition answered {A} (r : thrown + A) : Prop :=
  match r with
  | inl _ => False
  | inr _ => True
  end.

Definition lift_exc {S A} (r : thrown + A) : Eff S A :=
  match r with
  | inl e => throw e
  | inr a => ret a
  end.

(** The promise resolves. *)
Definition resolves {S A} (r : result S A) : Prop :=
  match r with
  | Return _ _ => True
  | Throw _ _ => False
  end.

(** The promise rejects. *)
Definition rejects {S A} (r : result S A) : Prop :=
  match r with
  | Return _ _ => False
  | Throw _ _ => True
  end.

Definition result_state {S A} (r : result S A) : S :=
  match r with
  | Return _ s | Throw _ s => s
  end.

Definition result_value {S A} (r : result S A) : option A :=
  match r with
  | Return a _ => Some a
  | Throw _ _ => None
  end.

End Async.

Notation "'let!' x ':=' m 'in' k" := (Async.bind m (fun x => k))
  (at level 10, x pattern, m at level 100, k at level 200).
Notation "'do!' m 'in' k" := (Async.bind m (fun _ => k))
  (at level 10, m at level 100, k at level 200).

(* ===================================================================== *)
(** * The value every handler returns *)
(* ===================================================================== *)

Module Outcome.

(** A content block [{ type: 'text', text }]; the handlers build no other
    kind. *)
Inductive ContentBlock :=
| TextBlock (text : string).

(** [{ content, isError? }]: [isError] is [None] when the property is
    absent. *)
Record Outcome := mkOutcome {
  content : list ContentBlock;
  isError : option bool
}.

(** [{ content: [{ type: 'text', text }] }]. *)
Definition text_outcome (text : string) : Outcome :=
  {| content := [TextBlock text]; isError := None |}.

(** [{ content: [{ type: 'text', text }], isError: true }]. *)
Definition error_outcome (text : string) : Outcome :=
  {| content := [TextBlock text]; isError := Some true |}.

(** The flag is set. *)
Definition is_error (o : Outcome) : bool :=
  match isError o with
  | Some b => b
  | None => false
  end.

End Outcome.

(* ===================================================================== *)
(** * src/index.ts: the process-level handlers *)
(* ===================================================================== *)

Module Process.

Inductive status :=
| Running
| Exited (code : Z).

(** The process as the top level sees it: what [console.error] printed and
    whether [process.exit] was called. *)
Record process := mkProcess {
  stderr : list (string * string);
  state : status
}.

(** [console.error(label, value)]: a terminated process prints nothing. *)
Definition console_error (label value : string) (p : process) : process :=
  match state p with
  | Running => {| stderr := stderr p ++ [(label, value)]; state := Running |}
  | Exited _ => p
  end.

(** [process.exit(code)]: nothing after it runs. *)
Definition process_exit (code : Z) (p : process) : process :=
  match state p with
  | Running => {| stderr := stderr p; state := Exited code |}
  | Exited _ => p
  end.

(** [process.on('uncaughtException', (error) => { ... })]. *)
Definition on_uncaughtException (error : string) (p : process) : process :=
  process_exit 1 (console_error "Uncaught Exception:" error p).

(** [process.on('unhandledRejection', (reason) => { ... })]. *)
Definition on_unhandledRejection (reason : string) (p : process) : process :=
  process_exit 1 (console_error "Unhandled Promise Rejection:" reason p).

(** What reaches the top level of the process. *)
Inductive top_level_event :=
| UncaughtException (error : string)
| UnhandledRejection (reason : string).

(** The listener installed for the event runs. *)
Definition emit (ev : top_level_event) (p : process) : process :=
  match ev with
  | UncaughtException error => on_uncaughtException error p
  | UnhandledRejection reason => on_unhandledRejection reason p
  end.

(** What the event carries, and the label it is printed under. *)
Definition payload (ev : top_level_event) : string :=
  match ev with
  | UncaughtException error => error
  | UnhandledRejection reason => reason
  end.

Definition label_of (ev : top_level_event) : string :=
  match ev with
  | UncaughtException _ => "Uncaught Exception:"
  | UnhandledRejection _ => "Unhandled Promise Rejection:"
  end.

End Process.

(* ===================================================================== *)
(** * src/tools/index.ts: the registration loop *)
(* ===================================================================== *)

Module Registry.
Import Async.

(** The server handle, by the tools registered on it. *)
Abbreviation Server := (gmap string) (only parsing).

Section WithTool.
(** What a tool registers under its name: title, schema and handler. *)
Context {Tool : Type}.

(** Modelled from the spec: [server.registerTool] of the SDK, which is not
    part of the sources; it inserts the entry for the name or overwrites it,
    and raises no error on overwrite. *)
Definition registerTool (name : string) (tool : Tool) : Eff (Server Tool) unit :=
  modify (fun server : Server Tool => <[name := tool]> server).

(** An element of [allToolFunctions]: an import that is a function of the
    server, or any other value, kept by the way the console prints it. *)
Inductive entry :=
| Callable (registryFn : Eff (Server Tool) unit)
| NotCallable (printed : string).

(** The state of the start-up: the server, the two console streams, and the
    positions of the entries that have been called. *)
Record boot := mkBoot {
  server : Server Tool;
  console_error : list (string * string);
  console_log : list string;
  invoked : list nat
}.

(** [registryFn(server)], recorded under the position of the entry. *)
Definition call_entry (i : nat) (registryFn : Eff (Server Tool) unit) : Eff boot unit :=
  fun b =>
    let b1 := {| server := server b; console_error := console_error b;
                 console_log := console_log b; invoked := invoked b ++ [i] |} in
    match registryFn (server b1) with
    | Return _ s' =>
        Return tt {| server := s'; console_error := console_error b1;
                     console_log := console_log b1; invoked := invoked b1 |}
    | Throw e s' =>
        Throw e {| server := s'; console_error := console_error b1;
                   console_log := console_log b1; invoked := invoked b1 |}
    end.

Definition log_error (label value : string) : Eff boot unit :=
  modify (fun b => {| server := server b;
                      console_error := console_error b ++ [(label, value)];
                      console_log := console_log b; invoked := invoked b |}).

Definition log_info (line : string) : Eff boot unit :=
  modify (fun b => {| server := server b; console_error := console_error b;
                      console_log := console_log b ++ [line]; invoked := invoked b |}).

(** The callback of [allToolFunctions.forEach]. *)
Definition forEach_callback (i : nat) (registryFn : entry) : Eff boot unit :=
  match registryFn with
  | Callable fn => call_entry i fn
  | NotCallable printed => log_error "An imported tool is not a function:" printed
  end.

(** [forEach]: the entries in order, from position [i]; a callback that
    throws ends the loop. *)
Fixpoint forEach (i : nat) (entries : list entry) : Eff boot unit :=
  match entries with
  | [] => ret tt
  | registryFn :: rest =>
      do! forEach_callback i registryFn in
      forEach (S i) rest
  end.

(** [registryTools(server)], for the array [allToolFunctions] of imports. *)
Definition registryTools (allToolFunctions : list entry) : Eff boot unit :=
  do! forEach 0 allToolFunctions in
  log_info (pretty (length allToolFunctions) +:+ " tools have been registered.").

(** The start of the process: nothing registered, nothing printed. *)
Definition boot0 : boot :=
  {| server := ∅; console_error := []; console_log := []; invoked := [] |}.

Definition is_callable (e : entry) : bool :=
  match e with
  | Callable _ => true
  | NotCallable _ => false
  end.

(** The registration function returns normally on every server. *)
Definition returns_normally (e : entry) : Prop :=
  match e with
  | Callable fn => forall s, resolves (fn s)
  | NotCallable _ => True
  end.

(** The number of times position [i] was called. *)
Definition times_invoked (i : nat) (b : boot) : nat :=
  length (filter (fun j => j = i) (invoked b)).

(** The positions of the functions among the entries, counted from [i]. *)
Fixpoint callable_positions (i : nat) (entries : list entry) : list nat :=
  match entries with
  | [] => []
  | Callable _ :: rest => i :: callable_positions (S i) rest
  | NotCallable _ :: rest => callable_positions (S i) rest
  end.

(** One diagnostic for each entry that is not a function, in order. *)
Fixpoint diagnostics (entries : list entry) : list (string * string) :=
  match entries with
  | [] => []
  | Callable _ :: rest => diagnostics rest
  | NotCallable printed :: rest =>
      ("An imported tool is not a function:", printed) :: diagnostics rest
  end.

End WithTool.
Arguments entry : clear implicits.
Arguments boot : clear implicits.

(** The three entries of the start-up scenario: two functions that register
    one tool each, and one import that is not a function. *)
Definition scenario_entries {Tool} (n1 n2 : string) (t1 t2 : Tool)
    (printed : string) : list (entry Tool) :=
  [Callable (registerTool n1 t1); NotCallable printed;
   Callable (registerTool n2 t2)].

(** A registration function that throws, followed by one that registers. *)
Definition throwing_entries : list (entry unit) :=
  [Callable (throw (ErrorObj "Tool ping-tool is already registered"));
   Callable (registerTool "todo-list-tool" tt)].

End Registry.

(* ===================================================================== *)
(** * JavaScript values in conditions *)
(* ===================================================================== *)

Module Js.

(** A string in a condition: the empty string is falsy. *)
Definition truthy_string (s : string) : bool :=
  match s with
  | EmptyString => false
  | String _ _ => true
  end.

(** An optional string in a condition: undefined is falsy too. *)
Definition truthy (s : option string) : bool :=
  match s with
  | Some s => truthy_string s
  | None => false
  end.

(** An optional boolean in a condition. *)
Definition truthy_bool (b : option bool) : bool :=
  match b with
  | Some b => b
  | None => false
  end.

(** An optional integer in a condition: zero is falsy. *)
Definition truthy_int (z : option Z) : bool :=
  match z with
  | Some z => negb (z =? 0)%Z
  | None => false
  end.

(** [a || b] on strings. *)
Definition or_else (a : option string) (b : string) : string :=
  match a with
  | Some s => if truthy_string s then s else b
  | None => b
  end.

End Js.

(* ===================================================================== *)
(** * tools/watch-file-changes.ts *)
(* ===================================================================== *)

Module WatchFileChanges.
Import Async Outcome Js.

(** [path.resolve], which depends on the working directory of the process. *)
Class Lib := { path_resolve : string -> string }.

Record params := mkParams {
  action : string;
  target_path : string;
  command : option string;
  recursive : option bool
}.

(** What [fs.watch] returns: the watcher of a path, with the command its
    listener runs. *)
Record FSWatcher := mkWatcher {
  watched : string;
  listener_command : string;
  watch_recursive : option bool
}.

#[export] Instance FSWatcher_eq_dec : EqDecision FSWatcher.
Proof. solve_decision. Defined.

(** The module-level map [activeWatchers], the file system as the handler
    queries it, the watchers that were opened and not closed, and the lines
    of [log]. *)
Record world := mkWorld {
  activeWatchers : gmap string FSWatcher;
  existsSync : string -> bool;
  watch_throws : string -> option thrown;
  open_watchers : list FSWatcher;
  console : list string
}.

Definition set_activeWatchers (f : gmap string FSWatcher -> gmap string FSWatcher)
    (w : world) : world :=
  {| activeWatchers := f (activeWatchers w); existsSync := existsSync w;
     watch_throws := watch_throws w; open_watchers := open_watchers w;
     console := console w |}.

Definition set_open_watchers (f : list FSWatcher -> list FSWatcher)
    (w : world) : world :=
  {| activeWatchers := activeWatchers w; existsSync := existsSync w;
     watch_throws := watch_throws w; open_watchers := f (open_watchers w);
     console := console w |}.

(** [log(message)]. *)
Definition log (message : string) : Eff world unit :=
  modify (fun w =>
    {| activeWatchers := activeWatchers w; existsSync := existsSync w;
       watch_throws := watch_throws w; open_watchers := open_watchers w;
       console := console w ++ ["[watch-file-changes] " +:+ message] |}).

(** [fs.watch(path, { recursive }, listener)]: throws, or opens a watcher. *)
Definition fs_watch (path : string) (recursive : option bool) (command : string)
    : Eff world FSWatcher :=
  fun w =>
    match watch_throws w path with
    | Some e => Throw e w
    | None =>
        let watcher := {| watched := path; listener_command := command;
                          watch_recursive := recursive |} in
        Return watcher (set_open_watchers (fun l => l ++ [watcher]) w)
    end.

(** [watcher.close()]. *)
Definition close (watcher : FSWatcher) : Eff world unit :=
  modify (set_open_watchers (filter (fun x => x <> watcher))).

Section Handler.
Context {lib : Lib}.

(** The handler registered under 'watch-file-changes'. *)
Definition handler (p : params) : Eff world Outcome :=
  let normalizedPath := path_resolve (target_path p) in
  if String.eqb (action p) "start" then
    if negb (truthy (command p)) then
      ret (error_outcome "Error: A command must be provided to start watching.")
    else
      let! present := gets (fun w => activeWatchers w !! normalizedPath) in
      if bool_decide (is_Some present) then
        ret (error_outcome
               ("Already watching path: " +:+ normalizedPath +:+ ". Stop it first."))
      else
        let! found := gets (fun w => existsSync w normalizedPath) in
        if negb found then
          ret (error_outcome ("Error: Path does not exist: " +:+ normalizedPath))
        else
          try_catch
            (let! watcher :=
               fs_watch normalizedPath (recursive p) (default "" (command p)) in
             do! modify (set_activeWatchers (<[normalizedPath := watcher]>)) in
             do! log ("Started watching " +:+ normalizedPath) in
             ret (text_outcome
                    ("Started watching for changes in " +:+ normalizedPath +:+ ".")))
            (fun error =>
               ret (error_outcome
                      ("Failed to start watcher: " +:+ message_any error)))
  else if String.eqb (action p) "stop" then
    let! watcher := gets (fun w => activeWatchers w !! normalizedPath) in
    match watcher with
    | None =>
        ret (error_outcome
               ("No active watcher found for path: " +:+ normalizedPath))
    | Some watcher =>
        do! close watcher in
        do! modify (set_activeWatchers (delete normalizedPath)) in
        do! log ("Stopped watching " +:+ normalizedPath) in
        ret (text_outcome
               ("Stopped watching for changes in " +:+ normalizedPath +:+ "."))
    end
  else
    ret (error_outcome "Invalid action specified.").

(** The listener of the watcher's 'error' event. *)
Definition on_watcher_error (normalizedPath message : string) : Eff world unit :=
  do! log ("Watcher error for " +:+ normalizedPath +:+ ": " +:+ message) in
  modify (set_activeWatchers (delete normalizedPath)).

End Handler.

(** The map and the open watchers agree: no two open watchers share a path,
    and the map holds, under each path, the open watcher of that path. *)
Definition one_watcher_per_path (w : world) : Prop :=
  NoDup (watched <$> open_watchers w) /\
  forall path watcher,
    activeWatchers w !! path = Some watcher <->
    (watcher ∈ open_watchers w /\ watched watcher = path).

(** A process started in /srv with one watcher open, on /srv/a. *)
Definition sample_lib : Lib :=
  {| path_resolve := fun p =>
       if String.prefix "/" p then p else "/srv/" +:+ p |}.

Definition sample_watcher : FSWatcher :=
  {| watched := "/srv/a"; listener_command := "make"; watch_recursive := Some false |}.

Definition sample_world : world :=
  {| activeWatchers := {[ "/srv/a" := sample_watcher ]};
     existsSync := fun p => bool_decide (p = "/srv/a" \/ p = "/srv/b");
     watch_throws := fun _ => None;
     open_watchers := [sample_watcher];
     console := [] |}.

Definition sample_start : params :=
  {| action := "start"; target_path := "a"; command := Some "make";
     recursive := None |}.

Definition sample_stop : params :=
  {| action := "stop"; target_path := "b"; command := None; recursive := None |}.

End WatchFileChanges.

(* ===================================================================== *)
(** * tools/get-system-info.ts *)
(* ===================================================================== *)

Module GetSystemInfo.
Import Async Outcome.

(** An element of [os.cpus()]. *)
Record cpu := mkCpu {
  model : string;
  speed : Z
}.

(** The host as the module [os] answers: each query returns its value or
    throws a system error. The last two fields are not read by the tool. *)
Record os := mkOs {
  os_cpus : thrown + list cpu;
  os_platform : thrown + string;
  os_type : thrown + string;
  os_release : thrown + string;
  os_arch : thrown + string;
  os_hostname : thrown + string;
  os_totalmem : thrown + Z;
  os_freemem : thrown + Z;
  os_uptime : thrown + Q;
  os_loadavg : list Q;
  os_tmpdir : string
}.

(** The object [systemInfo]. *)
Record systemInfo := mkSystemInfo {
  platform : string;
  osType : string;
  osRelease : string;
  architecture : string;
  hostname : string;
  totalMemoryMB : Z;
  freeMemoryMB : Z;
  cpuCount : nat;
  cpuModel : string;
  uptimeSeconds : Z
}.

(** [JSON.stringify(systemInfo, null, 2)]. *)
Class Lib := { JSON_stringify : systemInfo -> string }.

(** [Math.round(bytes / (1024 * 1024))]: halves round up. *)
Definition round_MB (bytes : Z) : Z :=
  ((2 * bytes + 1024 * 1024) / (2 * (1024 * 1024)))%Z.

(** [Math.round(x)] on a rational. *)
Definition Math_round (x : Q) : Z := Qfloor (x + (1 # 2)).

(** [cpus.length > 0 ? cpus[0].model : 'N/A']. *)
Definition first_model (cpus : list cpu) : string :=
  match cpus with
  | c :: _ => model c
  | [] => "N/A"
  end.

Section Handler.
Context {lib : Lib}.

(** The body of the [try] block. *)
Definition collect : Eff os Outcome :=
  let! cpus := bind (gets os_cpus) lift_exc in
  let! platform := bind (gets os_platform) lift_exc in
  let! osType := bind (gets os_type) lift_exc in
  let! osRelease := bind (gets os_release) lift_exc in
  let! architecture := bind (gets os_arch) lift_exc in
  let! hostname := bind (gets os_hostname) lift_exc in
  let! totalmem := bind (gets os_totalmem) lift_exc in
  let! freemem := bind (gets os_freemem) lift_exc in
  let! uptime := bind (gets os_uptime) lift_exc in
  let systemInfo :=
    {| platform := platform;
       osType := osType;
       osRelease := osRelease;
       architecture := architecture;
       hostname := hostname;
       totalMemoryMB := round_MB totalmem;
       freeMemoryMB := round_MB freemem;
       cpuCount := length cpus;
       cpuModel := first_model cpus;
       uptimeSeconds := Math_round uptime |} in
  ret (text_outcome (JSON_stringify systemInfo)).

(** The handler registered under 'get-system-info'. *)
Definition handler : Eff os Outcome :=
  try_catch collect
    (fun error =>
       ret (error_outcome ("An error occurred: " +:+ message_any error))).

End Handler.

(** The values the handler queries. *)
Definition queried (o : os) :=
  (os_cpus o, os_platform o, os_type o, os_release o, os_arch o,
   os_hostname o, os_totalmem o, os_freemem o, os_uptime o).

(** Every query answers. *)
Definition answers (o : os) : Prop :=
  answered (os_cpus o) /\ answered (os_platform o) /\ answered (os_type o) /\
  answered (os_release o) /\ answered (os_arch o) /\ answered (os_hostname o) /\
  answered (os_totalmem o) /\ answered (os_freemem o) /\ answered (os_uptime o).

(** A plain rendering of the object, one property per line. *)
Definition sample_lib : Lib :=
  {| JSON_stringify := fun i =>
       "platform=" +:+ platform i +:+ " osType=" +:+ osType i +:+
       " osRelease=" +:+ osRelease i +:+ " architecture=" +:+ architecture i +:+
       " hostname=" +:+ hostname i +:+
       " totalMemoryMB=" +:+ pretty (totalMemoryMB i) +:+
       " freeMemoryMB=" +:+ pretty (freeMemoryMB i) +:+
       " cpuCount=" +:+ pretty (cpuCount i) +:+
       " cpuModel=" +:+ cpuModel i +:+
       " uptimeSeconds=" +:+ pretty (uptimeSeconds i) |}.

(** One host at two moments: the load average and the temporary directory
    differ, the answers to the nine queries do not. *)
Definition sample_host (loadavg : list Q) (tmpdir : string) : os :=
  {| os_cpus := inr [ {| model := "Ryzen 7"; speed := 3600 |};
                      {| model := "Ryzen 7"; speed := 3600 |} ];
     os_platform := inr "linux";
     os_type := inr "Linux";
     os_release := inr "6.8.0";
     os_arch := inr "x64";
     os_hostname := inr "build-01";
     os_totalmem := inr 16777216000%Z;
     os_freemem := inr 8388608000%Z;
     os_uptime := inr (86400.5)%Q;
     os_loadavg := loadavg;
     os_tmpdir := tmpdir |}.

End GetSystemInfo.

(* ===================================================================== *)
(** * tools/todo-list-tool.ts *)
(* ===================================================================== *)

Module TodoListTool.
Import Async Outcome Js.

Definition TODO_FILE_PATH : string := "todo-list.json".

Record Task := mkTask {
  id : Z;
  text : string;
  priority : string;
  due_date : option string;
  completed : bool
}.

Record Project := mkProject {
  name : string;
  tasks : list Task
}.

(** [current_project] is [None] for [null]. *)
Record TodoData := mkTodoData {
  projects : list Project;
  current_project : option string
}.

(** The library calls of the module: [JSON.parse] throws a SyntaxError on a
    text that is not JSON; [parseInt] answers [None] for NaN. *)
Class Lib := {
  JSON_parse : string -> thrown + TodoData;
  JSON_stringify_data : TodoData -> string;
  JSON_stringify_tasks : list Task -> string;
  JSON_stringify_names : list string -> string;
  parseInt : string -> option Z
}.

(** What the file system holds under a path. *)
Inductive node :=
| RegularFile (content : string)
| Directory.

(** The file system, and the error every write meets, if any (a read-only
    or full disk). *)
Record world := mkWorld {
  fs : gmap string node;
  write_error : option thrown
}.

(** [fs.pathExists(path)]. *)
Definition pathExists (path : string) : Eff world bool :=
  gets (fun w => bool_decide (is_Some (fs w !! path))).

(** [fs.readFile(path, 'utf-8')]. *)
Definition readFile (path : string) : Eff world string :=
  fun w =>
    match fs w !! path with
    | Some (RegularFile content) => Return content w
    | Some Directory =>
        Throw (ErrorObj "EISDIR: illegal operation on a directory, read") w
    | None =>
        Throw (ErrorObj ("ENOENT: no such file or directory, open '" +:+ path +:+ "'")) w
    end.

(** [fs.writeFile(path, content)]. *)
Definition writeFile (path content : string) : Eff world unit :=
  fun w =>
    match write_error w with
    | Some e => Throw e w
    | None =>
        match fs w !! path with
        | Some Directory =>
            Throw (ErrorObj ("EISDIR: illegal operation on a directory, open '"
                             +:+ path +:+ "'")) w
        | _ =>
            Return tt {| fs := <[path := RegularFile content]> (fs w);
                         write_error := write_error w |}
        end
    end.

(** [array.find(pred)]. *)
Definition find {A} (pred : A -> bool) (l : list A) : option A :=
  List.find pred l.

(** The first element that satisfies [pred], changed in place. *)
Fixpoint update_first {A} (pred : A -> bool) (f : A -> A) (l : list A) : list A :=
  match l with
  | [] => []
  | x :: rest => if pred x then f x :: rest else x :: update_first pred f rest
  end.

(** [t.id === parseInt(task_id)]: never true for NaN. *)
Definition id_is (n : option Z) (t : Task) : bool :=
  match n with
  | Some z => (id t =? z)%Z
  | None => false
  end.

Section Handler.
Context {lib : Lib}.

Definition readTodoData : Eff world TodoData :=
  let! found := pathExists TODO_FILE_PATH in
  if found then
    let! content := readFile TODO_FILE_PATH in
    lift_exc (JSON_parse content)
  else ret {| projects := []; current_project := None |}.

Definition writeTodoData (data : TodoData) : Eff world unit :=
  writeFile TODO_FILE_PATH (JSON_stringify_data data).

Record params := mkParams {
  operation : string;
  project_name : option string;
  task : option string;
  task_id : option string;
  param_priority : option string;
  param_due_date : option string
}.

Definition named (n : string) (p : Project) : bool := String.eqb (name p) n.

(** [data] with the tasks of the first project called [n] replaced. *)
Definition with_tasks (data : TodoData) (n : string)
    (f : list Task -> list Task) : TodoData :=
  {| projects :=
       update_first (named n)
         (fun p => {| name := name p; tasks := f (tasks p) |}) (projects data);
     current_project := current_project data |}.

Definition case_create_project (p : params) (data : TodoData) : Eff world Outcome :=
  if negb (truthy (project_name p)) then
    ret (error_outcome "Error: 'project_name' is required.")
  else
    let project_name := default "" (project_name p) in
    if bool_decide (is_Some (find (named project_name) (projects data))) then
      ret (error_outcome ("Error: Project '" +:+ project_name +:+ "' already exists."))
    else
      let data :=
        {| projects := projects data ++ [{| name := project_name; tasks := [] |}];
           current_project := current_project data |} in
      do! writeTodoData data in
      ret (text_outcome ("Project '" +:+ project_name +:+ "' created.")).

Definition case_add_task (p : params) (data : TodoData) : Eff world Outcome :=
  if negb (truthy (current_project data)) then
    ret (error_outcome "Error: No project selected. Use 'switch_project' first.")
  else if negb (truthy (task p)) then
    ret (error_outcome "Error: 'task' is required.")
  else
    let current := default "" (current_project data) in
    match find (named current) (projects data) with
    | Some project =>
        let new_task :=
          {| id := Z.of_nat (length (tasks project)) + 1;
             text := default "" (task p);
             priority := or_else (param_priority p) "medium";
             due_date := param_due_date p;
             completed := false |} in
        let data := with_tasks data current (fun ts => ts ++ [new_task]) in
        do! writeTodoData data in
        ret (text_outcome ("Task added to project '" +:+ current +:+ "'."))
    | None => ret (error_outcome "Error: Current project not found.")
    end.

Definition case_remove_task (p : params) (data : TodoData) : Eff world Outcome :=
  if negb (truthy (current_project data)) then
    ret (error_outcome "Error: No project selected.")
  else if negb (truthy (task_id p)) then
    ret (error_outcome "Error: 'task_id' is required.")
  else
    let current := default "" (current_project data) in
    let task_id := default "" (task_id p) in
    match find (named current) (projects data) with
    | Some _ =>
        let data :=
          with_tasks data current
            (List.filter (fun t => negb (id_is (parseInt task_id) t))) in
        do! writeTodoData data in
        ret (text_outcome ("Task with ID " +:+ task_id +:+ " removed."))
    | None => ret (error_outcome "Error: Current project not found.")
    end.

Definition case_list_tasks (p : params) (data : TodoData) : Eff world Outcome :=
  if negb (truthy (current_project data)) then
    ret (error_outcome "Error: No project selected.")
  else
    let current := default "" (current_project data) in
    match find (named current) (projects data) with
    | Some project => ret (text_outcome (JSON_stringify_tasks (tasks project)))
    | None => ret (error_outcome "Error: Current project not found.")
    end.

Definition case_complete_task (p : params) (data : TodoData) : Eff world Outcome :=
  if negb (truthy (current_project data)) then
    ret (error_outcome "Error: No project selected.")
  else if negb (truthy (task_id p)) then
    ret (error_outcome "Error: 'task_id' is required.")
  else
    let current := default "" (current_project data) in
    let task_id := default "" (task_id p) in
    match find (named current) (projects data) with
    | Some project =>
        match find (id_is (parseInt task_id)) (tasks project) with
        | Some _ =>
            let complete t :=
              {| id := id t; text := text t; priority := priority t;
                 due_date := due_date t; completed := true |} in
            let data :=
              with_tasks data current
                (update_first (id_is (parseInt task_id)) complete) in
            do! writeTodoData data in
            ret (text_outcome ("Task with ID " +:+ task_id +:+ " marked as completed."))
        | None =>
            ret (error_outcome ("Error: Task with ID " +:+ task_id +:+ " not found."))
        end
    | None => ret (error_outcome "Error: Current project not found.")
    end.

Definition case_list_projects (p : params) (data : TodoData) : Eff world Outcome :=
  ret (text_outcome (JSON_stringify_names (name <$> projects data))).

Definition case_switch_project (p : params) (data : TodoData) : Eff world Outcome :=
  if negb (truthy (project_name p)) then
    ret (error_outcome "Error: 'project_name' is required.")
  else
    let project_name := default "" (project_name p) in
    if negb (bool_decide (is_Some (find (named project_name) (projects data)))) then
      ret (error_outcome ("Error: Project '" +:+ project_name +:+ "' not found."))
    else
      let data := {| projects := projects data;
                     current_project := Some project_name |} in
      do! writeTodoData data in
      ret (text_outcome ("Switched to project '" +:+ project_name +:+ "'.")).

(** The [switch (operation)] of the [try] block. *)
Definition switch_operation (p : params) (data : TodoData) : Eff world Outcome :=
  if String.eqb (operation p) "create_project" then case_create_project p data
  else if String.eqb (operation p) "add_task" then case_add_task p data
  else if String.eqb (operation p) "remove_task" then case_remove_task p data
  else if String.eqb (operation p) "list_tasks" then case_list_tasks p data
  else if String.eqb (operation p) "complete_task" then case_complete_task p data
  else if String.eqb (operation p) "list_projects" then case_list_projects p data
  else if String.eqb (operation p) "switch_project" then case_switch_project p data
  else ret (error_outcome ("Error: Unknown operation '" +:+ operation p +:+ "'.")).

(** The handler registered under 'todo-list-tool': [readTodoData] is awaited
    before the [try] block is entered. *)
Definition handler (p : params) : Eff world Outcome :=
  let! data := readTodoData in
  try_catch (switch_operation p data)
    (fun error =>
       ret (error_outcome
              ("Error performing to-do list operation: " +:+ message_any error))).

End Handler.

(** A library whose [JSON.parse] knows the text "{}" only, and reads it as
    an object without projects; any other text is a SyntaxError. *)
Definition sample_lib : Lib :=
  {| JSON_parse := fun s =>
       if String.eqb s "{}" then inr {| projects := []; current_project := None |}
       else inl (ErrorObj "Unexpected end of JSON input");
     JSON_stringify_data := fun _ => "{}";
     JSON_stringify_tasks := fun _ => "[]";
     JSON_stringify_names := fun _ => "[]";
     parseInt := fun _ => None |}.

(** The store was cut short while it was written. *)
Definition truncated_store : world :=
  {| fs := {[ TODO_FILE_PATH := RegularFile "{" ]}; write_error := None |}.

(** A directory stands where the store should be. *)
Definition directory_store : world :=
  {| fs := {[ TODO_FILE_PATH := Directory ]}; write_error := None |}.

Definition empty_disk : world := {| fs := ∅; write_error := None |}.

Definition create_project_call : params :=
  {| operation := "create_project"; project_name := Some "garden"; task := None;
     task_id := None; param_priority := None; param_due_date := None |}.

Definition list_projects_call : params :=
  {| operation := "list_projects"; project_name := None; task := None;
     task_id := None; param_priority := None; param_due_date := None |}.

End TodoListTool.

(* ===================================================================== *)
(** * tools/ping-tool.ts *)
(* ===================================================================== *)

Module PingTool.
Import Async Outcome Js.

Record params := mkParams {
  target : string;
  count : option string;
  timeout : option string;
  output_path : option string
}.

(** [parsedResult.packets]: [None] is [null]. *)
Record packets := mkPackets {
  transmitted : option JsNum.number;
  received : option JsNum.number;
  loss_percentage : option JsNum.number
}.

Record rtt := mkRtt {
  min_ms : JsNum.number;
  avg_ms : JsNum.number;
  max_ms : JsNum.number;
  mdev_ms : JsNum.number
}.

(** The object [parsedResult]; a property that was never assigned is
    [None]. *)
Record parsedResult := mkParsedResult {
  result_target : string;
  raw_output : option string;
  ip_address : option string;
  result_packets : option packets;
  result_rtt : option rtt
}.

(** The library calls of the handler: [quote] of shell-quote, the first
    capture group of each regular expression (the four groups of the rtt
    line), [parseInt(_, 10)], [parseFloat] and [JSON.stringify(_, null, 2)]. *)
Class Lib := {
  quote : list string -> string;
  match_transmitted : string -> option string;
  match_received : string -> option string;
  match_loss : string -> option string;
  match_rtt : string -> option (string * string * string * string);
  match_ip : string -> option string;
  parseInt : string -> JsNum.number;
  parseFloat : string -> JsNum.number;
  JSON_stringify : parsedResult -> string
}.

(** What the callback of [exec] is called with. *)
Record exec_result := mkExecResult {
  exec_error : bool;
  stdout : string;
  stderr : string
}.

(** The platform, the outcome of each shell command, the error every write
    meets (if any) and the files written. *)
Record world := mkWorld {
  platform : string;
  exec : string -> exec_result;
  write_error : option thrown;
  written : list (string * string)
}.

(** The promise around [exec(command, callback)]. *)
Definition exec_promise (command : string) : Eff world string :=
  fun w =>
    let r := exec w command in
    if exec_error r then
      Throw (ErrorObj ("Ping failed: " +:+
                       (if truthy_string (stderr r) then stderr r else stdout r))) w
    else Return (stdout r) w.

(** [fs.writeFile(path, content)]. *)
Definition writeFile (path content : string) : Eff world unit :=
  fun w =>
    match write_error w with
    | Some e => Throw e w
    | None =>
        Return tt {| platform := platform w; exec := exec w;
                     write_error := write_error w;
                     written := written w ++ [(path, content)] |}
    end.

Section Handler.
Context {lib : Lib}.

(** The destructuring [count = '4'] and [timeout = '5']. *)
Definition count_or_default (p : params) : string := default "4" (count p).
Definition timeout_or_default (p : params) : string := default "5" (timeout p).

(** The command line for the platform. *)
Definition command_for (platform : string) (p : params) : string :=
  if String.eqb platform "win32" then
    "ping -n " +:+ quote [count_or_default p] +:+ " -w " +:+
    quote [timeout_or_default p] +:+ " " +:+ quote [target p]
  else
    "ping -c " +:+ quote [count_or_default p] +:+ " -W " +:+
    quote [timeout_or_default p] +:+ " " +:+ quote [target p].

(** The parsing of the output, skipped on win32. *)
Definition parse_output (platform : string) (p : params) (rawResult : string)
    : parsedResult :=
  if negb (String.eqb platform "win32") then
    {| result_target := target p;
       raw_output := Some rawResult;
       ip_address :=
         match match_ip rawResult with
         | Some ip => if truthy_string ip then Some ip else None
         | None => None
         end;
       result_packets :=
         Some {| transmitted := parseInt <$> match_transmitted rawResult;
                 received := parseInt <$> match_received rawResult;
                 loss_percentage := parseInt <$> match_loss rawResult |};
       result_rtt :=
         match match_rtt rawResult with
         | Some (a, b, c, d) =>
             Some {| min_ms := parseFloat a; avg_ms := parseFloat b;
                     max_ms := parseFloat c; mdev_ms := parseFloat d |}
         | None => None
         end |}
  else
    {| result_target := target p; raw_output := Some rawResult;
       ip_address := None; result_packets := None; result_rtt := None |}.

(** The handler registered under 'ping-tool'. *)
Definition handler (p : params) : Eff world Outcome :=
  try_catch
    (let! platform := gets platform in
     let command := command_for platform p in
     let! rawResult := exec_promise command in
     let jsonResult := JSON_stringify (parse_output platform p rawResult) in
     if truthy (output_path p) then
       let output_path := default "" (output_path p) in
       do! writeFile output_path jsonResult in
       ret (text_outcome ("Ping results saved to " +:+ output_path))
     else ret (text_outcome jsonResult))
    (fun error =>
       ret (error_outcome ("Error performing ping: " +:+ message_any error))).

End Handler.

End PingTool.

(* ===================================================================== *)
(** * Strings of the handlers *)
(* ===================================================================== *)

Module Text.

Definition is_space (a : Ascii.ascii) : bool :=
  let n := Ascii.nat_of_ascii a in
  Nat.eqb n 32 || Nat.eqb n 9 || Nat.eqb n 10 || Nat.eqb n 11 ||
  Nat.eqb n 12 || Nat.eqb n 13.

Fixpoint trim_start (s : string) : string :=
  match s with
  | EmptyString => EmptyString
  | String a rest => if is_space a then trim_start rest else s
  end.

(** [s.trim()], on the ASCII white space. *)
Definition trim (s : string) : string :=
  String.rev (trim_start (String.rev (trim_start s))).

(** [name.startsWith('.')]. *)
Definition starts_with_dot (s : string) : bool := String.prefix "." s.

End Text.

(* ===================================================================== *)
(** * tools/count-files.ts *)
(* ===================================================================== *)

Module CountFiles.
Import Async Outcome Js.

(** [path.join] and [new RegExp(pattern).test(name)]; the constructor
    throws a SyntaxError on a pattern that is not a regular expression. *)
Class Lib := {
  path_join : string -> string -> string;
  regexp_test : string -> string -> thrown + bool
}.

(** What [fs.stat] answers: the size in bytes and the modification time in
    milliseconds. *)
Record Stats := mkStats {
  size : Z;
  mtime : Z
}.

(** An entry of a directory, with what [fs.stat] answers for it; a
    directory carries what [fs.readdir] answers for it. *)
#[local] Unset Elimination Schemes.
Inductive Dirent :=
| FileEnt (name : string) (stat : thrown + Stats)
| DirEnt (name : string) (stat : thrown + Stats) (listing : thrown + list Dirent)
| OtherEnt (name : string) (stat : thrown + Stats).
#[local] Set Elimination Schemes.

Definition ent_name (d : Dirent) : string :=
  match d with
  | FileEnt n _ | DirEnt n _ _ | OtherEnt n _ => n
  end.

Definition ent_stat (d : Dirent) : thrown + Stats :=
  match d with
  | FileEnt _ s | DirEnt _ s _ | OtherEnt _ s => s
  end.

Inductive details_type := file | directory.

Record FileDetails := mkFileDetails {
  path : string;
  type : details_type;
  details_size : Z;
  modified_date : Z
}.

(** The paths that exist, each with the answer of [fs.readdir] for it (an
    error for a path that is not a directory), the home directory, the
    clock, and the lines of [console.warn]. *)
Record world := mkWorld {
  tree : gmap string (thrown + list Dirent);
  homedir : string;
  now : Z;
  warnings : list string
}.

(** The parameter of [listFilesRecursiveForCount]. *)
Record params := mkParams {
  folderPath : option string;
  includeHidden : option bool;
  count_files : option bool;
  count_folders : option bool;
  recursive : option bool;
  pattern : option string;
  max_depth : option Z;
  min_size_kb : option Z;
  max_size_kb : option Z;
  modified_since_days : option Z
}.

(** [String(err)]. *)
Definition String_of (e : thrown) : string :=
  match e with
  | ErrorObj m => "Error: " +:+ m
  | OtherValue s => s
  end.

Definition console_warn (line : string) : Eff world unit :=
  modify (fun w => {| tree := tree w; homedir := homedir w; now := now w;
                      warnings := warnings w ++ [line] |}).

Definition is_file (d : FileDetails) : bool :=
  match type d with file => true | directory => false end.

Definition is_directory (d : FileDetails) : bool :=
  match type d with file => false | directory => true end.

Section Handler.
Context {lib : Lib}.

(** [modifiedDate < cutoffDate], when [modified_since_days] is given. *)
Definition too_old (p : params) (w_now : Z) (stats : Stats) : bool :=
  match modified_since_days p with
  | Some days => (mtime stats <? w_now - days * 86400000)%Z
  | None => false
  end.

Definition too_small (p : params) (stats : Stats) : bool :=
  match min_size_kb p with
  | Some kb => (size stats <? kb * 1024)%Z
  | None => false
  end.

Definition too_large (p : params) (stats : Stats) : bool :=
  match max_size_kb p with
  | Some kb => (kb * 1024 <? size stats)%Z
  | None => false
  end.

(** [params.recursive && (params.max_depth === undefined ||
    currentDepth < params.max_depth)]. *)
Definition descends (p : params) (currentDepth : Z) : bool :=
  truthy_bool (recursive p) &&
  match max_depth p with
  | None => true
  | Some d => (currentDepth <? d)%Z
  end.

(** [params.pattern && !new RegExp(params.pattern).test(item.name)]. *)
Definition rejected_by_pattern (p : params) (name : string) : Eff world bool :=
  match pattern p with
  | Some pat =>
      if truthy_string pat then
        let! matched := lift_exc (regexp_test pat name) in ret (negb matched)
      else ret false
  | None => ret false
  end.

(** One turn of the loop over the entries of [dir]: what the turn adds to
    [results]. An exception of the recursive call is caught by the [try] of
    the turn after the directory itself was pushed. *)
Fixpoint visit (p : params) (dir : string) (currentDepth : Z) (item : Dirent)
    {struct item} : Eff world (list FileDetails) :=
  let itemPath := path_join dir (ent_name item) in
  if negb (truthy_bool (includeHidden p)) && Text.starts_with_dot (ent_name item)
  then ret []
  else
    let! skip := rejected_by_pattern p (ent_name item) in
    if skip then ret []
    else
      let could_not_stat (err : thrown) : Eff world unit :=
        console_warn ("Could not stat item " +:+ itemPath +:+ ": " +:+ String_of err) in
      try_catch
        (let! stats := lift_exc (ent_stat item) in
         let! w_now := gets now in
         if too_old p w_now stats then ret []
         else
           match item with
           | DirEnt _ _ listing =>
               let pushed :=
                 if truthy_bool (count_folders p) then
                   [{| path := itemPath; type := directory;
                       details_size := size stats; modified_date := mtime stats |}]
                 else [] in
               if descends p currentDepth then
                 try_catch
                   (let! below :=
                      match listing with
                      | inl err =>
                          do! console_warn ("Could not read directory " +:+ itemPath
                                            +:+ ": " +:+ String_of err) in
                          ret []
                      | inr items =>
                          (fix loop (items : list Dirent) : Eff world (list FileDetails) :=
                             match items with
                             | [] => ret []
                             | it :: rest =>
                                 let! added := visit p itemPath (currentDepth + 1) it in
                                 let! more := loop rest in
                                 ret (added ++ more)
                             end) items
                      end in
                    ret (pushed ++ below))
                   (fun err => do! could_not_stat err in ret pushed)
               else ret pushed
           | FileEnt _ _ =>
               if too_small p stats then ret []
               else if too_large p stats then ret []
               else if truthy_bool (count_files p) then
                 ret [{| path := itemPath; type := file;
                         details_size := size stats; modified_date := mtime stats |}]
               else ret []
           | OtherEnt _ _ => ret []
           end)
        (fun err => do! could_not_stat err in ret []).

(** The loop over the entries of one directory. *)
Fixpoint visit_all (p : params) (dir : string) (currentDepth : Z)
    (items : list Dirent) : Eff world (list FileDetails) :=
  match items with
  | [] => ret []
  | it :: rest =>
      let! added := visit p dir currentDepth it in
      let! more := visit_all p dir currentDepth rest in
      ret (added ++ more)
  end.

(** [listFilesRecursiveForCount(dir, params, currentDepth)], given what
    [fs.readdir(dir)] answers. *)
Definition listFilesRecursiveForCount (dir : string)
    (listing : thrown + list Dirent) (p : params) (currentDepth : Z)
    : Eff world (list FileDetails) :=
  match listing with
  | inl err =>
      do! console_warn ("Could not read directory " +:+ dir +:+ ": " +:+ String_of err) in
      ret []
  | inr items => visit_all p dir currentDepth items
  end.

(** The handler registered under 'count-files'. *)
Definition handler (p : params) : Eff world Outcome :=
  try_catch
    (let! home := gets homedir in
     let targetPath := or_else (folderPath p) (path_join home "Desktop") in
     let! found := gets (fun w => tree w !! targetPath) in
     match found with
     | None => ret (error_outcome ("Error: Path does not exist: " +:+ targetPath))
     | Some listing =>
         if negb (truthy_bool (count_files p)) && negb (truthy_bool (count_folders p))
         then ret (error_outcome
                     "Error: You must choose to count files, folders, or both.")
         else
           let! items := listFilesRecursiveForCount targetPath listing p 0 in
           let fileCount := length (List.filter is_file items) in
           let folderCount := length (List.filter is_directory items) in
           let resultText :=
             "Analysis of '" +:+ targetPath +:+ "':\n" +:+
             (if truthy_bool (count_files p)
              then "- Files found: " +:+ pretty fileCount +:+ "\n" else "") +:+
             (if truthy_bool (count_folders p)
              then "- Folders found: " +:+ pretty folderCount +:+ "\n" else "") in
           ret (text_outcome (Text.trim resultText))
     end)
    (fun error =>
       ret (error_outcome
              ("An unexpected error occurred: " +:+ message_or_String error))).

(** [params.folderPath || path.join(os.homedir(), 'Desktop')]. *)
Definition targetPath (p : params) (w : world) : string :=
  or_else (folderPath p) (path_join (homedir w) "Desktop").

End Handler.

(** Paths joined with a slash; a pattern is looked for as a prefix of the
    name. *)
Definition sample_lib : Lib :=
  {| path_join := fun a b => a +:+ "/" +:+ b;
     regexp_test := fun pat name => inr (String.prefix pat name) |}.

(** A home directory with an empty Desktop. *)
Definition sample_world : world :=
  {| tree := {[ "/home/u/Desktop" := inr [] ]}; homedir := "/home/u";
     now := 1700000000000; warnings := [] |}.

(** A Desktop with two files, a hidden file, a socket, an entry that
    vanished, and a folder that holds a large file and a folder that cannot
    be read. *)
Definition sample_desktop : list Dirent :=
  let stats (s : Z) : thrown + Stats := inr {| size := s; mtime := 1699999000000 |} in
  [ FileEnt "a.txt" (stats 10%Z);
    FileEnt ".hidden" (stats 1%Z);
    DirEnt "sub" (stats 4096%Z)
      (inr [ FileEnt "b.bin" (stats 2000%Z);
             DirEnt "deep" (stats 4096%Z) (inl (ErrorObj "EACCES: permission denied")) ]);
    OtherEnt "sock" (stats 0%Z);
    FileEnt "gone" (inl (ErrorObj "ENOENT: no such file or directory")) ].

Definition busy_world : world :=
  {| tree := {[ "/home/u/Desktop" := inr sample_desktop ]}; homedir := "/home/u";
     now := 1700000000000; warnings := [] |}.

(** Files of at most 1 kB and all folders, recursively, on the Desktop. *)
Definition recursive_call : params :=
  {| folderPath := None; includeHidden := None;
     count_files := Some true; count_folders := Some true;
     recursive := Some true; pattern := None; max_depth := None;
     min_size_kb := None; max_size_kb := Some 1%Z; modified_since_days := None |}.


End CountFiles.

(* ===================================================================== *)
(** * tools/read-file.ts *)
(* ===================================================================== *)

Module ReadFile.
Import Async Outcome Js.

(** The library calls of the handler: the text of bytes in an encoding
    ([Buffer.toString] and [fs.readFile] throw on an encoding they do not
    know), [JSON.stringify(_, null, 2)] of the object [results], and the
    digits of a number in a template literal. *)
Class Lib := {
  decode : string -> string -> thrown + string;
  JSON_stringify : list (string * string) -> string;
  number_to_string : JsNum.number -> string
}.

(** What the file system holds under a path; the content is a string of
    bytes. *)
Inductive node :=
| RegularFile (bytes : string)
| Directory.

(** The file system, and the time the reads of one call take, in
    milliseconds. *)
Record world := mkWorld {
  fs : gmap string node;
  operation_ms : Q
}.

Record params := mkParams {
  filePaths : string;
  startLine : option Z;
  endLine : option Z;
  encoding : string;
  binary_mode : bool;
  max_bytes : option Z;
  timeout : option JsNum.number
}.

(** [s.split(' ')]. *)
Fixpoint split_on_space (s : string) : list string :=
  match s with
  | EmptyString => [EmptyString]
  | String a rest =>
      if Nat.eqb (Ascii.nat_of_ascii a) 32 then EmptyString :: split_on_space rest
      else
        match split_on_space rest with
        | [] => [String a EmptyString]
        | word :: words => String a word :: words
        end
  end.

(** [s.split(/\r?\n/)]. *)
Fixpoint split_lines (s : string) : list string :=
  match s with
  | EmptyString => [EmptyString]
  | String a rest =>
      let n := Ascii.nat_of_ascii a in
      if Nat.eqb n 10 then EmptyString :: split_lines rest
      else
        match rest with
        | String b rest' =>
            if Nat.eqb n 13 && Nat.eqb (Ascii.nat_of_ascii b) 10
            then EmptyString :: split_lines rest'
            else
              match split_lines rest with
              | [] => [String a EmptyString]
              | line :: lines => String a line :: lines
              end
        | EmptyString => [String a EmptyString]
        end
  end.

(** [lines.join('\n')]. *)
Fixpoint join_lines (lines : list string) : string :=
  match lines with
  | [] => EmptyString
  | [line] => line
  | line :: rest => line +:+ String (Ascii.ascii_of_nat 10) (join_lines rest)
  end.

(** An index of [slice], relative to the end when negative. *)
Definition slice_index (len k : Z) : Z :=
  if (k <? 0)%Z then Z.max (len + k) 0 else Z.min k len.

(** [array.slice(start, end)]. *)
Definition slice {A} (l : list A) (start stop : Z) : list A :=
  let len := Z.of_nat (length l) in
  let from := slice_index len start in
  let to := slice_index len stop in
  take (Z.to_nat (to - from)) (drop (Z.to_nat from) l).

Definition hex_digit (n : nat) : Ascii.ascii :=
  Ascii.ascii_of_nat (if Nat.ltb n 10 then 48 + n else 87 + n).

(** [buffer.toString('hex')]. *)
Fixpoint to_hex (bytes : string) : string :=
  match bytes with
  | EmptyString => EmptyString
  | String a rest =>
      let n := Ascii.nat_of_ascii a in
      String (hex_digit (n / 16)) (String (hex_digit (n mod 16)) (to_hex rest))
  end.

(** [results[key] = value]: a property that exists keeps its place. *)
Fixpoint assign (results : list (string * string)) (key value : string)
    : list (string * string) :=
  match results with
  | [] => [(key, value)]
  | (k, v) :: rest =>
      if String.eqb k key then (k, value) :: rest
      else (k, v) :: assign rest key value
  end.

(** [results[key]]. *)
Fixpoint property (results : list (string * string)) (key : string)
    : option string :=
  match results with
  | [] => None
  | (k, v) :: rest => if String.eqb k key then Some v else property rest key
  end.

Definition pathExists (path : string) : Eff world bool :=
  gets (fun w => bool_decide (is_Some (fs w !! path))).

(** [stats.size] of [fs.stat(path)]. *)
Definition stat_size (path : string) : Eff world Z :=
  fun w =>
    match fs w !! path with
    | Some (RegularFile bytes) => Return (Z.of_nat (String.length bytes)) w
    | Some Directory => Return 4096%Z w
    | None => Throw (ErrorObj ("ENOENT: no such file or directory, stat '"
                               +:+ path +:+ "'")) w
    end.

(** [fs.open], [fs.read] of at most [n] bytes from position 0, [fs.close]:
    the bytes read. *)
Definition read_prefix (path : string) (n : Z) : Eff world string :=
  fun w =>
    match fs w !! path with
    | Some (RegularFile bytes) =>
        Return (String.substring 0 (Z.to_nat n) bytes) w
    | Some Directory =>
        Throw (ErrorObj "EISDIR: illegal operation on a directory, read") w
    | None => Throw (ErrorObj ("ENOENT: no such file or directory, open '"
                               +:+ path +:+ "'")) w
    end.

(** The bytes of [fs.readFile(path)]. *)
Definition read_all (path : string) : Eff world string :=
  fun w =>
    match fs w !! path with
    | Some (RegularFile bytes) => Return bytes w
    | Some Directory =>
        Throw (ErrorObj "EISDIR: illegal operation on a directory, read") w
    | None => Throw (ErrorObj ("ENOENT: no such file or directory, open '"
                               +:+ path +:+ "'")) w
    end.

(** [Buffer.alloc(size)] throws a RangeError on a negative size. *)
Definition Buffer_alloc (size : Z) : Eff world unit :=
  if (size <? 0)%Z then
    throw (ErrorObj ("The value of size is out of range. Received " +:+ pretty size))
  else ret tt.

(** [n] zero bytes after the bytes read: the rest of [Buffer.alloc]. *)
Fixpoint zero_fill (n : nat) (bytes : string) : string :=
  match n, bytes with
  | O, _ => EmptyString
  | S n', EmptyString => String Ascii.zero (zero_fill n' EmptyString)
  | S n', String a rest => String a (zero_fill n' rest)
  end.

(** The delay [setTimeout] keeps: 1 for a delay that is not between 1 and
    2^31 - 1. *)
Definition timer_delay (ms : JsNum.number) : Q :=
  match ms with
  | JsNum.Finite q =>
      if Qle_bool 1 q && Qle_bool q 2147483647 then q else 1
  | _ => 1
  end.

(** [withTimeout(promise, timeoutMs, timeoutMessage)] around the reads of
    the call: the timer wins when its delay is shorter than the time the
    reads take. *)
Definition withTimeout {A} (promise : Eff world A) (timeoutMs : JsNum.number)
    (timeoutMessage : string) : Eff world A :=
  fun w =>
    if Qle_bool (operation_ms w) (timer_delay timeoutMs) then promise w
    else Throw (ErrorObj timeoutMessage) w.

Section Handler.
Context {lib : Lib}.

(** [`${startLine}`]. *)
Definition show_line (n : option Z) : string :=
  match n with
  | Some z => pretty z
  | None => "undefined"
  end.

(** The text mode, from the decoded content on. *)
Definition text_entry (p : params) (fileContent : string) : string :=
  let lines := split_lines fileContent in
  if truthy_int (startLine p) || truthy_int (endLine p) then
    let effectiveStartLine :=
      if truthy_int (startLine p) then (default 0 (startLine p) - 1)%Z else 0%Z in
    let effectiveEndLine :=
      if truthy_int (endLine p) then default 0%Z (endLine p)
      else Z.of_nat (length lines) in
    if (Z.of_nat (length lines) <=? effectiveStartLine)%Z then
      "Error: startLine " +:+ show_line (startLine p) +:+
      " is out of bounds. File only has " +:+ pretty (length lines) +:+ " lines."
    else join_lines (slice lines effectiveStartLine effectiveEndLine)
  else join_lines lines.

(** The body of the inner [try]: the value stored for [filePath]. *)
Definition read_entry (p : params) (filePath : string) : Eff world string :=
  if binary_mode p then
    let! size := stat_size filePath in
    let bytes_to_read :=
      if truthy_int (max_bytes p) then Z.min (default 0%Z (max_bytes p)) size
      else size in
    do! Buffer_alloc bytes_to_read in
    let! bytes := read_prefix filePath bytes_to_read in
    let buffer := zero_fill (Z.to_nat bytes_to_read) bytes in
    ret ("Read " +:+ pretty (String.length buffer) +:+ " bytes (hex): " +:+ to_hex buffer)
  else
    let! fileContent :=
      if truthy_int (max_bytes p) then
        do! Buffer_alloc (default 0%Z (max_bytes p)) in
        let! bytes := read_prefix filePath (default 0%Z (max_bytes p)) in
        lift_exc (decode (encoding p) bytes)
      else
        let! bytes := read_all filePath in
        lift_exc (decode (encoding p) bytes) in
    ret (text_entry p fileContent).

(** The loop of [operation] over the paths. *)
Fixpoint operation (p : params) (paths : list string)
    (results : list (string * string)) : Eff world (list (string * string)) :=
  match paths with
  | [] => ret results
  | filePath :: rest =>
      let! found := pathExists filePath in
      if negb found then
        operation p rest
          (assign results filePath ("Error: File not found at path: " +:+ filePath))
      else
        let! entry :=
          try_catch (read_entry p filePath)
            (fun fileError =>
               ret ("Error reading file: " +:+ message_any fileError)) in
        operation p rest (assign results filePath entry)
  end.

(** [filePaths.split(' ').filter(p => p)]. *)
Definition paths_of (p : params) : list string :=
  List.filter truthy_string (split_on_space (filePaths p)).

(** The handler registered under 'read-file'. *)
Definition handler (p : params) : Eff world Outcome :=
  try_catch
    (let timeoutMs := Timeout.normalizeTimeout1 (timeout p) in
     let paths := paths_of p in
     let! operationResults :=
       withTimeout (operation p paths []) timeoutMs
         ("File reading operation timed out after " +:+
          number_to_string timeoutMs +:+ "ms") in
     ret (text_outcome (JSON_stringify operationResults)))
    (fun error =>
       ret (error_outcome
              ("An unexpected error occurred: " +:+ message_or_String error))).

(** The reads end before the timer of the call fires. *)
Definition in_time (p : params) (w : world) : Prop :=
  Qle_bool (operation_ms w)
    (timer_delay (Timeout.normalizeTimeout1 (timeout p))) = true.


End Handler.

(** A library that knows utf-8 only and prints the object one property per
    line. *)
Definition sample_lib : Lib :=
  {| decode := fun enc bytes =>
       if String.eqb enc "utf-8" then inr bytes
       else inl (ErrorObj ("Unknown encoding: " +:+ enc));
     JSON_stringify := fun results =>
       foldr (fun kv acc => fst kv +:+ ": " +:+ snd kv +:+ "; " +:+ acc) "" results;
     number_to_string := fun n =>
       match n with
       | JsNum.Finite q => pretty (Qfloor q)
       | JsNum.NaN => "NaN"
       | JsNum.PosInfinity => "Infinity"
       | JsNum.NegInfinity => "-Infinity"
       end |}.

(** One file on the disk; the reads take 3 ms. *)
Definition sample_world : world :=
  {| fs := {[ "notes.txt" := RegularFile "hello" ]}; operation_ms := 3 |}.

(** The first three bytes of notes.txt, and a file that does not exist. *)
Definition two_files_call : params :=
  {| filePaths := "notes.txt  missing.txt"; startLine := None; endLine := None;
     encoding := "utf-8"; binary_mode := true; max_bytes := Some 3%Z;
     timeout := Some (JsNum.Finite 2) |}.


End ReadFile.

(* ===================================================================== *)
(** * The schema validator and the dispatcher *)
(* ===================================================================== *)

(** The sources hand the input schemas to the SDK ([server.registerTool])
    and never validate or dispatch themselves: the validator and the
    dispatcher below follow the specification, sections 3, 4.2 and 4.3. *)

Module Schema.
Import Async Outcome.

(** Modelled from the spec: a value of the raw arguments (section 3, an
    untyped mapping from field name to value); the SDK that receives them is
    not part of the sources. [VOther] stands for a value of no declared kind
    (null, an object, an array that holds other things than strings). *)
Inductive value :=
| VString (s : string)
| VNumber (q : Q)
| VBoolean (b : bool)
| VArray (items : list string)
| VBinary (bytes : string)
| VOther (printed : string).

(** Modelled from the spec: the field types of a schema (section 3); the
    schema declarations of the tools are zod objects, whose library is not
    part of the sources. *)
Inductive field_type :=
| TString
| TNumber
| TBoolean
| TEnum (members : list string)
| TArrayOfString
| TBinary.

(** Modelled from the spec: the constraints of a number field (section 3:
    optionally int, with min/max). *)
Record constraints := mkConstraints {
  int : bool;
  min : option Q;
  max : option Q
}.

Definition unconstrained : constraints :=
  {| int := false; min := None; max := None |}.

(** Modelled from the spec: the field descriptor
    [{type, required, default, constraints}] of section 3. *)
Record descriptor := mkDescriptor {
  type : field_type;
  required : bool;
  default_value : option value;
  field_constraints : constraints
}.

(** A schema: the declared fields, in the order of the declaration. *)
Definition schema := list (string * descriptor).

(** Modelled from the spec: what a validation failure reports as violated
    (sections 4.2 and 7); the validator of the SDK is not part of the
    sources. *)
Inductive violation :=
| MissingRequired
| WrongType
| NotAnInteger
| BelowMin (bound : Q)
| AboveMax (bound : Q)
| NotAMember (members : list string).

(** Modelled from the spec: the structured validation failure of section 3,
    a field name and the violated constraint. *)
Record failure := mkFailure {
  field : string;
  violated : violation
}.

Definition is_integer (q : Q) : bool := Qeq_bool q (inject_Z (Qfloor q)).

(** Modelled from the spec: the coercion of step 1 of section 4.2, which the
    SDK's validator performs; a value of another kind than the declared type
    is not coerced. *)
Definition has_type (t : field_type) (v : value) : bool :=
  match t, v with
  | TString, VString _ => true
  | TNumber, VNumber _ => true
  | TBoolean, VBoolean _ => true
  | TEnum _, VString _ => true
  | TArrayOfString, VArray _ => true
  | TBinary, VBinary _ => true
  | _, _ => false
  end.

Definition below (bound : option Q) (q : Q) : bool :=
  match bound with
  | Some m => negb (Qle_bool m q)
  | None => false
  end.

Definition above (bound : option Q) (q : Q) : bool :=
  match bound with
  | Some m => negb (Qle_bool q m)
  | None => false
  end.

(** Modelled from the spec: every constraint of the descriptor that a
    present value violates (section 4.2, steps 1 to 3; the validator of the
    SDK is not part of the sources): the type first, then the integrality
    and the range of a number, then the membership of an enum. *)
Definition value_violations (d : descriptor) (v : value) : list violation :=
  if negb (has_type (type d) v) then [WrongType]
  else
    match type d, v with
    | TNumber, VNumber q =>
        (if int (field_constraints d) && negb (is_integer q) then [NotAnInteger] else []) ++
        (if below (min (field_constraints d)) q
         then [BelowMin (default 0%Q (min (field_constraints d)))] else []) ++
        (if above (max (field_constraints d)) q
         then [AboveMax (default 0%Q (max (field_constraints d)))] else [])
    | TEnum members, VString s =>
        if bool_decide (s ∈ members) then [] else [NotAMember members]
    | _, _ => []
    end.

(** Modelled from the spec: every constraint that the raw arguments violate
    for one declared field (section 4.2; the validator of the SDK is not
    part of the sources). *)
Definition field_violations (name : string) (d : descriptor)
    (raw : option value) : list failure :=
  match raw with
  | Some v => mkFailure name <$> value_violations d v
  | None =>
      match default_value d with
      | Some _ => []
      | None => if required d then [mkFailure name MissingRequired] else []
      end
  end.

(** Modelled from the spec: every violation of the schema, field by field
    (section 4.2; the validator of the SDK is not part of the sources). *)
Definition all_violations (s : schema) (raw : gmap string value) : list failure :=
  flat_map (fun nd => field_violations nd.1 nd.2 (raw !! nd.1)) s.

(** Modelled from the spec: steps 1 to 3 of section 4.2 for one declared
    field; the sources leave validation to the SDK and zod, which are not
    part of them. A present value is coerced to the declared type, then checked
    against the range of a number field and the members of an enum field;
    an absent one takes the default, fails when the field is required, and
    stays absent otherwise. *)
Definition validate_field (name : string) (d : descriptor) (raw : option value)
    : failure + option value :=
  match raw with
  | Some v =>
      if negb (has_type (type d) v) then inl (mkFailure name WrongType)
      else
        match type d, v with
        | TNumber, VNumber q =>
            if int (field_constraints d) && negb (is_integer q)
            then inl (mkFailure name NotAnInteger)
            else if below (min (field_constraints d)) q
            then inl (mkFailure name (BelowMin (default 0%Q (min (field_constraints d)))))
            else if above (max (field_constraints d)) q
            then inl (mkFailure name (AboveMax (default 0%Q (max (field_constraints d)))))
            else inr (Some v)
        | TEnum members, VString s =>
            if bool_decide (s ∈ members) then inr (Some v)
            else inl (mkFailure name (NotAMember members))
        | _, _ => inr (Some v)
        end
  | None =>
      match default_value d with
      | Some dv => inr (Some dv)
      | None =>
          if required d then inl (mkFailure name MissingRequired)
          else inr None
      end
  end.

(** Modelled from the spec: steps 4 and 5 of section 4.2, missing from the
    sources like the rest of the validator. The declared
    fields are visited in order and the first failure is returned; the
    fields of the raw arguments that the schema does not declare pass
    through. *)
Fixpoint validate_fields (fields : schema) (raw acc : gmap string value)
    : failure + gmap string value :=
  match fields with
  | [] => inr acc
  | (name, d) :: rest =>
      match validate_field name d (raw !! name) with
      | inl f => inl f
      | inr (Some v) => validate_fields rest raw (<[name := v]> acc)
      | inr None => validate_fields rest raw acc
      end
  end.

(** Modelled from the spec: the schema validator of section 4.2, which the
    sources leave to the SDK and zod. *)
Definition validate (s : schema) (rawArguments : gmap string value)
    : failure + gmap string value :=
  validate_fields s rawArguments rawArguments.

(** The value lies strictly outside the declared range [[min, max]]. *)
Definition out_of_range (d : descriptor) (q : Q) : Prop :=
  (exists lo, min (field_constraints d) = Some lo /\ (q < lo)%Q) \/
  (exists hi, max (field_constraints d) = Some hi /\ (hi < q)%Q).

(** The value is one of the declared bounds, and the bounds are in order. *)
Definition on_boundary (d : descriptor) (q : Q) : Prop :=
  (min (field_constraints d) = Some q \/ max (field_constraints d) = Some q) /\
  (forall lo hi, min (field_constraints d) = Some lo ->
                 max (field_constraints d) = Some hi -> (lo <= hi)%Q).

Definition violation_text (v : violation) : string :=
  match v with
  | MissingRequired => "missing required field"
  | WrongType => "wrong type for field"
  | NotAnInteger => "not an integer"
  | BelowMin _ => "below the minimum of field"
  | AboveMax _ => "above the maximum of field"
  | NotAMember _ => "not a member of the enum of field"
  end.

(** The text of a failure: "missing required field: <name>" and the like. *)
Definition failure_text (f : failure) : string :=
  violation_text (violated f) +:+ ": " +:+ field f.

Section Dispatch.
(** The world of the handlers. *)
Context {W : Type}.

(** Modelled from the spec: the ToolDefinition of section 3; the registry
    that holds it belongs to the SDK, which is not part of the sources. *)
Record ToolDefinition := mkTool {
  name : string;
  input_schema : schema;
  tool_handler : gmap string value -> Eff W Outcome
}.

(** Modelled from the spec: the state of the dispatcher of section 4.3,
    which belongs to the SDK: the world of the handlers, and the handler
    calls made so far, each with the arguments the handler was given. *)
Record dispatch_state := mkDispatchState {
  world : W;
  calls : list (string * gmap string value)
}.

(** Modelled from the spec: the handler call of the dispatcher (section
    4.3), which belongs to the SDK: the handler of the tool runs on the
    world and the call is recorded. *)
Definition invoke (t : ToolDefinition) (args : gmap string value)
    : Eff dispatch_state Outcome :=
  fun st =>
    let calls' := calls st ++ [(name t, args)] in
    match tool_handler t args (world st) with
    | Return o w' => Return o {| world := w'; calls := calls' |}
    | Throw e w' => Throw e {| world := w'; calls := calls' |}
    end.

(** Modelled from the spec: the dispatcher of section 4.3, which belongs to
    the SDK and is not part of the sources. An unknown name
    and a validation failure produce an error Outcome and no handler call;
    a handler that throws is turned into an error Outcome that carries the
    message. *)
Definition dispatch (registry : gmap string ToolDefinition) (toolName : string)
    (rawArguments : gmap string value) : Eff dispatch_state Outcome :=
  match registry !! toolName with
  | None => ret (error_outcome ("Unknown tool: " +:+ toolName))
  | Some t =>
      match validate (input_schema t) rawArguments with
      | inl f => ret (error_outcome (failure_text f))
      | inr args =>
          try_catch (invoke t args)
            (fun error => ret (error_outcome (message_or_String error)))
      end
  end.

End Dispatch.
Arguments ToolDefinition : clear implicits.
Arguments dispatch_state : clear implicits.

End Schema.

(* ===================================================================== *)
(** * The input schemas of the tools *)
(* ===================================================================== *)

Module Tools.
Import Async Outcome Schema.

(** [z.string()], [z.number()], [z.boolean()]: a required field. *)
Definition z_required (t : field_type) : descriptor :=
  {| type := t; required := true; default_value := None;
     field_constraints := unconstrained |}.

(** [.optional()]. *)
Definition z_optional (d : descriptor) : descriptor :=
  {| type := type d; required := false; default_value := default_value d;
     field_constraints := field_constraints d |}.

(** [.default(v)]. *)
Definition z_default (v : value) (d : descriptor) : descriptor :=
  {| type := type d; required := required d; default_value := Some v;
     field_constraints := field_constraints d |}.

(** [.int()]. *)
Definition z_int (d : descriptor) : descriptor :=
  {| type := type d; required := required d; default_value := default_value d;
     field_constraints :=
       {| int := true; min := min (field_constraints d);
          max := max (field_constraints d) |} |}.

(** [.min(m)]. *)
Definition z_min (m : Q) (d : descriptor) : descriptor :=
  {| type := type d; required := required d; default_value := default_value d;
     field_constraints :=
       {| int := int (field_constraints d); min := Some m;
          max := max (field_constraints d) |} |}.

(** [.max(m)]. *)
Definition z_max (m : Q) (d : descriptor) : descriptor :=
  {| type := type d; required := required d; default_value := default_value d;
     field_constraints :=
       {| int := int (field_constraints d); min := min (field_constraints d);
          max := Some m |} |}.

(** The [inputSchema] of count-files. *)
Definition count_files_schema : schema :=
  [ ("folderPath", z_optional (z_required TString));
    ("count_files", z_default (VBoolean true) (z_optional (z_required TBoolean)));
    ("count_folders", z_default (VBoolean false) (z_optional (z_required TBoolean)));
    ("recursive", z_default (VBoolean false) (z_optional (z_required TBoolean)));
    ("pattern", z_optional (z_required TString));
    ("max_depth", z_optional (z_min 0 (z_int (z_required TNumber))));
    ("min_size_kb", z_optional (z_min 0 (z_int (z_required TNumber))));
    ("max_size_kb", z_optional (z_min 0 (z_int (z_required TNumber))));
    ("modified_since_days", z_optional (z_min 0 (z_int (z_required TNumber)))) ].

(** The [inputSchema] of read-file. *)
Definition read_file_schema : schema :=
  [ ("filePaths", z_required TString);
    ("startLine", z_optional (z_min 1 (z_int (z_required TNumber))));
    ("endLine", z_optional (z_min 1 (z_int (z_required TNumber))));
    ("encoding", z_default (VString "utf-8") (z_optional (z_required TString)));
    ("binary_mode", z_default (VBoolean false) (z_optional (z_required TBoolean)));
    ("max_bytes", z_optional (z_min 1 (z_int (z_required TNumber))));
    ("timeout", z_optional (z_required TNumber)) ].

(** The [inputSchema] of ping-tool. *)
Definition ping_schema : schema :=
  [ ("target", z_required TString);
    ("count", z_optional (z_required TString));
    ("timeout", z_optional (z_required TString));
    ("output_path", z_optional (z_required TString)) ].

(** The properties of the argument object, as the handlers read them. *)
Definition get_string (args : gmap string value) (k : string) : option string :=
  match args !! k with
  | Some (VString s) => Some s
  | _ => None
  end.

Definition get_bool (args : gmap string value) (k : string) : option bool :=
  match args !! k with
  | Some (VBoolean b) => Some b
  | _ => None
  end.

Definition get_int (args : gmap string value) (k : string) : option Z :=
  match args !! k with
  | Some (VNumber q) => Some (Qfloor q)
  | _ => None
  end.

Definition get_number (args : gmap string value) (k : string)
    : option JsNum.number :=
  match args !! k with
  | Some (VNumber q) => Some (JsNum.Finite q)
  | _ => None
  end.

Definition count_files_params (args : gmap string value) : CountFiles.params :=
  {| CountFiles.folderPath := get_string args "folderPath";
     CountFiles.includeHidden := get_bool args "includeHidden";
     CountFiles.count_files := get_bool args "count_files";
     CountFiles.count_folders := get_bool args "count_folders";
     CountFiles.recursive := get_bool args "recursive";
     CountFiles.pattern := get_string args "pattern";
     CountFiles.max_depth := get_int args "max_depth";
     CountFiles.min_size_kb := get_int args "min_size_kb";
     CountFiles.max_size_kb := get_int args "max_size_kb";
     CountFiles.modified_since_days := get_int args "modified_since_days" |}.

Definition read_file_params (args : gmap string value) : ReadFile.params :=
  {| ReadFile.filePaths := default "" (get_string args "filePaths");
     ReadFile.startLine := get_int args "startLine";
     ReadFile.endLine := get_int args "endLine";
     ReadFile.encoding := default "utf-8" (get_string args "encoding");
     ReadFile.binary_mode := default false (get_bool args "binary_mode");
     ReadFile.max_bytes := get_int args "max_bytes";
     ReadFile.timeout := get_number args "timeout" |}.

Definition ping_params (args : gmap string value) : PingTool.params :=
  {| PingTool.target := default "" (get_string args "target");
     PingTool.count := get_string args "count";
     PingTool.timeout := get_string args "timeout";
     PingTool.output_path := get_string args "output_path" |}.

(** The three registrations. *)
Definition count_files_tool {lib : CountFiles.Lib} : ToolDefinition CountFiles.world :=
  {| name := "count-files"; input_schema := count_files_schema;
     tool_handler := fun args => CountFiles.handler (count_files_params args) |}.

Definition read_file_tool {lib : ReadFile.Lib} : ToolDefinition ReadFile.world :=
  {| name := "read-file"; input_schema := read_file_schema;
     tool_handler := fun args => ReadFile.handler (read_file_params args) |}.

Definition ping_tool {lib : PingTool.Lib} : ToolDefinition PingTool.world :=
  {| name := "ping-tool"; input_schema := ping_schema;
     tool_handler := fun args => PingTool.handler (ping_params args) |}.

(** The schema of the scenario of section 8:
    [{count: {type: number, default: 4}}]. *)
Definition count_schema : schema :=
  [ ("count", z_default (VNumber 4) (z_optional (z_required TNumber))) ].

(** A tool with that schema, whose handler answers with a fixed text. *)
Definition count_tool : ToolDefinition unit :=
  {| name := "repeat"; input_schema := count_schema;
     tool_handler := fun _ => ret (text_outcome "done") |}.

(** A schema with two fields, and arguments that violate both. *)
Definition mode_and_level_schema : schema :=
  [ ("mode", z_required (TEnum ["a"; "b"]));
    ("level", z_max 5 (z_min 1 (z_required TNumber))) ].

Definition wrong_mode_and_level : gmap string value :=
  {[ "mode" := VString "c"; "level" := VNumber 9 ]}.

(** A registry that holds that tool only, before any call. *)
Definition count_registry : gmap string (ToolDefinition unit) :=
  {[ "repeat" := count_tool ]}.

Definition count_start : dispatch_state unit :=
  {| world := tt; calls := [] |}.

(** The descriptor of [max_depth] in count-files. *)
Definition max_depth_descriptor : descriptor :=
  z_optional (z_min 0 (z_int (z_required TNumber))).

(** A registry that holds count-files only, before any call. *)
Definition count_files_registry : gmap string (ToolDefinition CountFiles.world) :=
  {[ "count-files" := count_files_tool (lib := CountFiles.sample_lib) ]}.

Definition count_files_start : dispatch_state CountFiles.world :=
  {| world := CountFiles.sample_world; calls := [] |}.

End Tools.


(* ===================================================================== *)
(** * Notions used to state further properties of read-file *)
(* ===================================================================== *)

Module ReadFileText.

(** The string holds the character of code [n]. *)
Fixpoint contains_code (n : nat) (s : string) : bool :=
  match s with
  | EmptyString => false
  | String a rest => Nat.eqb (Ascii.nat_of_ascii a) n || contains_code n rest
  end.

(** The text with every carriage return that stands before a line feed
    removed. *)
Fixpoint normalize_newlines (s : string) : string :=
  match s with
  | EmptyString => EmptyString
  | String a rest =>
      match rest with
      | String b rest' =>
          if Nat.eqb (Ascii.nat_of_ascii a) 13 && Nat.eqb (Ascii.nat_of_ascii b) 10
          then String b (normalize_newlines rest')
          else String a (normalize_newlines rest)
      | EmptyString => String a EmptyString
      end
  end.

(** A text of three lines, the first ended by CR LF, and a call that asks
    for lines 2 to 3. *)
Definition three_lines : string :=
  "alpha" +:+ String (Ascii.ascii_of_nat 13) (String (Ascii.ascii_of_nat 10)
    ("beta" +:+ String (Ascii.ascii_of_nat 10) "gamma")).

Definition whole_file_call : ReadFile.params :=
  {| ReadFile.filePaths := "notes.txt"; ReadFile.startLine := None;
     ReadFile.endLine := None; ReadFile.encoding := "utf-8";
     ReadFile.binary_mode := false; ReadFile.max_bytes := None;
     ReadFile.timeout := None |}.

Definition lines_2_to_3_call : ReadFile.params :=
  {| ReadFile.filePaths := "notes.txt"; ReadFile.startLine := Some 2%Z;
     ReadFile.endLine := Some 3%Z; ReadFile.encoding := "utf-8";
     ReadFile.binary_mode := false; ReadFile.max_bytes := None;
     ReadFile.timeout := None |}.

(** The first three bytes of each file, in binary mode. *)
Definition three_bytes_call : ReadFile.params :=
  {| ReadFile.filePaths := "notes.txt notes.txt"; ReadFile.startLine := None;
     ReadFile.endLine := None; ReadFile.encoding := "utf-8";
     ReadFile.binary_mode := true; ReadFile.max_bytes := Some 3%Z;
     ReadFile.timeout := None |}.

End ReadFileText.

(* ===================================================================== *)
(** * Notions used to state further properties of todo-list-tool *)
(* ===================================================================== *)

Module TodoStore.
Import Async TodoListTool.

(** The world once [content] was written to the store. *)
Definition write_store (w : world) (content : string) : world :=
  {| fs := <[TODO_FILE_PATH := RegularFile content]> (fs w);
     write_error := write_error w |}.






(** The task that add_task appends to a project. *)
Definition new_task (p : params) (project : Project) : Task :=
  {| id := Z.of_nat (length (tasks project)) + 1;
     text := default "" (task p);
     priority := Js.or_else (param_priority p) "medium";
     due_date := param_due_date p;
     completed := false |}.

(** A store with the project garden, current, and its two tasks. *)
Definition garden : TodoData :=
  {| projects :=
       [ {| name := "garden";
            tasks := [ {| id := 1; text := "dig"; priority := "medium";
                          due_date := None; completed := false |};
                       {| id := 2; text := "sow"; priority := "high";
                          due_date := None; completed := false |} ] |} ];
     current_project := Some "garden" |}.

(** The same store once the first task was removed. *)
Definition garden_without_dig : TodoData :=
  {| projects :=
       [ {| name := "garden";
            tasks := [ {| id := 2; text := "sow"; priority := "high";
                          due_date := None; completed := false |} ] |} ];
     current_project := Some "garden" |}.

(** A library that writes the number of tasks of the first project and
    reads the two texts it knows; [parseInt] reads one digit. *)
Definition garden_lib : Lib :=
  {| JSON_parse := fun s =>
       if String.eqb s "garden: 2 tasks" then inr garden
       else if String.eqb s "garden: 1 tasks" then inr garden_without_dig
       else inl (ErrorObj "Unexpected token");
     JSON_stringify_data := fun d =>
       match projects d with
       | p :: _ => name p +:+ ": " +:+ pretty (length (tasks p)) +:+ " tasks"
       | [] => "{}"
       end;
     JSON_stringify_tasks := fun ts => pretty (length ts) +:+ " tasks";
     JSON_stringify_names := fun ns => pretty (length ns) +:+ " projects";
     parseInt := fun s =>
       if String.eqb s "1" then Some 1%Z
       else if String.eqb s "2" then Some 2%Z
       else None |}.

Definition garden_world : world :=
  {| fs := {[ TODO_FILE_PATH := RegularFile "garden: 2 tasks" ]};
     write_error := None |}.

Definition add_task_call : params :=
  {| operation := "add_task"; project_name := None; task := Some "water";
     task_id := None; param_priority := None; param_due_date := None |}.

Definition remove_task_call (task_id : string) : params :=
  {| operation := "remove_task"; project_name := None; task := None;
     task_id := Some task_id; param_priority := None; param_due_date := None |}.

End TodoStore.

(* ===================================================================== *)
(** * A further call of watch-file-changes *)
(* ===================================================================== *)

Module WatchSamples.
Import WatchFileChanges.

(** A start on /srv/b, which exists and is not watched. *)
Definition start_b : params :=
  {| action := "start"; target_path := "b"; command := Some "make test";
     recursive := Some true |}.

End WatchSamples.

(* ===================================================================== *)
(** * tools/list-files.ts *)
(* ===================================================================== *)

Module ListFiles.
Import Async Outcome Js.
Import CountFiles (Dirent, FileEnt, DirEnt, OtherEnt, ent_name, ent_stat,
  Stats, size, mtime, FileDetails, path, type, details_size, modified_date,
  file, directory, console_warn, String_of, tree, homedir, now, warnings).

(** The library calls of the handler, beside those of the walk:
    [JSON.stringify(_, null, 2)] of the listed items, [toISOString] of a
    date, [toFixed(2)] of a number of kilobytes, and the digits of a number
    in a template literal. *)
Class Lib := {
  walk_lib :: CountFiles.Lib;
  JSON_stringify : list (FileDetails * string) -> string;
  toISOString : Z -> string;
  toFixed2 : Q -> string;
  number_to_string : JsNum.number -> string
}.

(** The argument object of the handler. *)
Record params := mkParams {
  folderPath : option string;
  includeHidden : option bool;
  include_folders : option bool;
  recursive : option bool;
  pattern : option string;
  max_depth : option Z;
  min_size_kb : option Z;
  max_size_kb : option Z;
  modified_since_days : option Z;
  sort_by : option string;
  sort_order : option string;
  output_format : option string;
  timeout : option JsNum.number
}.

(** The file system of the walk, and the time the listing takes, in
    milliseconds. *)
Record world := mkWorld {
  disk : CountFiles.world;
  operation_ms : Q
}.

(** A computation on the file system, run in the world of the handler. *)
Definition on_disk {A} (m : Eff CountFiles.world A) : Eff world A :=
  fun w =>
    match m (disk w) with
    | Return a d => Return a {| disk := d; operation_ms := operation_ms w |}
    | Throw e d => Throw e {| disk := d; operation_ms := operation_ms w |}
    end.

Section Handler.
Context {lib : Lib}.

Definition too_old (p : params) (w_now : Z) (stats : Stats) : bool :=
  match modified_since_days p with
  | Some days => (mtime stats <? w_now - days * 86400000)%Z
  | None => false
  end.

Definition too_small (p : params) (stats : Stats) : bool :=
  match min_size_kb p with
  | Some kb => (size stats <? kb * 1024)%Z
  | None => false
  end.

Definition too_large (p : params) (stats : Stats) : bool :=
  match max_size_kb p with
  | Some kb => (kb * 1024 <? size stats)%Z
  | None => false
  end.

Definition descends (p : params) (currentDepth : Z) : bool :=
  truthy_bool (recursive p) &&
  match max_depth p with
  | None => true
  | Some d => (currentDepth <? d)%Z
  end.

Definition rejected_by_pattern (p : params) (name : string)
    : Eff CountFiles.world bool :=
  match pattern p with
  | Some pat =>
      if truthy_string pat then
        let! matched := lift_exc (CountFiles.regexp_test pat name) in
        ret (negb matched)
      else ret false
  | None => ret false
  end.

(** One turn of the loop of [listFilesRecursive] over the entries of
    [dir]: what the turn adds to [results]. *)
Fixpoint visit (p : params) (dir : string) (currentDepth : Z) (item : Dirent)
    {struct item} : Eff CountFiles.world (list FileDetails) :=
  let itemPath := CountFiles.path_join dir (ent_name item) in
  if negb (truthy_bool (includeHidden p)) && Text.starts_with_dot (ent_name item)
  then ret []
  else
    let! skip := rejected_by_pattern p (ent_name item) in
    if skip then ret []
    else
      let could_not_stat (err : thrown) : Eff CountFiles.world unit :=
        console_warn ("Could not stat item " +:+ itemPath +:+ ": " +:+ String_of err) in
      try_catch
        (let! stats := lift_exc (ent_stat item) in
         let! w_now := gets now in
         if too_old p w_now stats then ret []
         else
           match item with
           | DirEnt _ _ listing =>
               let pushed :=
                 if truthy_bool (include_folders p) then
                   [{| path := itemPath; type := directory;
                       details_size := size stats; modified_date := mtime stats |}]
                 else [] in
               if descends p currentDepth then
                 try_catch
                   (let! below :=
                      match listing with
                      | inl err =>
                          do! console_warn ("Could not read directory " +:+ itemPath
                                            +:+ ": " +:+ String_of err) in
                          ret []
                      | inr items =>
                          (fix loop (items : list Dirent)
                             : Eff CountFiles.world (list FileDetails) :=
                             match items with
                             | [] => ret []
                             | it :: rest =>
                                 let! added := visit p itemPath (currentDepth + 1) it in
                                 let! more := loop rest in
                                 ret (added ++ more)
                             end) items
                      end in
                    ret (pushed ++ below))
                   (fun err => do! could_not_stat err in ret pushed)
               else ret pushed
           | FileEnt _ _ =>
               if too_small p stats then ret []
               else if too_large p stats then ret []
               else
                 ret [{| path := itemPath; type := file;
                         details_size := size stats; modified_date := mtime stats |}]
           | OtherEnt _ _ => ret []
           end)
        (fun err => do! could_not_stat err in ret []).

Fixpoint visit_all (p : params) (dir : string) (currentDepth : Z)
    (items : list Dirent) : Eff CountFiles.world (list FileDetails) :=
  match items with
  | [] => ret []
  | it :: rest =>
      let! added := visit p dir currentDepth it in
      let! more := visit_all p dir currentDepth rest in
      ret (added ++ more)
  end.

(** [listFilesRecursive(dir, params, currentDepth)], given what
    [fs.readdir(dir)] answers. *)
Definition listFilesRecursive (dir : string) (listing : thrown + list Dirent)
    (p : params) (currentDepth : Z) : Eff CountFiles.world (list FileDetails) :=
  match listing with
  | inl err =>
      do! console_warn ("Could not read directory " +:+ dir +:+ ": " +:+ String_of err) in
      ret []
  | inr items => visit_all p dir currentDepth items
  end.

Definition type_name (t : CountFiles.details_type) : string :=
  match t with
  | file => "file"
  | directory => "directory"
  end.

(** The comparator of [files.sort]: the fields compared with [>] and [<],
    the outcome negated for 'desc'. A [sortBy] that is no field of the
    items compares undefined with undefined. *)
Definition compare_field (sortBy : string) (a b : FileDetails) : comparison :=
  if String.eqb sortBy "modified_date" then Z.compare (modified_date a) (modified_date b)
  else if String.eqb sortBy "size" then Z.compare (details_size a) (details_size b)
  else if String.eqb sortBy "path" then String.compare (path a) (path b)
  else if String.eqb sortBy "type" then
    String.compare (type_name (type a)) (type_name (type b))
  else Eq.

Definition comparator (sortBy : string) (sort_order : option string)
    (a b : FileDetails) : comparison :=
  if bool_decide (sort_order = Some "desc") then CompOpp (compare_field sortBy a b)
  else compare_field sortBy a b.

(** The items whose sort field has the value it has in [x]. *)
Definition same_key (sortBy : string) (x f : FileDetails) : bool :=
  match compare_field sortBy f x with
  | Eq => true
  | _ => false
  end.

(** [array.sort(compare)]: the sort is stable, an element goes before the
    first one it does not compare greater than. *)
Fixpoint sort_insert {A} (compare : A -> A -> comparison) (x : A) (sorted : list A)
    : list A :=
  match sorted with
  | [] => [x]
  | y :: rest =>
      match compare x y with
      | Gt => y :: sort_insert compare x rest
      | _ => x :: sorted
      end
  end.

Definition sort {A} (compare : A -> A -> comparison) (l : list A) : list A :=
  foldr (sort_insert compare) [] l.

(** [s.padStart(n)], with spaces. *)
Definition padStart (n : nat) (s : string) : string :=
  String.concat "" (replicate (n - String.length s) " ") +:+ s.

(** [separator.join]. *)
Definition join (separator : string) (l : list string) : string :=
  String.concat separator l.

(** One line of the detailed list. *)
Definition detailed_line (f : FileDetails) : string :=
  (match type f with directory => "D" | file => "F" end) +:+ " | " +:+
  padStart 8 (toFixed2 (inject_Z (details_size f) / 1024)) +:+ " KB | " +:+
  String.substring 0 10 (toISOString (modified_date f)) +:+ " | " +:+
  path f.

(** The body of [operation]. *)
Definition operation (p : params) (targetPath : string)
    (listing : thrown + list Dirent) : Eff CountFiles.world (list FileDetails) :=
  let! files := listFilesRecursive targetPath listing p 0 in
  match sort_by p with
  | Some sortBy =>
      if truthy_string sortBy then ret (sort (comparator sortBy (sort_order p)) files)
      else ret files
  | None => ret files
  end.

(** [withTimeout(promise, timeoutMs, timeoutMessage)] around the listing:
    the timer wins when its delay is shorter than the time the listing
    takes; the listing goes on all the same. *)
Definition withTimeout {A} (promise : Eff world A) (timeoutMs : JsNum.number)
    (timeoutMessage : string) : Eff world A :=
  fun w =>
    match promise w with
    | Return a w' =>
        if Qle_bool (operation_ms w) (ReadFile.timer_delay timeoutMs)
        then Return a w'
        else Throw (ErrorObj timeoutMessage) w'
    | Throw e w' =>
        if Qle_bool (operation_ms w) (ReadFile.timer_delay timeoutMs)
        then Throw e w'
        else Throw (ErrorObj timeoutMessage) w'
    end.

(** The text of the Outcome, by [output_format]. *)
Definition format_output (p : params) (files : list FileDetails) : string :=
  match output_format p with
  | Some "json" =>
      JSON_stringify ((fun f => (f, toISOString (modified_date f))) <$> files)
  | Some "detailed_list" =>
      "Type | Size (KB) | Modified   | Path\n" +:+
      String.concat "" (replicate 60 "-") +:+ "\n" +:+
      join "\n" (detailed_line <$> files)
  | _ => "Found items:\n" +:+ join "\n" (path <$> files)
  end.

(** The handler registered under 'list-files'. *)
Definition handler (p : params) : Eff world Outcome :=
  try_catch
    (let timeoutMs := Timeout.normalizeTimeout1 (timeout p) in
     let! home := gets (fun w => homedir (disk w)) in
     let targetPath := or_else (folderPath p) (CountFiles.path_join home "Desktop") in
     let! found := gets (fun w => tree (disk w) !! targetPath) in
     match found with
     | None => ret (error_outcome ("Error: Path does not exist: " +:+ targetPath))
     | Some listing =>
         let! files :=
           withTimeout (on_disk (operation p targetPath listing)) timeoutMs
             ("File listing operation timed out after " +:+
              number_to_string timeoutMs +:+ "ms") in
         ret (text_outcome (format_output p files))
     end)
    (fun error =>
       ret (error_outcome
              ("An unexpected error occurred: " +:+ message_or_String error))).

(** The arguments of count-files that ask for the same walk: files are
    always counted, folders when they are listed. *)
Definition as_count_params (p : params) : CountFiles.params :=
  {| CountFiles.folderPath := folderPath p;
     CountFiles.includeHidden := includeHidden p;
     CountFiles.count_files := Some true;
     CountFiles.count_folders := include_folders p;
     CountFiles.recursive := recursive p;
     CountFiles.pattern := pattern p;
     CountFiles.max_depth := max_depth p;
     CountFiles.min_size_kb := min_size_kb p;
     CountFiles.max_size_kb := max_size_kb p;
     CountFiles.modified_since_days := modified_since_days p |}.

End Handler.

End ListFiles.

(** * The walk of count-files and list-files, seen from the tree *)

Module Walk.
Import Async Js CountFiles.

(** The world after further lines of [console.warn]. *)
Definition warned (w : world) (lines : list string) : world :=
  {| tree := tree w; homedir := homedir w; now := now w;
     warnings := warnings w ++ lines |}.

(** A computation that resolves and leaves the world as it was, up to
    lines of [console.warn]. *)
Definition only_warns {A} (m : Eff world A) : Prop :=
  forall w, exists a lines, m w = Return a (warned w lines).

(** A computation that resolves or throws, and leaves the world as it was
    up to lines of [console.warn]. *)
Definition warns_or_throws {A} (m : Eff world A) : Prop :=
  forall w, exists lines,
    (exists a, m w = Return a (warned w lines)) \/
    (exists e, m w = Throw e (warned w lines)).

(** [!params.includeHidden && item.name.startsWith('.')]. *)
Definition skipped_as_hidden (p : params) (item : Dirent) : bool :=
  negb (truthy_bool (includeHidden p)) && Text.starts_with_dot (ent_name item).

(** The entries of a directory without those skipped as hidden, at every
    level below as well. *)
Fixpoint without_hidden (p : params) (d : Dirent) {struct d} : Dirent :=
  match d with
  | DirEnt n s (inr items) =>
      DirEnt n s
        (inr ((fix keep (items : list Dirent) : list Dirent :=
                 match items with
                 | [] => []
                 | it :: rest =>
                     if skipped_as_hidden p it then keep rest
                     else without_hidden p it :: keep rest
                 end) items))
  | _ => d
  end.

Fixpoint without_hidden_all (p : params) (items : list Dirent) : list Dirent :=
  match items with
  | [] => []
  | it :: rest =>
      if skipped_as_hidden p it then without_hidden_all p rest
      else without_hidden p it :: without_hidden_all p rest
  end.

(** A directory entry cut [levels] levels down: a directory at the last
    level is left empty. *)
Fixpoint cut (levels : nat) (d : Dirent) {struct levels} : Dirent :=
  match d with
  | DirEnt n s listing =>
      match levels with
      | O => DirEnt n s (inr [])
      | S k =>
          DirEnt n s
            (match listing with
             | inl e => inl e
             | inr items => inr (cut k <$> items)
             end)
      end
  | _ => d
  end.

(** The parameters with [max_depth] left out. *)
Definition without_max_depth (p : params) : params :=
  {| folderPath := folderPath p; includeHidden := includeHidden p;
     count_files := count_files p; count_folders := count_folders p;
     recursive := recursive p; pattern := pattern p; max_depth := None;
     min_size_kb := min_size_kb p; max_size_kb := max_size_kb p;
     modified_since_days := modified_since_days p |}.

(** The text of a successful count. *)
Definition analysis {lib : Lib} (p : params) (w : world)
    (fileCount folderCount : nat) : string :=
  Text.trim
    ("Analysis of '" +:+ targetPath p w +:+ "':\n" +:+
     (if truthy_bool (count_files p)
      then "- Files found: " +:+ pretty fileCount +:+ "\n" else "") +:+
     (if truthy_bool (count_folders p)
      then "- Folders found: " +:+ pretty folderCount +:+ "\n" else "")).

(** A pattern that [new RegExp] refuses, on a Desktop that holds only a
    hidden file, and on the Desktop of [busy_world]. *)
Definition strict_lib : Lib :=
  {| path_join := fun a b => a +:+ "/" +:+ b;
     regexp_test := fun pat name =>
       if String.eqb pat "(" then
         inl (ErrorObj "Invalid regular expression: /(/: Unterminated group")
       else inr (String.prefix pat name) |}.

Definition hidden_only_world : world :=
  {| tree := {[ "/home/u/Desktop" :=
                  inr [FileEnt ".hidden" (inr {| size := 1; mtime := 1699999000000 |})] ]};
     homedir := "/home/u"; now := 1700000000000; warnings := [] |}.

Definition bad_pattern_call : params :=
  {| folderPath := None; includeHidden := None;
     count_files := Some true; count_folders := Some false;
     recursive := Some false; pattern := Some "("; max_depth := None;
     min_size_kb := None; max_size_kb := None; modified_since_days := None |}.

End Walk.

Module WalkSamples.
Import CountFiles.

(** Files and folders of the Desktop, one level down at most. *)
Definition one_level_call : params :=
  {| folderPath := None; includeHidden := None;
     count_files := Some true; count_folders := Some true;
     recursive := Some true; pattern := None; max_depth := Some 1%Z;
     min_size_kb := None; max_size_kb := None; modified_since_days := None |}.

End WalkSamples.

(** * tools/create-dir.ts *)

Module CreateDir.
Import Async Outcome Js.

(** What a path of the file system holds. *)
Inductive node := FileNode | DirNode.

(** [`${timeoutMs}`]. *)
Class Lib := { number_to_string : JsNum.number -> string }.

(** The arguments of the handler. *)
Record params := mkParams {
  dirPath : string;
  timeout : option JsNum.number
}.

(** The paths that exist; what [fs.ensureDir] meets on a path: an error, or
    the ancestors of the path that are missing and are made with it; and
    the time the operation takes, in milliseconds. *)
Record world := mkWorld {
  tree : gmap string node;
  mkdirs : string -> thrown + list string;
  operation_ms : Q
}.

(** [fs.pathExists(path)]. *)
Definition pathExists (path : string) : Eff world bool :=
  gets (fun w => bool_decide (is_Some (tree w !! path))).

(** A directory is made where nothing is. *)
Definition make_directory (path : string) (t : gmap string node)
    : gmap string node :=
  match t !! path with
  | Some _ => t
  | None => <[path := DirNode]> t
  end.

(** [fs.ensureDir(path)]. *)
Definition ensureDir (path : string) : Eff world unit :=
  fun w =>
    match mkdirs w path with
    | inl e => Throw e w
    | inr ancestors =>
        Return tt {| tree := foldr make_directory (tree w) (path :: ancestors);
                     mkdirs := mkdirs w; operation_ms := operation_ms w |}
    end.

(** [withTimeout(promise, timeoutMs, timeoutMessage)]: the timer rejects
    the call when its delay is shorter than the time the operation takes;
    the operation is not cancelled and goes on to its end. *)
Definition withTimeout {A} (promise : Eff world A) (timeoutMs : JsNum.number)
    (timeoutMessage : string) : Eff world A :=
  fun w =>
    match promise w with
    | Return a w' =>
        if Qle_bool (operation_ms w) (ReadFile.timer_delay timeoutMs)
        then Return a w'
        else Throw (ErrorObj timeoutMessage) w'
    | Throw e w' =>
        if Qle_bool (operation_ms w) (ReadFile.timer_delay timeoutMs)
        then Throw e w'
        else Throw (ErrorObj timeoutMessage) w'
    end.

Section Handler.
Context {lib : Lib}.

(** The body of [operation]. *)
Definition operation (targetPath : string) : Eff world Outcome :=
  let! found := pathExists targetPath in
  if found then ret (text_outcome ("Directory already exists: " +:+ targetPath))
  else
    do! ensureDir targetPath in
    ret (text_outcome ("Successfully created directory: " +:+ targetPath)).

(** The handler registered under 'create-dir'. *)
Definition handler (p : params) : Eff world Outcome :=
  try_catch
    (let timeoutMs := Timeout.normalizeTimeout1 (timeout p) in
     if negb (truthy_string (dirPath p)) then
       ret (error_outcome "Error: dirPath is required for create-dir operation")
     else
       let targetPath := dirPath p in
       withTimeout (operation targetPath) timeoutMs
         ("Directory creation operation timed out after " +:+
          number_to_string timeoutMs +:+ "ms"))
    (fun error =>
       ret (error_outcome ("Error creating directory: " +:+ message_any error))).

(** The operation ends before the timer of the call fires. *)
Definition in_time (p : params) (w : world) : bool :=
  Qle_bool (operation_ms w)
    (ReadFile.timer_delay (Timeout.normalizeTimeout1 (timeout p))).

(** The text of the Outcome of a call that timed out. *)
Definition timed_out_text (p : params) : string :=
  "Error creating directory: Directory creation operation timed out after " +:+
  number_to_string (Timeout.normalizeTimeout1 (timeout p)) +:+ "ms".

End Handler.

Definition sample_lib : Lib :=
  {| number_to_string := fun n =>
       match n with
       | JsNum.Finite q => pretty (Qfloor q)
       | JsNum.NaN => "NaN"
       | JsNum.PosInfinity => "Infinity"
       | JsNum.NegInfinity => "-Infinity"
       end |}.

(** A disk with a home directory and a file in it, on which every
    directory can be made; the operation takes [ms] milliseconds. *)
Definition sample_world (ms : Q) : world :=
  {| tree := {[ "/home/u" := DirNode; "/home/u/notes.txt" := FileNode ]};
     mkdirs := fun path =>
       if String.eqb path "/home/u/a/b" then inr ["/home/u/a"] else inr [];
     operation_ms := ms |}.

Definition nested_call : params :=
  {| dirPath := "/home/u/a/b"; timeout := Some (JsNum.Finite 2) |}.

Definition on_a_file_call : params :=
  {| dirPath := "/home/u/notes.txt"; timeout := None |}.

End CreateDir.

(** * index.ts: the table of SSE sessions *)

Module Sessions.
Import Async.

(** The property names every object literal inherits from
    [Object.prototype]. *)
Definition prototype_keys : list string :=
  [ "constructor"; "__defineGetter__"; "__defineSetter__"; "hasOwnProperty";
    "__lookupGetter__"; "__lookupSetter__"; "isPrototypeOf";
    "propertyIsEnumerable"; "toString"; "valueOf"; "__proto__";
    "toLocaleString" ].

(** An [SSEServerTransport], by its [sessionId]. *)
Record Transport := mkTransport {
  sessionId : string
}.

(** What [object[key]] finds on an object literal: an own property, a
    member of [Object.prototype] (a function, or the prototype itself:
    truthy either way), or undefined. *)
Inductive property :=
| Own (transport : Transport)
| Inherited (name : string)
| Undefined.

(** What the handler of a route sends. *)
Record response := mkResponse {
  status : Z;
  body : string
}.

(** The methods of the SDK the routes await: [server.connect(transport)]
    and [transport.handlePostMessage(req, res, req.body)], each of which
    resolves or rejects. *)
Class Lib := {
  server_connect : Transport -> thrown + unit;
  handlePostMessage : Transport -> string -> thrown + unit
}.

(** The own properties of [transports], the lines of [console.log], and the
    messages handed to a transport, each with the session it went to. *)
Record world := mkWorld {
  transports : gmap string Transport;
  console : list string;
  delivered : list (string * string)
}.

Definition console_log (line : string) : Eff world unit :=
  modify (fun w => {| transports := transports w; console := console w ++ [line];
                      delivered := delivered w |}).

(** [transports[key]]. *)
Definition get_property (key : string) : Eff world property :=
  gets (fun w =>
          match transports w !! key with
          | Some transport => Own transport
          | None =>
              if bool_decide (key ∈ prototype_keys) then Inherited key
              else Undefined
          end).

(** [transports[sessionId] = transport], for a [sessionId] other than
    '__proto__', the one key on which the assignment makes no own
    property (the SDK draws the id with [randomUUID()]). *)
Definition set_property (key : string) (transport : Transport) : Eff world unit :=
  modify (fun w => {| transports := <[key := transport]> (transports w);
                      console := console w; delivered := delivered w |}).

(** [delete transports[sessionId]]. *)
Definition delete_property (key : string) : Eff world unit :=
  modify (fun w => {| transports := delete key (transports w);
                      console := console w; delivered := delivered w |}).

(** [String(req.query.sessionId)], the key of the property access; a
    query without [sessionId] gives undefined. *)
Definition property_key (query : option string) : string :=
  default "undefined" query.

Section Routes.
Context {lib : Lib}.

(** The listener of [res.on('close')] in the route GET /sse. *)
Definition on_close (sessionId : string) : Eff world unit :=
  do! console_log ("SSE connection closed: " +:+ sessionId) in
  delete_property sessionId.

(** The route GET /sse, with the transport the SDK has made for the
    connection. *)
Definition get_sse (transport : Transport) : Eff world unit :=
  do! console_log "New SSE connection" in
  do! set_property (sessionId transport) transport in
  lift_exc (server_connect transport).

(** The route POST /messages: the response the handler sends itself, none
    when the transport answers. *)
Definition post_messages (query : option string) (req_body : string)
    : Eff world (option response) :=
  let sessionId := property_key query in
  let! transport := get_property sessionId in
  match transport with
  | Own transport =>
      do! modify (fun w => {| transports := transports w; console := console w;
                              delivered := delivered w ++ [(sessionId, req_body)] |}) in
      do! lift_exc (handlePostMessage transport req_body) in
      ret None
  | Inherited _ =>
      throw (ErrorObj "transport.handlePostMessage is not a function")
  | Undefined =>
      ret (Some {| status := 400; body := "Transport for session ID not found" |})
  end.

End Routes.

(** An SDK whose calls resolve. *)
Definition sample_lib : Lib :=
  {| server_connect := fun _ => inr tt;
     handlePostMessage := fun _ _ => inr tt |}.

Definition no_session : world :=
  {| transports := ∅; console := []; delivered := [] |}.

Definition sample_transport : Transport :=
  {| sessionId := "3f2c9a1e-7b4d-4c1a-9e55-0a1b2c3d4e5f" |}.

End Sessions.

(* ===================================================================== *)
(** * Properties *)
(* ===================================================================== *)

(** ** The timeout of the handlers *)

Section TimeoutFacts.
Import JsNum Timeout.

Lemma Qle_bool_false (x y : Q) : Qle_bool x y = false -> (y < x)%Q.
Proof.
  intros H. apply Qnot_le_lt. intros Hle.
  apply Qle_bool_iff in Hle. congruence.
Qed.

(** The three regions of the clamp, on a finite argument. *)
Lemma normalizeTimeout1_low (q : Q) :
  (q <= 1)%Q -> normalizeTimeout1 (Some (Finite q)) = Finite 1000.
Proof.
  intros Hq. unfold normalizeTimeout1, normalizeTimeout; cbn.
  apply Qle_bool_iff in Hq. unfold inject_Z. rewrite Hq. reflexivity.
Qed.

Lemma normalizeTimeout1_mid (q : Q) :
  (1 < q)%Q -> (q <= 600)%Q ->
  normalizeTimeout1 (Some (Finite q)) = Finite (q * 1000).
Proof.
  intros H1 H2. unfold normalizeTimeout1, normalizeTimeout; cbn.
  destruct (Qle_bool q (inject_Z 1)) eqn:E.
  - apply Qle_bool_iff in E. unfold inject_Z in E. lra.
  - cbn. apply Qle_bool_iff in H2. unfold inject_Z. rewrite H2. reflexivity.
Qed.

Lemma normalizeTimeout1_high (q : Q) :
  (600 < q)%Q -> normalizeTimeout1 (Some (Finite q)) = Finite 600000.
Proof.
  intros H. unfold normalizeTimeout1, normalizeTimeout; cbn.
  destruct (Qle_bool q (inject_Z 1)) eqn:E.
  - apply Qle_bool_iff in E. unfold inject_Z in E. lra.
  - cbn. destruct (Qle_bool q (inject_Z 600)) eqn:E2.
    + apply Qle_bool_iff in E2. unfold inject_Z in E2. lra.
    + reflexivity.
Qed.

Lemma normalizeTimeout1_finite_cases (q : Q) :
  ((q <= 1)%Q /\ normalizeTimeout1 (Some (Finite q)) = Finite 1000) \/
  ((1 < q)%Q /\ (q <= 600)%Q /\
     normalizeTimeout1 (Some (Finite q)) = Finite (q * 1000)) \/
  ((600 < q)%Q /\ normalizeTimeout1 (Some (Finite q)) = Finite 600000).
Proof.
  destruct (Qlt_le_dec 1 q) as [H1|H1].
  - destruct (Qlt_le_dec 600 q) as [H2|H2].
    + right; right. split; [done|]. by apply normalizeTimeout1_high.
    + right; left. split; [done|]. split; [done|]. by apply normalizeTimeout1_mid.
  - left. split; [done|]. by apply normalizeTimeout1_low.
Qed.

End TimeoutFacts.

Section TimeoutRange.
Import JsNum Timeout.




End TimeoutRange.

(** ** The process-level handlers *)

Section ProcessFacts.
Import Process.

(** A terminated process stays as it is. *)
Lemma exited_is_final (p : process) (code : Z) :
  state p = Exited code ->
  (forall l v, console_error l v p = p) /\
  (forall c, process_exit c p = p) /\
  (forall ev, emit ev p = p).
Proof.
  intros H.
  assert (Hc : forall l v, console_error l v p = p)
    by (intros; unfold console_error; by rewrite H).
  assert (He : forall c, process_exit c p = p)
    by (intros; unfold process_exit; by rewrite H).
  split; [done|]. split; [done|].
  intros [e|r]; cbn; unfold on_uncaughtException, on_unhandledRejection;
    by rewrite Hc, He.
Qed.

(** C8. On a running process, the handler of [uncaughtException] and the
    handler of [unhandledRejection] each print the error with
    [console.error] and end the process with exit code 1; nothing runs
    after that. *)
Theorem top_level_handlers_log_and_exit (ev : top_level_event) (p : process) :
  state p = Running ->
  state (emit ev p) = Exited 1 /\
  stderr (emit ev p) = stderr p ++ [(label_of ev, payload ev)] /\
  (forall ev', emit ev' (emit ev p) = emit ev p).
Proof.
  intros Hrun.
  assert (Hst : state (emit ev p) = Exited 1 /\
                stderr (emit ev p) = stderr p ++ [(label_of ev, payload ev)]).
  { destruct ev; cbn;
      unfold on_uncaughtException, on_unhandledRejection, process_exit,
        console_error; rewrite Hrun; cbn; done. }
  destruct Hst as [Hs He]. split; [done|]. split; [done|].
  intros ev'. by apply (exited_is_final _ 1).
Qed.

Lemma top_level_handlers_log_and_exit_witness :
  let p := {| stderr := []; state := Running |} in
  state (emit (UnhandledRejection "boom") p) = Exited 1 /\
  stderr (emit (UnhandledRejection "boom") p) =
    [("Unhandled Promise Rejection:", "boom")].
Proof.
  intros p.
  destruct (top_level_handlers_log_and_exit (UnhandledRejection "boom") p)
    as (H1 & H2 & _); [reflexivity|].
  split; [exact H1 | exact H2].
Defined.

End ProcessFacts.

(** ** The registration loop *)

Section RegistryFacts.
Import Async Registry.
Context {Tool : Type}.
Implicit Types (entries : list (entry Tool)) (b : boot Tool).

(** When no registration function throws, the loop runs to its end: the
    functions are called in order, the other entries are reported. *)
Lemma forEach_normal entries : forall i b,
  Forall returns_normally entries ->
  exists s',
    forEach i entries b =
      Return tt {| server := s';
                   console_error := console_error b ++ diagnostics entries;
                   console_log := console_log b;
                   invoked := invoked b ++ callable_positions i entries |}.
Proof.
  induction entries as [|e rest IH]; intros i b Hall.
  - exists (server b). cbn. unfold ret. rewrite !app_nil_r. by destruct b.
  - apply Forall_cons in Hall as [He Hrest].
    destruct e as [fn|printed]; cbn [forEach forEach_callback].
    + unfold bind, call_entry. cbn in He. specialize (He (server b)).
      cbn [server]. destruct (fn (server b)) as [[] s1|e s1]; [|done].
      cbn [console_error console_log invoked].
      destruct (IH (S i) {| server := s1; console_error := console_error b;
                            console_log := console_log b;
                            invoked := invoked b ++ [i] |} Hrest) as [s' ->].
      exists s'. cbn. by rewrite <- app_assoc.
    + unfold bind, log_error, modify.
      destruct (IH (S i) {| server := server b;
                            console_error := console_error b ++
                              [("An imported tool is not a function:", printed)];
                            console_log := console_log b;
                            invoked := invoked b |} Hrest) as [s' ->].
      exists s'. cbn. by rewrite <- app_assoc.
Qed.

Lemma callable_positions_ge entries : forall i j,
  j ∈ callable_positions i entries -> i <= j.
Proof.
  induction entries as [|[fn|v] rest IH]; intros i j Hin; cbn in Hin.
  - by apply elem_of_nil in Hin.
  - apply elem_of_cons in Hin as [->|Hin]; [lia|]. apply IH in Hin. lia.
  - apply IH in Hin. lia.
Qed.

Lemma filter_none_below entries i j :
  j < i -> filter (fun x => x = j) (callable_positions i entries) = [].
Proof.
  intros Hlt.
  assert (Hall : forall y, y ∈ callable_positions i entries -> y <> j).
  { intros y Hy. apply callable_positions_ge in Hy. lia. }
  induction (callable_positions i entries) as [|y l IH]; [done|].
  rewrite filter_cons_False by (apply Hall; by left).
  apply IH. intros z Hz. apply Hall. by right.
Qed.

(** Each position is called once when it holds a function and never
    otherwise. *)
Lemma count_callable_positions entries : forall i k,
  length (filter (fun x => x = i + k) (callable_positions i entries)) =
    match entries !! k with
    | Some (Callable _) => 1
    | _ => 0
    end.
Proof.
  induction entries as [|e rest IH]; intros i k; [done|].
  destruct k as [|k].
  - replace (i + 0) with i by lia.
    destruct e as [fn|v]; cbn [callable_positions lookup list_lookup].
    + rewrite filter_cons_True by done. cbn.
      by rewrite filter_none_below by lia.
    + by rewrite filter_none_below by lia.
  - replace (i + S k) with (S i + k) by lia.
    destruct e as [fn|v]; cbn [callable_positions].
    + rewrite filter_cons_False by lia. apply IH.
    + apply IH.
Qed.

Lemma length_diagnostics entries :
  length (diagnostics entries) =
    length (filter (fun e => is_callable e = false) entries).
Proof.
  induction entries as [|[fn|v] rest IH]; [done| |].
  - cbn [diagnostics]. by rewrite filter_cons_False by (cbn; congruence).
  - cbn [diagnostics]. rewrite filter_cons_True by done. cbn. by rewrite IH.
Qed.

End RegistryFacts.

Section RegistryClaim.
Import Async Registry.

(** C2, amended. When no registration function throws, [registryTools]
    runs to its end, calls every entry that is a function exactly once,
    calls no other entry, and prints exactly one diagnostic for each entry
    that is not a function; with three entries, two of which register a
    tool under two distinct names and one of which is not a function, two
    tools are registered and one diagnostic is printed. *)
Theorem registryTools_calls_functions_reports_others :
  (forall (Tool : Type) (entries : list (entry Tool)),
     Forall returns_normally entries ->
     exists b',
       registryTools entries boot0 = Return tt b' /\
       (forall i fn, entries !! i = Some (Callable fn) -> times_invoked i b' = 1) /\
       (forall i v, entries !! i = Some (NotCallable v) -> times_invoked i b' = 0) /\
       console_error b' = diagnostics entries /\
       length (console_error b') =
         length (filter (fun e => is_callable e = false) entries)) /\
  (forall (Tool : Type) (n1 n2 : string) (t1 t2 : Tool) (printed : string),
     n1 <> n2 ->
     exists b',
       registryTools (scenario_entries n1 n2 t1 t2 printed) boot0 = Return tt b' /\
       size (server b') = 2 /\
       console_error b' = [("An imported tool is not a function:", printed)] /\
       console_log b' = ["3 tools have been registered."] /\
       invoked b' = [0; 2]).
Proof.
  split.
  - intros Tool entries Hall.
    destruct (forEach_normal entries 0 boot0 Hall) as [s' Hrun].
    unfold registryTools, bind. rewrite Hrun. unfold log_info, modify.
    eexists. split; [reflexivity|]. cbn [console_error invoked boot0 app].
    unfold times_invoked; cbn [invoked].
    split; [|split; [|split]].
    + intros i fn Hi.
      pose proof (count_callable_positions entries 0 i) as Hc.
      cbn in Hc. by rewrite Hc, Hi.
    + intros i v Hi.
      pose proof (count_callable_positions entries 0 i) as Hc.
      cbn in Hc. by rewrite Hc, Hi.
    + done.
    + apply length_diagnostics.
  - intros Tool n1 n2 t1 t2 printed Hne.
    eexists. split; [reflexivity|]. cbn.
    split; [|done].
    rewrite map_size_insert_None.
    + by rewrite map_size_insert_None.
    + by rewrite lookup_insert_ne.
Qed.

Lemma registryTools_calls_functions_reports_others_witness :
  exists b' : boot unit,
    registryTools (scenario_entries "ping-tool" "todo-list-tool" tt tt "undefined")
      boot0 = Return tt b' /\
    size (server b') = 2 /\
    console_error b' = [("An imported tool is not a function:", "undefined")] /\
    console_log b' = ["3 tools have been registered."] /\
    invoked b' = [0; 2].
Proof.
  apply (proj2 registryTools_calls_functions_reports_others unit
           "ping-tool" "todo-list-tool" tt tt "undefined").
  discriminate.
Defined.

(** C2 as stated fails: the second entry is a function and is never called,
    because the exception of the first one ends the loop and leaves
    [registryTools]. *)
Lemma registryTools_aborts_when_a_function_throws :
  is_callable <$> throwing_entries !! 1 = Some true /\
  rejects (registryTools throwing_entries boot0) /\
  times_invoked 1 (result_state (registryTools throwing_entries boot0)) = 0 /\
  server (result_state (registryTools throwing_entries boot0)) = ∅.
Proof. repeat split. Qed.

End RegistryClaim.

(** ** The watchers of watch-file-changes *)

Section WatchFacts.
Import Async Outcome Js WatchFileChanges.
Context {lib : Lib}.

Lemma start_on_watched_path (p : params) (w : world) :
  action p = "start" ->
  is_Some (activeWatchers w !! path_resolve (target_path p)) ->
  exists o, handler p w = Return o w /\ isError o = Some true.
Proof.
  intros Ha Hin. unfold handler. rewrite Ha. cbn [String.eqb Ascii.eqb Bool.eqb].
  destruct (truthy (command p)); cbn [negb].
  - unfold bind, gets. rewrite bool_decide_eq_true_2 by done.
    eexists. split; reflexivity.
  - eexists. split; reflexivity.
Qed.

Lemma stop_on_unwatched_path (p : params) (w : world) :
  action p = "stop" ->
  activeWatchers w !! path_resolve (target_path p) = None ->
  exists o, handler p w = Return o w /\ isError o = Some true.
Proof.
  intros Ha Hout. unfold handler. rewrite Ha. cbn [String.eqb Ascii.eqb Bool.eqb].
  unfold bind, gets. rewrite Hout. eexists. split; reflexivity.
Qed.

Lemma start_keeps_one_watcher (w : world) (path command : string)
    (recursive : option bool) :
  one_watcher_per_path w ->
  activeWatchers w !! path = None ->
  let watcher := {| watched := path; listener_command := command;
                    watch_recursive := recursive |} in
  one_watcher_per_path
    (set_activeWatchers (<[path := watcher]>)
       (set_open_watchers (fun l => l ++ [watcher]) w)).
Proof.
  intros [Hnd Hmap] Hnone watcher. split; cbn.
  - rewrite fmap_app. apply NoDup_app. split; [done|]. split.
    + intros x Hx Hx'. cbn in Hx'. apply list_elem_of_singleton in Hx'. subst x.
      apply list_elem_of_fmap in Hx as (fw & Hfw & Hin).
      assert (activeWatchers w !! path = Some fw) as Hsome
        by (apply Hmap; by split).
      congruence.
    + cbn. apply NoDup_singleton.
  - intros q fw. rewrite elem_of_app, list_elem_of_singleton.
    destruct (decide (path = q)) as [<-|Hne].
    + rewrite lookup_insert_eq. split.
      * intros [= <-]. split; [by right|done].
      * intros [[Hin | ->] Hw]; [|done].
        assert (activeWatchers w !! path = Some fw) by (apply Hmap; by split).
        congruence.
    + rewrite lookup_insert_ne by done. rewrite Hmap. split.
      * intros [Hin Hw]. split; [by left|done].
      * intros [[Hin| ->] Hw]; [by split|]. cbn in Hw. congruence.
Qed.

Lemma stop_keeps_one_watcher (w : world) (path : string) (watcher : FSWatcher) :
  one_watcher_per_path w ->
  activeWatchers w !! path = Some watcher ->
  one_watcher_per_path
    (set_activeWatchers (delete path)
       (set_open_watchers (filter (fun x => x <> watcher)) w)).
Proof.
  intros [Hnd Hmap] Hsome. split; cbn.
  - eapply sublist_NoDup; [exact Hnd|].
    apply fmap_sublist, sublist_filter.
  - intros q fw. rewrite list_elem_of_filter.
    destruct (decide (path = q)) as [<-|Hne].
    + rewrite lookup_delete_eq. split; [done|].
      intros [[Hneq Hin] Hw].
      assert (activeWatchers w !! path = Some fw) by (apply Hmap; by split).
      congruence.
    + rewrite lookup_delete_ne by done. rewrite Hmap. split.
      * intros [Hin Hw]. split; [|done]. split; [|done].
        intros ->. apply Hmap in Hsome as [_ Hw']. congruence.
      * intros [[_ Hin] Hw]. by split.
Qed.

(** The property reads the map and the open watchers only. *)
Lemma one_watcher_per_path_ext (w w' : world) :
  activeWatchers w = activeWatchers w' ->
  open_watchers w = open_watchers w' ->
  one_watcher_per_path w -> one_watcher_per_path w'.
Proof. unfold one_watcher_per_path. by intros <- <-. Qed.

Lemma handler_keeps_one_watcher (p : params) (w : world) :
  one_watcher_per_path w ->
  one_watcher_per_path (result_state (handler p w)).
Proof.
  intros Hw. unfold handler.
  destruct (String.eqb (action p) "start").
  - destruct (truthy (command p)); cbn [negb]; [|exact Hw].
    unfold bind at 1. unfold gets at 1.
    destruct (activeWatchers w !! path_resolve (target_path p)) as [fw|] eqn:E.
    + rewrite bool_decide_eq_true_2 by done. exact Hw.
    + rewrite bool_decide_eq_false_2 by (intros [? ?]; done).
      unfold bind at 1. unfold gets at 1.
      destruct (existsSync w (path_resolve (target_path p))); cbn [negb];
        [|exact Hw].
      unfold try_catch, bind, fs_watch.
      destruct (watch_throws w (path_resolve (target_path p))); [exact Hw|].
      cbn.
      eapply one_watcher_per_path_ext;
        [| |apply (start_keeps_one_watcher w _ (default "" (command p))
                     (recursive p) Hw E)]; reflexivity.
  - destruct (String.eqb (action p) "stop"); [|exact Hw].
    unfold bind at 1. unfold gets at 1.
    destruct (activeWatchers w !! path_resolve (target_path p)) as [fw|] eqn:E;
      [|exact Hw].
    cbn.
    eapply one_watcher_per_path_ext;
      [| |apply (stop_keeps_one_watcher w _ fw Hw E)]; reflexivity.
Qed.

(** C7. The handler keeps at most one open watcher per normalized path; a
    'start' for a path that is in the map of active watchers returns an
    error Outcome and changes nothing, and so does a 'stop' for a path that
    is not in the map. *)
Theorem watch_handler_one_watcher_per_path (p : params) (w : world) :
  (one_watcher_per_path w ->
     one_watcher_per_path (result_state (handler p w))) /\
  (action p = "start" ->
   is_Some (activeWatchers w !! path_resolve (target_path p)) ->
     exists o, handler p w = Return o w /\ isError o = Some true) /\
  (action p = "stop" ->
   activeWatchers w !! path_resolve (target_path p) = None ->
     exists o, handler p w = Return o w /\ isError o = Some true).
Proof.
  split; [apply handler_keeps_one_watcher|].
  split; [apply start_on_watched_path | apply stop_on_unwatched_path].
Qed.

End WatchFacts.

Section WatchWitness.
Import Async Outcome WatchFileChanges.

Lemma sample_world_one_watcher : one_watcher_per_path sample_world.
Proof.
  split; cbn.
  - apply NoDup_singleton.
  - intros path watcher. rewrite list_elem_of_singleton. split.
    + intros [[= <-] <-]%lookup_singleton_Some. done.
    + intros [-> <-]. apply lookup_singleton_eq.
Qed.

Lemma watch_handler_one_watcher_per_path_witness :
  one_watcher_per_path
    (result_state (handler (lib := sample_lib) sample_start sample_world)) /\
  (exists o, handler (lib := sample_lib) sample_start sample_world
               = Return o sample_world /\ isError o = Some true) /\
  (exists o, handler (lib := sample_lib) sample_stop sample_world
               = Return o sample_world /\ isError o = Some true).
Proof.
  destruct (watch_handler_one_watcher_per_path (lib := sample_lib)
              sample_start sample_world) as (Hinv & Hstart & _).
  destruct (watch_handler_one_watcher_per_path (lib := sample_lib)
              sample_stop sample_world) as (_ & _ & Hstop).
  split; [|split].
  - apply Hinv, sample_world_one_watcher.
  - apply Hstart; [reflexivity | by eexists].
  - apply Hstop; reflexivity.
Defined.

End WatchWitness.

(** ** get-system-info *)

Section SystemInfoFacts.
Import Async Outcome GetSystemInfo.
Context {lib : Lib}.

(** The outcome is a function of the nine answers. *)
Lemma handler_reads_queried_only (o1 o2 : os) :
  queried o1 = queried o2 ->
  result_value (handler o1) = result_value (handler o2).
Proof.
  destruct o1 as [c1 p1 t1 r1 a1 h1 tm1 fm1 u1 l1 d1],
           o2 as [c2 p2 t2 r2 a2 h2 tm2 fm2 u2 l2 d2].
  unfold queried; cbn. intros [= -> -> -> -> -> -> -> -> ->].
  unfold handler, try_catch, collect, bind, gets, lift_exc, throw, ret; cbn.
  destruct c2; [done|]. destruct p2; [done|]. destruct t2; [done|].
  destruct r2; [done|]. destruct a2; [done|]. destruct h2; [done|].
  destruct tm2; [done|]. destruct fm2; [done|]. destruct u2; done.
Qed.

(** The handler always resolves and leaves the host as it is. *)
Lemma handler_resolves (o : os) :
  exists out, handler o = Return out o.
Proof.
  unfold handler, try_catch, collect, bind, gets, lift_exc, throw, ret.
  destruct (os_cpus o); [by eexists|].
  destruct (os_platform o); [by eexists|].
  destruct (os_type o); [by eexists|].
  destruct (os_release o); [by eexists|].
  destruct (os_arch o); [by eexists|].
  destruct (os_hostname o); [by eexists|].
  destruct (os_totalmem o); [by eexists|].
  destruct (os_freemem o); [by eexists|].
  destruct (os_uptime o); by eexists.
Qed.

(** When every query answers, the outcome is a success. *)
Lemma handler_success (o : os) :
  answers o ->
  exists out, handler o = Return out o /\ isError out = None.
Proof.
  intros (H1 & H2 & H3 & H4 & H5 & H6 & H7 & H8 & H9).
  unfold handler, try_catch, collect, bind, gets, lift_exc, throw, ret.
  destruct (os_cpus o); [done|].
  destruct (os_platform o); [done|].
  destruct (os_type o); [done|].
  destruct (os_release o); [done|].
  destruct (os_arch o); [done|].
  destruct (os_hostname o); [done|].
  destruct (os_totalmem o); [done|].
  destruct (os_freemem o); [done|].
  destruct (os_uptime o); [done|].
  eexists. split; reflexivity.
Qed.

(** C9. Two calls of get-system-info on hosts that answer the nine queries
    of the handler alike (platform, type, release, architecture, hostname,
    total and free memory, cpu list, uptime) return the same Outcome, and
    that Outcome is a success: what else differs between the two hosts has
    no effect. *)
Theorem get_system_info_deterministic (o1 o2 : os) :
  queried o1 = queried o2 ->
  answers o1 ->
  exists out,
    handler o1 = Return out o1 /\
    handler o2 = Return out o2 /\
    isError out = None.
Proof.
  intros Hq Ha.
  destruct (handler_success o1 Ha) as (out & H1 & Hok).
  destruct (handler_resolves o2) as (out2 & H2).
  pose proof (handler_reads_queried_only o1 o2 Hq) as Heq.
  rewrite H1, H2 in Heq. cbn in Heq. injection Heq as <-.
  by exists out.
Qed.

End SystemInfoFacts.

Section SystemInfoWitness.
Import Async Outcome GetSystemInfo.

Lemma get_system_info_deterministic_witness :
  let o1 := sample_host [0.5%Q] "/tmp" in
  let o2 := sample_host [2.25%Q; 1%Q] "/var/tmp" in
  exists out,
    handler (lib := sample_lib) o1 = Return out o1 /\
    handler (lib := sample_lib) o2 = Return out o2 /\
    isError out = None.
Proof.
  intros o1 o2.
  apply (get_system_info_deterministic (lib := sample_lib) o1 o2).
  - reflexivity.
  - repeat split.
Defined.

End SystemInfoWitness.

(** ** Which handlers always resolve *)

Section AsyncFacts.
Import Async.
Context {S A : Type}.

(** A [try] whose [catch] block returns resolves, whatever the body does. *)
Lemma try_catch_resolves (body : Eff S A) (recover : thrown -> A) (s : S) :
  exists a s', try_catch body (fun e => ret (recover e)) s = Return a s'.
Proof.
  unfold try_catch, ret. destruct (body s) as [a s'|e s']; by eexists _, _.
Qed.

Lemma bind_throw {B} (m : Eff S A) (k : A -> Eff S B) (s s' : S) (e : thrown) :
  m s = Throw e s' -> bind m k s = Throw e s'.
Proof. intros Hm. unfold bind. by rewrite Hm. Qed.

Lemma bind_return {B} (m : Eff S A) (k : A -> Eff S B) (s s' : S) (a : A) :
  m s = Return a s' -> bind m k s = k a s'.
Proof. intros Hm. unfold bind. by rewrite Hm. Qed.

End AsyncFacts.

Section PingFacts.
Import Async Outcome PingTool.
Context {lib : Lib}.

(** Every statement of the ping handler is inside its [try] block. *)
Lemma ping_handler_resolves (p : params) (w : world) :
  exists o w', handler p w = Return o w'.
Proof. unfold handler. apply try_catch_resolves. Qed.

End PingFacts.

Section TodoFacts.
Import Async Outcome TodoListTool.
Context {lib : Lib}.

Lemma todo_handler_rejects_with_read (p : params) (w w' : world) (e : thrown) :
  readTodoData w = Throw e w' -> handler p w = Throw e w'.
Proof. intros Hr. unfold handler. by apply bind_throw. Qed.

(** Past [readTodoData], the handler is inside its [try] block. *)
Lemma todo_handler_resolves_after_read (p : params) (w w' : world) (d : TodoData) :
  readTodoData w = Return d w' -> exists o w'', handler p w = Return o w''.
Proof.
  intros Hr. unfold handler. rewrite (bind_return _ _ _ _ _ Hr).
  apply try_catch_resolves.
Qed.

Lemma readTodoData_malformed (w : world) (content : string) (e : thrown) :
  fs w !! TODO_FILE_PATH = Some (RegularFile content) ->
  JSON_parse content = inl e ->
  readTodoData w = Throw e w.
Proof.
  intros Hf Hp. unfold readTodoData, bind, pathExists, gets, readFile.
  rewrite bool_decide_eq_true_2 by (by rewrite Hf).
  rewrite Hf. unfold lift_exc. by rewrite Hp.
Qed.

Lemma readTodoData_directory (w : world) :
  fs w !! TODO_FILE_PATH = Some Directory ->
  readTodoData w =
    Throw (ErrorObj "EISDIR: illegal operation on a directory, read") w.
Proof.
  intros Hf. unfold readTodoData, bind, pathExists, gets, readFile.
  rewrite bool_decide_eq_true_2 by (by rewrite Hf).
  by rewrite Hf.
Qed.

(** C1 fails for todo-list-tool. The handler awaits [readTodoData] before
    its [try] block: when todo-list.json holds a text that [JSON.parse]
    rejects, or cannot be read, the promise of the handler rejects with that
    error instead of resolving to an Outcome, whatever the arguments. *)
Theorem todo_handler_lets_read_errors_escape (p : params) (w : world) :
  (forall content e,
     fs w !! TODO_FILE_PATH = Some (RegularFile content) ->
     JSON_parse content = inl e ->
     handler p w = Throw e w) /\
  (fs w !! TODO_FILE_PATH = Some Directory ->
     handler p w =
       Throw (ErrorObj "EISDIR: illegal operation on a directory, read") w).
Proof.
  split.
  - intros content e Hf Hp.
    by apply todo_handler_rejects_with_read, (readTodoData_malformed _ content).
  - intros Hf. by apply todo_handler_rejects_with_read, readTodoData_directory.
Qed.

End TodoFacts.

Section TodoWitness.
Import Async Outcome TodoListTool.

Lemma todo_handler_lets_read_errors_escape_witness :
  handler (lib := sample_lib) list_projects_call truncated_store =
    Throw (ErrorObj "Unexpected end of JSON input") truncated_store /\
  handler (lib := sample_lib) list_projects_call directory_store =
    Throw (ErrorObj "EISDIR: illegal operation on a directory, read")
      directory_store.
Proof.
  split.
  - apply (proj1 (todo_handler_lets_read_errors_escape (lib := sample_lib)
                    list_projects_call truncated_store) "{");
      reflexivity.
  - apply (proj2 (todo_handler_lets_read_errors_escape (lib := sample_lib)
                    list_projects_call directory_store)).
    reflexivity.
Defined.

End TodoWitness.

(** ** Paths that do not exist *)

Section CountFilesFacts.
Import Async Outcome Js CountFiles.
Context {lib : Lib}.


(** count-files always resolves. *)
Lemma count_files_resolves (p : params) (w : world) :
  exists o w', handler p w = Return o w'.
Proof. unfold handler. apply try_catch_resolves. Qed.

End CountFilesFacts.

Section ReadFileFacts.
Import Async Outcome Js ReadFile.
Context {lib : Lib}.














End ReadFileFacts.

Section MissingPathClaim.
Import Async Outcome.




End MissingPathClaim.

(** ** The schema validator *)

Section ValidatorFacts.
Import Async Outcome Schema.

(** The validator of one field returns the first violation of the field. *)
Lemma validate_field_first (name : string) (d : descriptor) (raw : option value) :
  match field_violations name d raw with
  | [] => exists v, validate_field name d raw = inr v
  | f :: _ => validate_field name d raw = inl f
  end.
Proof.
  unfold field_violations, validate_field, value_violations.
  destruct raw as [v|].
  - destruct (has_type (type d) v) eqn:Ht; cbn [negb]; [|done].
    destruct (type d) eqn:Et, v; cbn in Ht; try done; cbn; try by eexists.
    + destruct (int (field_constraints d) && negb (is_integer q)); [done|].
      destruct (below (min (field_constraints d)) q); [done|].
      destruct (above (max (field_constraints d)) q); [done|].
      cbn. by eexists.
    + destruct (bool_decide (s ∈ members)); cbn; [by eexists|done].
  - destruct (default_value d); [by eexists|].
    destruct (required d); [done|by eexists].
Qed.

(** The validator returns the first violation of the schema, or succeeds
    when there is none. *)
Lemma validate_fields_first (fields : schema) (raw : gmap string value) :
  forall acc,
  match flat_map (fun nd => field_violations nd.1 nd.2 (raw !! nd.1)) fields with
  | [] => exists args, validate_fields fields raw acc = inr args
  | f :: _ => validate_fields fields raw acc = inl f
  end.
Proof.
  induction fields as [|[name d] rest IH]; intros acc; cbn [flat_map].
  - by exists acc.
  - cbn [fst snd validate_fields].
    pose proof (validate_field_first name d (raw !! name)) as Hf.
    destruct (field_violations name d (raw !! name)) as [|f fs].
    + destruct Hf as [v ->]. cbn [app]. destruct v; apply IH.
    + cbn [app]. by rewrite Hf.
Qed.

(** A field that the rest of the schema does not declare keeps its value. *)
Lemma validate_fields_other (fields : schema) (raw : gmap string value)
    (name : string) :
  forall acc args,
  name ∉ fields.*1 ->
  validate_fields fields raw acc = inr args ->
  args !! name = acc !! name.
Proof.
  induction fields as [|[n d] rest IH]; intros acc args Hnot Hv; cbn in Hv.
  - by injection Hv as <-.
  - cbn in Hnot. apply not_elem_of_cons in Hnot as [Hne Hnot].
    destruct (validate_field n d (raw !! n)) as [f|[v|]]; [done| |].
    + rewrite (IH _ _ Hnot Hv). by rewrite lookup_insert_ne.
    + by apply IH.
Qed.

(** What the validated arguments hold for a declared field. *)
Lemma validate_fields_declared (fields : schema) (raw : gmap string value)
    (name : string) (d : descriptor) :
  forall acc args,
  NoDup fields.*1 ->
  (name, d) ∈ fields ->
  validate_fields fields raw acc = inr args ->
  match validate_field name d (raw !! name) with
  | inr (Some v) => args !! name = Some v
  | inr None => args !! name = acc !! name
  | inl _ => False
  end.
Proof.
  induction fields as [|[n d'] rest IH]; intros acc args Hnd Hin Hv.
  - by apply elem_of_nil in Hin.
  - cbn in Hnd. apply NoDup_cons in Hnd as [Hfresh Hnd].
    cbn in Hv. apply elem_of_cons in Hin as [[= <- <-]|Hin].
    + destruct (validate_field name d (raw !! name)) as [f|[v|]]; [done| |].
      * rewrite (validate_fields_other _ _ _ _ _ Hfresh Hv).
        apply lookup_insert_eq.
      * apply (validate_fields_other _ _ _ _ _ Hfresh Hv).
    + assert (n <> name) as Hne.
      { intros ->. apply Hfresh. apply list_elem_of_fmap. by exists (name, d). }
      destruct (validate_field n d' (raw !! n)) as [f|[v|]]; [done| |].
      * specialize (IH _ _ Hnd Hin Hv).
        destruct (validate_field name d (raw !! name)) as [f|[v'|]]; [done..|].
        by rewrite IH, lookup_insert_ne.
      * by apply IH.
Qed.

(** A declared field whose value fails makes the validation fail. *)
Lemma validate_fields_fails (fields : schema) (raw : gmap string value)
    (name : string) (d : descriptor) (f : failure) :
  forall acc,
  (name, d) ∈ fields ->
  validate_field name d (raw !! name) = inl f ->
  exists f', validate_fields fields raw acc = inl f'.
Proof.
  induction fields as [|[n d'] rest IH]; intros acc Hin Hf.
  - by apply elem_of_nil in Hin.
  - cbn. apply elem_of_cons in Hin as [[= <- <-]|Hin].
    + rewrite Hf. by eexists.
    + destruct (validate_field n d' (raw !! n)) as [f'|[v|]]; [by eexists|..];
        by apply IH.
Qed.

End ValidatorFacts.

Section ValidatorClaims.
Import Async Outcome Schema.

(** C3. Validation returns one failure, the first violation in the order of
    the declared fields and of the checks of a field, also when the raw
    arguments violate several constraints; it succeeds when they violate
    none. *)
Theorem validation_returns_first_violation (s : schema) (raw : gmap string value) :
  (2 <= length (all_violations s raw) ->
     exists f, validate s raw = inl f /\ head (all_violations s raw) = Some f) /\
  (forall f rest, all_violations s raw = f :: rest -> validate s raw = inl f) /\
  (all_violations s raw = [] -> exists args, validate s raw = inr args).
Proof.
  pose proof (validate_fields_first s raw raw) as H.
  fold (all_violations s raw) in H. fold (validate s raw) in H.
  split; [|split].
  - intros Hlen. destruct (all_violations s raw) as [|f rest]; [cbn in Hlen; lia|].
    by exists f.
  - intros f rest E. by rewrite E in H.
  - intros E. by rewrite E in H.
Qed.

Lemma validation_returns_first_violation_witness :
  exists f,
    validate Tools.mode_and_level_schema Tools.wrong_mode_and_level = inl f /\
    head (all_violations Tools.mode_and_level_schema Tools.wrong_mode_and_level)
      = Some f.
Proof.
  apply (proj1 (validation_returns_first_violation
                  Tools.mode_and_level_schema Tools.wrong_mode_and_level)).
  vm_compute. lia.
Defined.

End ValidatorClaims.

Section RangeFacts.
Import Async Outcome Schema.

Lemma Qle_bool_false_iff (x y : Q) : Qle_bool x y = false <-> (y < x)%Q.
Proof.
  split.
  - intros H. apply Qnot_le_lt. intros Hle. apply Qle_bool_iff in Hle. congruence.
  - intros H. destruct (Qle_bool x y) eqn:E; [|done].
    apply Qle_bool_iff in E. lra.
Qed.

(** A number outside the range fails the check of its field. *)
Lemma out_of_range_fails (name : string) (d : descriptor) (q : Q) :
  type d = TNumber ->
  out_of_range d q ->
  exists f, validate_field name d (Some (VNumber q)) = inl f /\ field f = name.
Proof.
  intros Ht Hout. unfold validate_field. rewrite Ht. cbn.
  destruct (int (field_constraints d) && negb (is_integer q)); [by eexists|].
  destruct Hout as [(lo & Hlo & Hq)|(hi & Hhi & Hq)].
  - unfold below. rewrite Hlo.
    apply Qle_bool_false_iff in Hq. rewrite Hq. cbn. by eexists.
  - destruct (below (min (field_constraints d)) q); [by eexists|].
    unfold above. rewrite Hhi.
    apply Qle_bool_false_iff in Hq. rewrite Hq. cbn. by eexists.
Qed.

(** A bound of the range passes the check of its field. *)
Lemma boundary_passes (name : string) (d : descriptor) (q : Q) :
  type d = TNumber ->
  (int (field_constraints d) = true -> is_integer q = true) ->
  on_boundary d q ->
  validate_field name d (Some (VNumber q)) = inr (Some (VNumber q)).
Proof.
  intros Ht Hint [Hb Hord]. unfold validate_field. rewrite Ht. cbn.
  destruct (int (field_constraints d)) eqn:Ei; cbn.
  - rewrite Hint by done. cbn.
    unfold below, above.
    destruct (min (field_constraints d)) as [lo|] eqn:El,
             (max (field_constraints d)) as [hi|] eqn:Eh; cbn.
    + assert (lo <= q /\ q <= hi)%Q as [H1 H2].
      { specialize (Hord lo hi eq_refl eq_refl).
        destruct Hb as [[= <-]|[= <-]]; split; lra. }
      apply Qle_bool_iff in H1, H2. by rewrite H1, H2.
    + destruct Hb as [[= <-]|[=]].
      assert (Qle_bool lo lo = true) as -> by (apply Qle_bool_iff; lra). done.
    + destruct Hb as [[=]|[= <-]].
      assert (Qle_bool hi hi = true) as -> by (apply Qle_bool_iff; lra). done.
    + by destruct Hb.
  - unfold below, above.
    destruct (min (field_constraints d)) as [lo|] eqn:El,
             (max (field_constraints d)) as [hi|] eqn:Eh; cbn.
    + assert (lo <= q /\ q <= hi)%Q as [H1 H2].
      { specialize (Hord lo hi eq_refl eq_refl).
        destruct Hb as [[= <-]|[= <-]]; split; lra. }
      apply Qle_bool_iff in H1, H2. by rewrite H1, H2.
    + destruct Hb as [[= <-]|[=]].
      assert (Qle_bool lo lo = true) as -> by (apply Qle_bool_iff; lra). done.
    + destruct Hb as [[=]|[= <-]].
      assert (Qle_bool hi hi = true) as -> by (apply Qle_bool_iff; lra). done.
    + by destruct Hb.
Qed.

(** The dispatcher calls no handler when the validation fails. *)
Lemma dispatch_validation_failure {W} (registry : gmap string (ToolDefinition W))
    (toolName : string) (t : ToolDefinition W) (raw : gmap string value)
    (f : failure) (st : dispatch_state W) :
  registry !! toolName = Some t ->
  validate (input_schema t) raw = inl f ->
  dispatch registry toolName raw st = Return (error_outcome (failure_text f)) st.
Proof. intros Hr Hv. unfold dispatch. by rewrite Hr, Hv. Qed.

End RangeFacts.

Section RangeClaim.
Import Async Outcome Schema.

(** C5. A number strictly outside the declared range of its field fails the
    validation, and the dispatcher then returns an error Outcome without
    calling the handler; the bounds themselves pass the check of the field.
    For count-files, [max_depth] accepts 0 and rejects -1; for read-file,
    [startLine] accepts 1 and rejects 0. *)
Theorem range_is_enforced :
  (forall W (registry : gmap string (ToolDefinition W)) toolName t raw name d q st,
     registry !! toolName = Some t ->
     (name, d) ∈ input_schema t ->
     type d = TNumber ->
     raw !! name = Some (VNumber q) ->
     out_of_range d q ->
     exists f,
       validate (input_schema t) raw = inl f /\
       dispatch registry toolName raw st =
         Return (error_outcome (failure_text f)) st /\
       calls (result_state (dispatch registry toolName raw st)) = calls st) /\
  (forall name d q,
     type d = TNumber ->
     (int (field_constraints d) = true -> is_integer q = true) ->
     on_boundary d q ->
     validate_field name d (Some (VNumber q)) = inr (Some (VNumber q))) /\
  (exists args, validate Tools.count_files_schema {[ "max_depth" := VNumber 0 ]}
                  = inr args) /\
  validate Tools.count_files_schema {[ "max_depth" := VNumber (-1) ]}
    = inl {| field := "max_depth"; violated := BelowMin 0 |} /\
  (exists args,
     validate Tools.read_file_schema
       {[ "filePaths" := VString "a.txt"; "startLine" := VNumber 1 ]} = inr args) /\
  validate Tools.read_file_schema
    {[ "filePaths" := VString "a.txt"; "startLine" := VNumber 0 ]}
    = inl {| field := "startLine"; violated := BelowMin 1 |}.
Proof.
  split; [|split; [|split; [|split; [|split]]]].
  - intros W registry toolName t raw name d q st Hr Hin Ht Hraw Hout.
    destruct (out_of_range_fails name d q Ht Hout) as (f0 & Hf0 & _).
    rewrite <- Hraw in Hf0.
    destruct (validate_fields_fails _ raw name d f0 raw Hin Hf0) as [f Hf].
    exists f. split; [exact Hf|].
    rewrite (dispatch_validation_failure registry toolName t raw f st Hr Hf).
    by split.
  - apply boundary_passes.
  - eexists. vm_compute. reflexivity.
  - vm_compute. reflexivity.
  - eexists. vm_compute. reflexivity.
  - vm_compute. reflexivity.
Qed.

End RangeClaim.

Section RangeWitness.
Import Async Outcome Schema Tools.

Lemma range_is_enforced_witness :
  (exists f,
     validate (input_schema (count_files_tool (lib := CountFiles.sample_lib)))
       {[ "max_depth" := VNumber (-1) ]} = inl f /\
     dispatch count_files_registry "count-files"
       {[ "max_depth" := VNumber (-1) ]} count_files_start =
       Return (error_outcome (failure_text f)) count_files_start /\
     calls (result_state
              (dispatch count_files_registry "count-files"
                 {[ "max_depth" := VNumber (-1) ]} count_files_start)) = []) /\
  validate_field "max_depth" max_depth_descriptor (Some (VNumber 0))
    = inr (Some (VNumber 0)).
Proof.
  destruct range_is_enforced as (Hout & Hbound & _).
  split.
  - apply (Hout CountFiles.world count_files_registry "count-files"
             (count_files_tool (lib := CountFiles.sample_lib))
             {[ "max_depth" := VNumber (-1) ]} "max_depth" max_depth_descriptor
             (-1)%Q count_files_start).
    + reflexivity.
    + cbn. unfold count_files_schema. fold max_depth_descriptor.
      do 5 apply list_elem_of_further. apply list_elem_of_here.
    + reflexivity.
    + reflexivity.
    + left. exists 0%Q. split; [reflexivity|]. reflexivity.
  - apply Hbound.
    + reflexivity.
    + intros _. reflexivity.
    + split; [left; reflexivity|]. intros lo hi _ [=].
Defined.

End RangeWitness.

(** ** Defaults *)

Section DefaultFacts.
Import Async Outcome Schema.

(** An absent field with a default is validated to the default. *)
Lemma default_is_substituted (s : schema) (raw args : gmap string value)
    (name : string) (d : descriptor) (dv : value) :
  NoDup s.*1 ->
  (name, d) ∈ s ->
  default_value d = Some dv ->
  raw !! name = None ->
  validate s raw = inr args ->
  args !! name = Some dv.
Proof.
  intros Hnd Hin Hd Hraw Hv.
  pose proof (validate_fields_declared s raw name d raw args Hnd Hin Hv) as H.
  rewrite Hraw in H. cbn in H. by rewrite Hd in H.
Qed.

(** An absent optional field without a default stays absent. *)
Lemma absent_stays_absent (s : schema) (raw args : gmap string value)
    (name : string) (d : descriptor) :
  NoDup s.*1 ->
  (name, d) ∈ s ->
  default_value d = None ->
  raw !! name = None ->
  validate s raw = inr args ->
  args !! name = None.
Proof.
  intros Hnd Hin Hd Hraw Hv.
  pose proof (validate_fields_declared s raw name d raw args Hnd Hin Hv) as H.
  rewrite Hraw in H. cbn in H. rewrite Hd in H.
  destruct (required d); [done|]. by rewrite H.
Qed.

(** After a successful validation the dispatcher calls the handler once,
    with the validated arguments. *)
Lemma dispatch_calls_handler {W} (registry : gmap string (ToolDefinition W))
    (toolName : string) (t : ToolDefinition W) (raw args : gmap string value)
    (st : dispatch_state W) :
  registry !! toolName = Some t ->
  validate (input_schema t) raw = inr args ->
  exists o st',
    dispatch registry toolName raw st = Return o st' /\
    calls st' = calls st ++ [(name t, args)].
Proof.
  intros Hr Hv. unfold dispatch. rewrite Hr, Hv.
  unfold try_catch, invoke, ret.
  destruct (tool_handler t args (world st)) as [o w'|e w']; by eexists _, _.
Qed.

Lemma count_files_schema_NoDup : NoDup Tools.count_files_schema.*1.
Proof. apply (bool_decide_unpack _). vm_compute. reflexivity. Qed.

Lemma ping_schema_NoDup : NoDup Tools.ping_schema.*1.
Proof. apply (bool_decide_unpack _). vm_compute. reflexivity. Qed.

End DefaultFacts.

Section DefaultClaim.
Import Async Outcome Schema Tools.

Lemma count_files_field (name : string) (d : descriptor) (n : nat) :
  count_files_schema !! n = Some (name, d) -> (name, d) ∈ count_files_schema.
Proof. intros H. apply list_elem_of_lookup. by exists n. Qed.

(** C4. An absent field that is declared with a default reaches the handler
    with that default. With the schema [{count: {type: number, default: 4}}]
    and empty arguments the handler is called with [count = 4]. For
    count-files the handler receives [count_files = true],
    [count_folders = false] and [recursive = false]; for ping-tool, whose
    handler supplies the default itself, [count] is '4'. *)
Theorem absent_fields_take_their_defaults :
  (forall W (registry : gmap string (ToolDefinition W)) toolName t raw args
          name d dv st,
     registry !! toolName = Some t ->
     NoDup (input_schema t).*1 ->
     (name, d) ∈ input_schema t ->
     default_value d = Some dv ->
     raw !! name = None ->
     validate (input_schema t) raw = inr args ->
     args !! name = Some dv /\
     exists o st',
       dispatch registry toolName raw st = Return o st' /\
       calls st' = calls st ++ [(Schema.name t, args)]) /\
  (exists o st' args,
     dispatch count_registry "repeat" ∅ count_start = Return o st' /\
     calls st' = [("repeat", args)] /\
     args !! "count" = Some (VNumber 4)) /\
  (forall raw args,
     validate count_files_schema raw = inr args ->
     (raw !! "count_files" = None ->
        CountFiles.count_files (count_files_params args) = Some true) /\
     (raw !! "count_folders" = None ->
        CountFiles.count_folders (count_files_params args) = Some false) /\
     (raw !! "recursive" = None ->
        CountFiles.recursive (count_files_params args) = Some false)) /\
  (exists args, validate count_files_schema ∅ = inr args) /\
  (forall (lib : PingTool.Lib) raw args,
     validate ping_schema raw = inr args ->
     raw !! "count" = None ->
     PingTool.count_or_default (ping_params args) = "4").
Proof.
  split; [|split; [|split; [|split]]].
  - intros W registry toolName t raw args name d dv st Hr Hnd Hin Hd Hraw Hv.
    split.
    + by apply (default_is_substituted (input_schema t) raw args name d dv).
    + by apply (dispatch_calls_handler registry toolName t raw args st).
  - destruct (dispatch_calls_handler count_registry "repeat" count_tool ∅
                {[ "count" := VNumber 4 ]} count_start) as (o & st' & Hd & Hc);
      [reflexivity..|].
    exists o, st', {[ "count" := VNumber 4 ]}. split; [exact Hd|].
    split; [exact Hc|reflexivity].
  - intros raw args Hv.
    pose proof count_files_schema_NoDup as Hnd.
    split; [|split]; intros Hraw; unfold count_files_params, get_bool; cbn.
    + by rewrite (default_is_substituted _ raw args "count_files" _ (VBoolean true)
                    Hnd (count_files_field _ _ 1 eq_refl) eq_refl Hraw Hv).
    + by rewrite (default_is_substituted _ raw args "count_folders" _ (VBoolean false)
                    Hnd (count_files_field _ _ 2 eq_refl) eq_refl Hraw Hv).
    + by rewrite (default_is_substituted _ raw args "recursive" _ (VBoolean false)
                    Hnd (count_files_field _ _ 3 eq_refl) eq_refl Hraw Hv).
  - eexists. vm_compute. reflexivity.
  - intros lib raw args Hv Hraw.
    unfold PingTool.count_or_default, ping_params, get_string; cbn.
    assert (("count", z_optional (z_required TString)) ∈ ping_schema) as Hin.
    { apply list_elem_of_lookup. by exists 1. }
    by rewrite (absent_stays_absent _ raw args "count" _ ping_schema_NoDup
                  Hin eq_refl Hraw Hv).
Qed.

Lemma absent_fields_take_their_defaults_witness :
  let args : gmap string value :=
    {[ "count_files" := VBoolean true; "count_folders" := VBoolean false;
       "recursive" := VBoolean false ]} in
  args !! "count_files" = Some (VBoolean true) /\
  exists o st',
    dispatch count_files_registry "count-files" ∅ count_files_start
      = Return o st' /\
    calls st' = [("count-files", args)].
Proof.
  intros args.
  apply (proj1 absent_fields_take_their_defaults CountFiles.world
           count_files_registry "count-files"
           (count_files_tool (lib := CountFiles.sample_lib)) ∅ args
           "count_files"
           (z_default (VBoolean true) (z_optional (z_required TBoolean)))
           (VBoolean true) count_files_start).
  - reflexivity.
  - exact count_files_schema_NoDup.
  - apply (count_files_field _ _ 1). reflexivity.
  - reflexivity.
  - reflexivity.
  - vm_compute. reflexivity.
Defined.

End DefaultClaim.

(** ** The handlers on sample worlds *)

Section Examples.
Import Async Outcome.

Example normalizeTimeout_samples :
  Timeout.normalizeTimeout1 None = JsNum.Finite 120000 /\
  Timeout.normalizeTimeout1 (Some (JsNum.Finite 0)) = JsNum.Finite 1000 /\
  Timeout.normalizeTimeout1 (Some (JsNum.Finite (-5))) = JsNum.Finite 1000 /\
  Timeout.normalizeTimeout1 (Some (JsNum.Finite 700)) = JsNum.Finite 600000 /\
  Timeout.normalizeTimeout1 (Some (JsNum.Finite 2.5)) = JsNum.Finite (2.5 * 1000) /\
  Timeout.normalizeTimeout1 (Some JsNum.PosInfinity) = JsNum.Finite 600000 /\
  Timeout.normalizeTimeout1 (Some JsNum.NaN) = JsNum.NaN.
Proof. repeat split. Qed.

Example count_files_on_busy_desktop :
  let r := CountFiles.handler (lib := CountFiles.sample_lib)
             CountFiles.recursive_call CountFiles.busy_world in
  result_value r =
    Some (text_outcome
            "Analysis of '/home/u/Desktop':\n- Files found: 1\n- Folders found: 2\n") /\
  CountFiles.warnings (result_state r) =
    ["Could not read directory /home/u/Desktop/sub/deep: Error: EACCES: permission denied";
     "Could not stat item /home/u/Desktop/gone: Error: ENOENT: no such file or directory"].
Proof. split; reflexivity. Qed.

Example read_file_two_files :
  result_value (ReadFile.handler (lib := ReadFile.sample_lib)
                  ReadFile.two_files_call ReadFile.sample_world) =
    Some (text_outcome
            ("notes.txt: Read 3 bytes (hex): 68656c; " +:+
             "missing.txt: Error: File not found at path: missing.txt; ")).
Proof. reflexivity. Qed.

Example todo_create_project :
  let r := TodoListTool.handler (lib := TodoListTool.sample_lib)
             TodoListTool.create_project_call TodoListTool.empty_disk in
  result_value r = Some (text_outcome "Project 'garden' created.") /\
  TodoListTool.fs (result_state r) !! TodoListTool.TODO_FILE_PATH =
    Some (TodoListTool.RegularFile "{}").
Proof. split; reflexivity. Qed.

End Examples.

(** ** The timeout, as the handlers use it *)

Section TimeoutClaim.
Import JsNum Timeout.




End TimeoutClaim.

(* ===================================================================== *)
(** * Further properties of the code *)
(* ===================================================================== *)

(** ** utils/timeout.ts, with any default and maximum *)

Section TimeoutGeneral.
Import JsNum Timeout.



(** X2. With the default parameters a longer requested timeout never gives
    a shorter effective one. *)
Theorem normalizeTimeout_monotone (a b : Q) :
  (a <= b)%Q ->
  exists x y,
    normalizeTimeout1 (Some (Finite a)) = Finite x /\
    normalizeTimeout1 (Some (Finite b)) = Finite y /\
    (x <= y)%Q.
Proof.
  intros Hab.
  destruct (normalizeTimeout1_finite_cases a) as [[Ha ->]|[(Ha1 & Ha2 & ->)|[Ha ->]]];
  destruct (normalizeTimeout1_finite_cases b) as [[Hb ->]|[(Hb1 & Hb2 & ->)|[Hb ->]]];
    eexists _, _; (split; [reflexivity|]); (split; [reflexivity|]); lra.
Qed.

Lemma normalizeTimeout_monotone_witness :
  exists x y,
    normalizeTimeout1 (Some (Finite 0.5)) = Finite x /\
    normalizeTimeout1 (Some (Finite 90)) = Finite y /\
    (x <= y)%Q.
Proof. apply (normalizeTimeout_monotone 0.5 90). lra. Defined.

End TimeoutGeneral.

(** ** tools/read-file.ts: lines, paths and bytes *)

Section ReadFileLines.
Import Async Outcome Js ReadFile ReadFileText.

Lemma split_lines_nonempty (s : string) : split_lines s <> [].
Proof.
  destruct s as [|a rest]; [done|]. cbn.
  destruct (Nat.eqb (Ascii.nat_of_ascii a) 10); [done|].
  destruct rest as [|b rest']; [done|].
  destruct (Nat.eqb (Ascii.nat_of_ascii a) 13 && Nat.eqb (Ascii.nat_of_ascii b) 10);
    [done|].
  by destruct (split_lines (String b rest')).
Qed.

Lemma join_lines_push (a : Ascii.ascii) (line : string) (lines : list string) :
  join_lines (String a line :: lines) = String a (join_lines (line :: lines)).
Proof. by destruct lines. Qed.

Lemma join_lines_break (lines : list string) :
  lines <> [] ->
  join_lines (EmptyString :: lines) = String (Ascii.ascii_of_nat 10) (join_lines lines).
Proof. by destruct lines. Qed.

Lemma ascii_code_10 (a : Ascii.ascii) :
  Nat.eqb (Ascii.nat_of_ascii a) 10 = true -> a = Ascii.ascii_of_nat 10.
Proof.
  intros H. apply Nat.eqb_eq in H. rewrite <- (Ascii.ascii_nat_embedding a).
  by rewrite H.
Qed.

(** Joining the lines of a text gives the text back, up to the carriage
    returns of its CR LF pairs. *)
Lemma join_split_lines_bounded (n : nat) : forall s,
  String.length s <= n ->
  join_lines (split_lines s) = normalize_newlines s.
Proof.
  induction n as [|n IH]; intros s Hlen.
  - destruct s; [done|cbn in Hlen; lia].
  - destruct s as [|a rest]; [done|]. cbn in Hlen.
    cbn [split_lines normalize_newlines].
    destruct (Nat.eqb (Ascii.nat_of_ascii a) 10) eqn:E10.
    + apply ascii_code_10 in E10. subst a.
      rewrite join_lines_break by apply split_lines_nonempty.
      rewrite IH by lia.
      destruct rest as [|b rest']; [done|].
      by destruct (Nat.eqb (Ascii.nat_of_ascii b) 10).
    + destruct rest as [|b rest']; [done|].
      destruct (Nat.eqb (Ascii.nat_of_ascii a) 13 &&
                Nat.eqb (Ascii.nat_of_ascii b) 10) eqn:Ecr.
      * apply andb_true_iff in Ecr as [_ Eb]. apply ascii_code_10 in Eb. subst b.
        rewrite join_lines_break by apply split_lines_nonempty.
        cbn in Hlen. by rewrite IH by lia.
      * pose proof (split_lines_nonempty (String b rest')) as Hne.
        pose proof (IH (String b rest') ltac:(lia)) as Hrest.
        destruct (split_lines (String b rest')) as [|line lines]; [done|].
        by rewrite join_lines_push, Hrest.
Qed.

Lemma normalize_without_cr (s : string) :
  contains_code 13 s = false -> normalize_newlines s = s.
Proof.
  induction s as [|a rest IH]; [done|]. intros Hc. cbn in Hc.
  apply orb_false_iff in Hc as [Ha Hrest]. cbn [normalize_newlines].
  destruct rest as [|b rest']; [done|]. rewrite Ha. cbn [andb].
  by rewrite IH.
Qed.

(** X3. Without a line range, the text stored for a file is its decoded
    content with every CR LF turned into LF and nothing else changed; a
    content without carriage returns is stored as it is. *)
Theorem whole_file_is_content_with_LF (p : params) (fileContent : string) :
  truthy_int (startLine p) = false ->
  truthy_int (endLine p) = false ->
  text_entry p fileContent = normalize_newlines fileContent /\
  (contains_code 13 fileContent = false -> text_entry p fileContent = fileContent).
Proof.
  intros Hs He. unfold text_entry. rewrite Hs, He. cbn [orb].
  assert (join_lines (split_lines fileContent) = normalize_newlines fileContent) as ->
    by (by apply (join_split_lines_bounded (String.length fileContent))).
  split; [done|]. apply normalize_without_cr.
Qed.

Lemma whole_file_is_content_with_LF_witness :
  text_entry whole_file_call three_lines = normalize_newlines three_lines /\
  (contains_code 13 three_lines = false ->
     text_entry whole_file_call three_lines = three_lines).
Proof. apply (whole_file_is_content_with_LF whole_file_call three_lines); reflexivity. Defined.

End ReadFileLines.

Section ReadFileRange.
Import Async Outcome Js ReadFile ReadFileText.

Lemma slice_inside {A} (l : list A) (from to : Z) :
  (0 <= from <= Z.of_nat (length l))%Z -> (0 <= to)%Z ->
  slice l from to =
    take (Z.to_nat (Z.min to (Z.of_nat (length l)) - from)) (drop (Z.to_nat from) l).
Proof.
  intros Hf Ht. unfold slice, slice_index.
  assert ((from <? 0)%Z = false) as -> by lia.
  assert ((to <? 0)%Z = false) as -> by lia.
  by rewrite (Z.min_l from) by lia.
Qed.

(** X4. With [startLine = s] and [endLine = e], both at least 1, the text
    stored for a file of [n] lines is its lines [s] to [min e n], joined by
    line feeds: [e - s + 1] lines when [s <= e <= n], the empty text when
    [e < s], and an error text, not an exception, when [s > n]. *)
Theorem line_range_is_inclusive (p : params) (fileContent : string) (s e : Z) :
  startLine p = Some s -> endLine p = Some e ->
  (1 <= s)%Z -> (1 <= e)%Z ->
  let lines := split_lines fileContent in
  let n := Z.of_nat (length lines) in
  ((s <= n)%Z ->
     text_entry p fileContent =
       join_lines (take (Z.to_nat (Z.min e n - (s - 1)))
                     (drop (Z.to_nat (s - 1)) lines))) /\
  ((s <= e <= n)%Z ->
     length (take (Z.to_nat (Z.min e n - (s - 1)))
               (drop (Z.to_nat (s - 1)) lines)) = Z.to_nat (e - s + 1)) /\
  ((e < s <= n)%Z -> text_entry p fileContent = EmptyString) /\
  ((n < s)%Z ->
     text_entry p fileContent =
       "Error: startLine " +:+ pretty s +:+ " is out of bounds. File only has " +:+
       pretty (length lines) +:+ " lines.").
Proof.
  intros Hs He H1s H1e lines n.
  assert (Hin : (s <= n)%Z ->
     text_entry p fileContent =
       join_lines (take (Z.to_nat (Z.min e n - (s - 1)))
                     (drop (Z.to_nat (s - 1)) lines))).
  { intros Hsn. unfold text_entry. rewrite Hs, He. cbn [truthy_int default from_option id].
    assert ((s =? 0)%Z = false) as -> by lia.
    assert ((e =? 0)%Z = false) as -> by lia. cbn [negb orb].
    fold lines. fold n.
    assert ((n <=? s - 1)%Z = false) as -> by lia.
    rewrite slice_inside by (fold n; lia). by fold n. }
  split; [exact Hin|]. split; [|split].
  - intros [Hse Hen]. rewrite length_take, length_drop. subst n. lia.
  - intros [Hes Hsn]. rewrite Hin by done.
    replace (Z.to_nat (Z.min e n - (s - 1))) with 0%nat by lia. done.
  - intros Hns. unfold text_entry. rewrite Hs, He. cbn [truthy_int default from_option id].
    assert ((s =? 0)%Z = false) as -> by lia.
    assert ((e =? 0)%Z = false) as -> by lia. cbn [negb orb].
    fold lines. fold n.
    assert ((n <=? s - 1)%Z = true) as -> by lia. done.
Qed.

Lemma line_range_is_inclusive_witness :
  text_entry lines_2_to_3_call three_lines =
    "beta" +:+ String (Ascii.ascii_of_nat 10) "gamma".
Proof.
  destruct (line_range_is_inclusive lines_2_to_3_call three_lines 2 3)
    as (Hin & _); [reflexivity | reflexivity | lia | lia |].
  rewrite Hin; [reflexivity|]. vm_compute. discriminate.
Defined.

End ReadFileRange.

Section ReadFilePaths.
Import Async Outcome Js ReadFile ReadFileText.
Context {lib : Lib}.

Lemma split_on_space_nonempty (s : string) : split_on_space s <> [].
Proof.
  destruct s as [|a rest]; [done|]. cbn.
  destruct (Nat.eqb (Ascii.nat_of_ascii a) 32); [done|].
  by destruct (split_on_space rest).
Qed.

Lemma split_on_space_words (s : string) :
  Forall (fun word => contains_code 32 word = false) (split_on_space s).
Proof.
  induction s as [|a rest IH]; cbn.
  - by repeat constructor.
  - destruct (Nat.eqb (Ascii.nat_of_ascii a) 32) eqn:E.
    + by constructor.
    + destruct (split_on_space rest) as [|word words];
        [constructor; [cbn; by rewrite E|constructor]|].
      apply Forall_cons in IH as [Hw Hws]. constructor; [|done].
      cbn. by rewrite E.
Qed.

Lemma split_on_space_without_space (s : string) :
  contains_code 32 s = false -> split_on_space s = [s].
Proof.
  induction s as [|a rest IH]; [done|]. intros Hc. cbn in Hc.
  apply orb_false_iff in Hc as [Ha Hrest]. cbn. rewrite Ha.
  by rewrite IH.
Qed.

(** X5. The paths a call reads are the words of [filePaths] between single
    spaces, the empty ones dropped: no path is empty and no path holds a
    space, so a file whose name holds a space cannot be named; a
    [filePaths] without spaces is one path. *)
Theorem paths_have_no_space (p : params) :
  (forall path, path ∈ paths_of p ->
     path <> EmptyString /\ contains_code 32 path = false) /\
  (filePaths p <> EmptyString -> contains_code 32 (filePaths p) = false ->
     paths_of p = [filePaths p]).
Proof.
  split.
  - intros path Hin. unfold paths_of in Hin.
    apply list_elem_of_In, filter_In in Hin as [Hin Ht].
    split; [by intros ->|].
    pose proof (split_on_space_words (filePaths p)) as Hall.
    rewrite Forall_forall in Hall. apply Hall. by apply list_elem_of_In.
  - intros Hne Hc. unfold paths_of. rewrite split_on_space_without_space by done.
    cbn. by destruct (filePaths p).
Qed.

Lemma paths_have_no_space_witness :
  paths_of whole_file_call = ["notes.txt"].
Proof.
  apply (proj2 (paths_have_no_space whole_file_call)); [discriminate|reflexivity].
Defined.






End ReadFilePaths.

Section ReadFilePathsWitness.
Import Async Outcome Js ReadFile ReadFileText.


End ReadFilePathsWitness.

Section ReadFileBinary.
Import Async Outcome Js ReadFile ReadFileText.
Context {lib : Lib}.

Lemma substring_0_length (s : string) : forall n,
  n <= String.length s -> String.length (String.substring 0 n s) = n.
Proof.
  induction s as [|a rest IH]; intros [|n] Hn; cbn in *; try done; try lia.
  rewrite IH; lia.
Qed.

Lemma substring_0_all (s : string) : String.substring 0 (String.length s) s = s.
Proof. induction s as [|a rest IH]; [done|]. cbn. by rewrite IH. Qed.

Lemma zero_fill_full (s : string) : zero_fill (String.length s) s = s.
Proof. induction s as [|a rest IH]; [done|]. cbn. by rewrite IH. Qed.

Lemma to_hex_length (s : string) : String.length (to_hex s) = 2 * String.length s.
Proof. induction s as [|a rest IH]; [done|]. cbn. rewrite IH. lia. Qed.

(** The binary read of [n] bytes of a regular file, [0 <= n <= size]. *)
Lemma binary_read_prefix (path : string) (w : world) (bytes : string) (n : Z) :
  fs w !! path = Some (RegularFile bytes) ->
  (0 <= n <= Z.of_nat (String.length bytes))%Z ->
  let buffer := String.substring 0 (Z.to_nat n) bytes in
  (let! _ := Buffer_alloc n in
   let! read := read_prefix path n in
   let buffer := zero_fill (Z.to_nat n) read in
   ret ("Read " +:+ pretty (String.length buffer) +:+ " bytes (hex): " +:+
        to_hex buffer)) w
  = Return ("Read " +:+ pretty (Z.to_nat n) +:+ " bytes (hex): " +:+ to_hex buffer) w.
Proof.
  intros Hf Hn buffer. unfold bind, Buffer_alloc, read_prefix, ret.
  assert ((n <? 0)%Z = false) as -> by lia. rewrite Hf. fold buffer.
  assert (String.length buffer = Z.to_nat n) as Hlen
    by (apply substring_0_length; lia).
  assert (zero_fill (Z.to_nat n) buffer = buffer) as ->
    by (rewrite <- Hlen; apply zero_fill_full).
  by rewrite Hlen.
Qed.

(** X7. In binary mode the text stored for a regular file reports
    [min max_bytes size] bytes, the whole file when [max_bytes] is absent,
    and shows exactly these first bytes, two hexadecimal digits for each. *)
Theorem binary_read_reports_first_bytes (p : params) (path : string) (w : world)
    (bytes : string) :
  fs w !! path = Some (RegularFile bytes) ->
  binary_mode p = true ->
  let size := Z.of_nat (String.length bytes) in
  (forall k, max_bytes p = Some k -> (1 <= k)%Z ->
     let n := Z.to_nat (Z.min k size) in
     read_entry p path w =
       Return ("Read " +:+ pretty n +:+ " bytes (hex): " +:+
               to_hex (String.substring 0 n bytes)) w /\
     String.length (to_hex (String.substring 0 n bytes)) = 2 * n) /\
  (max_bytes p = None ->
     read_entry p path w =
       Return ("Read " +:+ pretty (String.length bytes) +:+ " bytes (hex): " +:+
               to_hex bytes) w).
Proof.
  intros Hf Hb size. split.
  - intros k Hk H1 n. split.
    + unfold read_entry. rewrite Hb, Hk. cbn [truthy_int default from_option id].
      assert ((k =? 0)%Z = false) as -> by lia. cbn [negb].
      unfold bind at 1. unfold stat_size at 1. rewrite Hf. fold size.
      apply (binary_read_prefix path w bytes (Z.min k size) Hf). lia.
    + rewrite to_hex_length, substring_0_length; [done|]. lia.
  - intros Hk. unfold read_entry. rewrite Hb, Hk. cbn [truthy_int].
    unfold bind at 1. unfold stat_size at 1. rewrite Hf. fold size.
    etrans; [apply (binary_read_prefix path w bytes size Hf); lia|].
    unfold size. by rewrite Nat2Z.id, substring_0_all.
Qed.

End ReadFileBinary.

Section ReadFileBinaryWitness.
Import Async Outcome Js ReadFile ReadFileText.

Lemma binary_read_reports_first_bytes_witness :
  read_entry (lib := sample_lib) three_bytes_call "notes.txt" sample_world =
    Return "Read 3 bytes (hex): 68656c" sample_world.
Proof.
  apply (proj1 (binary_read_reports_first_bytes (lib := sample_lib)
                  three_bytes_call "notes.txt" sample_world "hello"
                  eq_refl eq_refl) 3%Z eq_refl).
  lia.
Defined.

End ReadFileBinaryWitness.

(** ** tools/todo-list-tool.ts: what a call writes *)

Section TodoStoreFacts.
Import Async Outcome Js TodoListTool TodoStore.
Context {lib : Lib}.

(** [readTodoData] returns the world as it found it, and the store is then
    no directory. *)
Lemma readTodoData_returns (w w' : world) (data : TodoData) :
  readTodoData w = Return data w' ->
  w' = w /\ fs w !! TODO_FILE_PATH <> Some Directory.
Proof.
  unfold readTodoData, bind, pathExists, gets, readFile, lift_exc, ret, throw.
  destruct (fs w !! TODO_FILE_PATH) as [[content|]|] eqn:E.
  - rewrite bool_decide_eq_true_2 by done. rewrite E.
    destruct (JSON_parse content); [done|]. by intros [= _ <-].
  - rewrite bool_decide_eq_true_2 by done. by rewrite E.
  - rewrite bool_decide_eq_false_2 by (intros [? ?]; done). by intros [= _ <-].
Qed.

(** A write replaces the store or throws and changes nothing. *)
Lemma writeTodoData_cases (d : TodoData) (w : world) :
  fs w !! TODO_FILE_PATH <> Some Directory ->
  (write_error w = None /\
   writeTodoData d w = Return tt (write_store w (JSON_stringify_data d))) \/
  (exists e, write_error w = Some e /\ writeTodoData d w = Throw e w).
Proof.
  intros Hdir. unfold writeTodoData, writeFile.
  destruct (write_error w) as [e|] eqn:E; [right; by exists e|].
  left. split; [done|].
  destruct (fs w !! TODO_FILE_PATH) as [[content|]|]; try done;
    unfold write_store; by rewrite E.
Qed.


Lemma find_named_Some (n : string) (l : list Project) (q : Project) :
  find (named n) l = Some q -> name q = n /\ n ∈ name <$> l.
Proof.
  unfold find. induction l as [|q' l IH]; cbn; [done|].
  unfold named at 1. destruct (String.eqb (name q') n) eqn:E.
  - intros [= <-]. apply String.eqb_eq in E. split; [done|]. rewrite E. by left.
  - intros H. apply IH in H as [H1 H2]. split; [done|by right].
Qed.


(** The [try] around a write that is followed by a report. *)
Lemma guarded_write (d : TodoData) (m : string) (w : world) :
  fs w !! TODO_FILE_PATH <> Some Directory ->
  let r := try_catch (do! writeTodoData d in ret (text_outcome m))
             (fun error =>
                ret (error_outcome
                       ("Error performing to-do list operation: " +:+
                        message_any error))) w in
  (write_error w = None /\
   r = Return (text_outcome m) (write_store w (JSON_stringify_data d))) \/
  (exists o, r = Return o w /\ isError o = Some true).
Proof.
  intros Hdir r. subst r. unfold try_catch, bind.
  destruct (writeTodoData_cases d w Hdir) as [[He ->]|(e & He & ->)].
  - by left.
  - right. by eexists.
Qed.

End TodoStoreFacts.

Section TodoCases.
Import Async Outcome Js TodoListTool TodoStore.
Context {lib : Lib}.



End TodoCases.

Section TodoWrites.
Import Async Outcome Js TodoListTool TodoStore.
Context {lib : Lib}.


Lemma update_first_length {A} (pred : A -> bool) (f : A -> A) (l : list A) :
  length (update_first pred f l) = length l.
Proof.
  induction l as [|x l IH]; [done|]. cbn. destruct (pred x); cbn; [done|].
  by rewrite IH.
Qed.

Lemma update_first_other {A} (pred : A -> bool) (f : A -> A) (l : list A) :
  forall i x, l !! i = Some x -> pred x = false ->
  update_first pred f l !! i = Some x.
Proof.
  induction l as [|y l IH]; intros [|i] x Hi Hp; cbn in *; try done.
  - injection Hi as ->. by rewrite Hp.
  - destruct (pred y); [done|]. by apply IH.
Qed.

Lemma find_update_first {A} (pred : A -> bool) (f : A -> A) (l : list A) (x : A) :
  find pred l = Some x -> pred (f x) = true ->
  find pred (update_first pred f l) = Some (f x).
Proof.
  unfold find. induction l as [|y l IH]; cbn; [done|].
  destruct (pred y) eqn:E.
  - intros [= ->] Hf. cbn. by rewrite Hf.
  - intros Hx Hf. cbn. rewrite E. by apply IH.
Qed.




(** What add_task writes on a current project. *)
Lemma add_task_runs (p : params) (w : world) (data : TodoData)
    (c t : string) (project : Project) :
  readTodoData w = Return data w ->
  write_error w = None ->
  operation p = "add_task" ->
  current_project data = Some c -> truthy_string c = true ->
  task p = Some t -> truthy_string t = true ->
  find (named c) (projects data) = Some project ->
  handler p w =
    Return (text_outcome ("Task added to project '" +:+ c +:+ "'."))
      (write_store w
         (JSON_stringify_data
            (with_tasks data c (fun ts => ts ++ [new_task p project])))).
Proof.
  intros Hread Hwe Hop Hc Htc Ht Htt Hf.
  pose proof (readTodoData_returns _ _ _ Hread) as [_ Hdir].
  unfold handler. rewrite (bind_return _ _ _ _ _ Hread).
  unfold switch_operation. rewrite Hop. cbn [String.eqb Ascii.eqb Bool.eqb].
  unfold case_add_task. cbv zeta.
  assert (truthy (task p) = true) as -> by (by rewrite Ht).
  rewrite Hc. cbn [truthy].
  rewrite Htc. cbn [negb default from_option Datatypes.id]. rewrite Hf.
  fold (new_task p project).
  destruct (guarded_write
              (with_tasks data c (fun ts => ts ++ [new_task p project]))
              ("Task added to project '" +:+ c +:+ "'.") w Hdir)
    as [[_ Hr]|(o & Hr & _)].
  - exact Hr.
  - unfold try_catch, bind in Hr |- *.
    destruct (writeTodoData_cases
                (with_tasks data c (fun ts => ts ++ [new_task p project])) w Hdir)
      as [[_ Hw]|(e & He & _)]; [|congruence].
    by rewrite Hw.
Qed.

(** The project the task was added to. *)
Lemma add_task_project (p : params) (data : TodoData) (c : string)
    (project : Project) :
  find (named c) (projects data) = Some project ->
  find (named c)
    (projects (with_tasks data c (fun ts => ts ++ [new_task p project]))) =
  Some {| name := name project; tasks := tasks project ++ [new_task p project] |}.
Proof.
  intros Hf. cbn.
  apply (find_update_first (named c)
           (fun q => {| name := name q;
                        tasks := tasks q ++ [new_task p project] |})); [done|].
  apply find_named_Some in Hf as [Hn _]. unfold named. cbn. rewrite Hn.
  apply String.eqb_refl.
Qed.

(** X10. add_task on a current project appends one task to that project:
    its id is the number of tasks plus one, it is not completed, its
    priority is 'medium' when none is given; the other projects, the number
    of projects and the current project are unchanged. *)
Theorem add_task_appends (p : params) (w : world) (data : TodoData)
    (c t : string) (project : Project) :
  readTodoData w = Return data w ->
  write_error w = None ->
  operation p = "add_task" ->
  current_project data = Some c -> truthy_string c = true ->
  task p = Some t -> truthy_string t = true ->
  find (named c) (projects data) = Some project ->
  exists d',
    handler p w =
      Return (text_outcome ("Task added to project '" +:+ c +:+ "'."))
        (write_store w (JSON_stringify_data d')) /\
    find (named c) (projects d') =
      Some {| name := name project;
              tasks := tasks project ++ [new_task p project] |} /\
    current_project d' = Some c /\
    length (projects d') = length (projects data) /\
    (forall i q, projects data !! i = Some q -> name q <> c ->
       projects d' !! i = Some q).
Proof.
  intros Hread Hwe Hop Hc Htc Ht Htt Hf.
  exists (with_tasks data c (fun ts => ts ++ [new_task p project])).
  split; [|split; [|split; [|split]]].
  - by apply (add_task_runs p w data c t project).
  - by apply add_task_project.
  - done.
  - cbn. apply update_first_length.
  - intros i q Hi Hne. cbn. apply update_first_other; [done|].
    unfold named. destruct (String.eqb (name q) c) eqn:E; [|done].
    by apply String.eqb_eq in E.
Qed.

End TodoWrites.

Section TodoWritesWitness.
Import Async Outcome Js TodoListTool TodoStore.

Lemma garden_is_read :
  readTodoData (lib := garden_lib) garden_world = Return garden garden_world.
Proof. reflexivity. Qed.



Lemma add_task_appends_witness :
  exists d',
    handler (lib := garden_lib) add_task_call garden_world =
      Return (text_outcome "Task added to project 'garden'.")
        (write_store garden_world (JSON_stringify_data (Lib := garden_lib) d')) /\
    find (named "garden") (projects d') =
      Some {| name := "garden";
              tasks := tasks (hd {| name := ""; tasks := [] |} (projects garden)) ++
                       [{| id := 3; text := "water"; priority := "medium";
                           due_date := None; completed := false |}] |} /\
    current_project d' = Some "garden" /\
    length (projects d') = 1 /\
    (forall i q, projects garden !! i = Some q -> name q <> "garden" ->
       projects d' !! i = Some q).
Proof.
  exact (add_task_appends (lib := garden_lib) add_task_call garden_world garden
           "garden" "water" (hd {| name := ""; tasks := [] |} (projects garden))
           garden_is_read eq_refl eq_refl eq_refl eq_refl eq_refl eq_refl eq_refl).
Defined.

End TodoWritesWitness.

Section TodoRemove.
Import Async Outcome Js TodoListTool TodoStore.
Context {lib : Lib}.

Lemma update_first_fixed {A} (pred : A -> bool) (f : A -> A) (l : list A) (x : A) :
  find pred l = Some x -> f x = x -> update_first pred f l = l.
Proof.
  unfold find. induction l as [|y l IH]; cbn; [done|].
  destruct (pred y).
  - intros [= ->] Hf. by rewrite Hf.
  - intros Hx Hf. by rewrite IH.
Qed.

Lemma filter_keeps_all {A} (f : A -> bool) (l : list A) :
  (forall x, x ∈ l -> f x = true) -> List.filter f l = l.
Proof.
  induction l as [|x l IH]; intros H; [done|]. cbn.
  rewrite H by (by left). rewrite IH; [done|]. intros y Hy. apply H. by right.
Qed.

(** The call of remove_task on a current project, when the write
    succeeds. *)
Lemma remove_task_runs (p : params) (w : world) (data : TodoData)
    (c tid : string) (project : Project) :
  readTodoData w = Return data w ->
  write_error w = None ->
  operation p = "remove_task" ->
  current_project data = Some c -> truthy_string c = true ->
  task_id p = Some tid -> truthy_string tid = true ->
  find (named c) (projects data) = Some project ->
  handler p w =
    Return (text_outcome ("Task with ID " +:+ tid +:+ " removed."))
      (write_store w
         (JSON_stringify_data
            (with_tasks data c
               (List.filter (fun t => negb (id_is (parseInt tid) t)))))).
Proof.
  intros Hread Hwe Hop Hc Htc Ht Htt Hf.
  pose proof (readTodoData_returns _ _ _ Hread) as [_ Hdir].
  unfold handler. rewrite (bind_return _ _ _ _ _ Hread).
  unfold switch_operation. rewrite Hop. cbn [String.eqb Ascii.eqb Bool.eqb].
  unfold case_remove_task. cbv zeta. rewrite Hc, Ht. cbn [truthy].
  rewrite Htc, Htt. cbn [negb default from_option Datatypes.id]. rewrite Hf.
  unfold try_catch, bind.
  destruct (writeTodoData_cases
              (with_tasks data c
                 (List.filter (fun t => negb (id_is (parseInt tid) t)))) w Hdir)
    as [[_ Hw]|(e & He & _)]; [|congruence].
  by rewrite Hw.
Qed.

(** X11. remove_task with an id that no task of the current project
    carries, in particular one that [parseInt] reads as NaN, reports the
    removal all the same and writes the data back unchanged. *)
Theorem remove_task_reports_without_removing (p : params) (w : world)
    (data : TodoData) (c tid : string) (project : Project) :
  readTodoData w = Return data w ->
  write_error w = None ->
  operation p = "remove_task" ->
  current_project data = Some c -> truthy_string c = true ->
  task_id p = Some tid -> truthy_string tid = true ->
  find (named c) (projects data) = Some project ->
  (forall t, t ∈ tasks project -> id_is (parseInt tid) t = false) ->
  handler p w =
    Return (text_outcome ("Task with ID " +:+ tid +:+ " removed."))
      (write_store w (JSON_stringify_data data)).
Proof.
  intros Hread Hwe Hop Hc Htc Ht Htt Hf Hnone.
  rewrite (remove_task_runs p w data c tid project) by done.
  replace (with_tasks data c
             (List.filter (fun t => negb (id_is (parseInt tid) t)))) with data;
    [done|].
  unfold with_tasks. destruct data as [ps cur]. cbn in *. f_equal.
  symmetry. apply (update_first_fixed _ _ _ project); [done|].
  destruct project as [n ts]. cbn in *. f_equal.
  apply filter_keeps_all. intros t Hin. by rewrite Hnone.
Qed.

Lemma ids_after_filter (k : Z) (ts : list Task) :
  id <$> List.filter (fun t => negb (id_is (Some k) t)) ts =
  List.filter (fun z => negb (z =? k)%Z) (id <$> ts).
Proof.
  induction ts as [|t ts IH]; [done|].
  rewrite fmap_cons. cbn [List.filter id_is].
  destruct (id t =? k)%Z; cbn [negb]; [exact IH|].
  rewrite fmap_cons. f_equal. exact IH.
Qed.

Lemma filter_seq_length (k : Z) (n : nat) : forall a : nat,
  (Z.of_nat a <= k < Z.of_nat (a + n))%Z ->
  length (List.filter (fun z => negb (z =? k)%Z) (Z.of_nat <$> seq a n)) = n - 1.
Proof.
  induction n as [|n IH]; intros a Hk; [lia|]. cbn.
  destruct (Z.of_nat a =? k)%Z eqn:E; cbn.
  - rewrite filter_keeps_all; [rewrite length_fmap, length_seq; lia|].
    intros x Hx. apply list_elem_of_fmap in Hx as (y & -> & Hy).
    apply elem_of_seq in Hy. apply negb_true_iff, Z.eqb_neq. lia.
  - rewrite IH by lia. lia.
Qed.

(** What was written is what the next call reads, when the library reads
    its own text back. *)
Lemma readTodoData_after_write (w : world) (content : string) (d : TodoData) :
  JSON_parse content = inr d ->
  readTodoData (write_store w content) = Return d (write_store w content).
Proof.
  intros Hp. unfold readTodoData, bind, pathExists, gets, readFile, write_store.
  cbv beta iota. cbn [fs].
  rewrite bool_decide_eq_true_2 by (by rewrite lookup_insert_eq).
  cbv beta iota. cbn [fs]. rewrite lookup_insert_eq. cbv beta iota.
  unfold lift_exc. by rewrite Hp.
Qed.

(** X12. Task ids are not unique. When the tasks of the current project
    carry the ids 1 to n, as add_task assigns them, removing a task other
    than the last and adding a task next gives the new task the id n, which
    the last of the old tasks still carries. *)
Theorem remove_then_add_repeats_an_id (pr pa : params) (w : world)
    (data : TodoData) (c tid t : string) (project : Project) (k : Z) (n : nat) :
  readTodoData w = Return data w ->
  write_error w = None ->
  current_project data = Some c -> truthy_string c = true ->
  find (named c) (projects data) = Some project ->
  id <$> tasks project = Z.of_nat <$> seq 1 n ->
  operation pr = "remove_task" ->
  task_id pr = Some tid -> truthy_string tid = true ->
  parseInt tid = Some k -> (1 <= k < Z.of_nat n)%Z ->
  operation pa = "add_task" ->
  task pa = Some t -> truthy_string t = true ->
  let d1 := with_tasks data c (List.filter (fun t => negb (id_is (Some k) t))) in
  JSON_parse (JSON_stringify_data d1) = inr d1 ->
  exists w1 d2 project2,
    handler pr w =
      Return (text_outcome ("Task with ID " +:+ tid +:+ " removed.")) w1 /\
    handler pa w1 =
      Return (text_outcome ("Task added to project '" +:+ c +:+ "'."))
        (write_store w1 (JSON_stringify_data d2)) /\
    find (named c) (projects d2) = Some project2 /\
    Z.of_nat n ∈ id <$> tasks project /\
    id <$> tasks project2 =
      List.filter (fun z => negb (z =? k)%Z) (id <$> tasks project) ++ [Z.of_nat n] /\
    ~ NoDup (id <$> tasks project2).
Proof.
  intros Hread Hwe Hc Htc Hf Hids Hopr Htid Httid Hparse Hk Hopa Ht Htt d1 Hrt.
  pose proof (find_named_Some _ _ _ Hf) as [Hname _].
  set (project1 := {| name := name project;
                      tasks := List.filter (fun t => negb (id_is (Some k) t))
                                 (tasks project) |}).
  set (w1 := write_store w (JSON_stringify_data d1)).
  assert (Hrun1 : handler pr w =
            Return (text_outcome ("Task with ID " +:+ tid +:+ " removed.")) w1).
  { rewrite (remove_task_runs pr w data c tid project) by done.
    by rewrite Hparse. }
  assert (Hread1 : readTodoData w1 = Return d1 w1).
  { by apply readTodoData_after_write. }
  assert (Hf1 : find (named c) (projects d1) = Some project1).
  { subst d1. cbn.
    apply (find_update_first (named c)
             (fun q => {| name := name q;
                          tasks := List.filter (fun t => negb (id_is (Some k) t))
                                     (tasks q) |})); [done|].
    unfold named. cbn. rewrite Hname. apply String.eqb_refl. }
  pose proof (add_task_runs pa w1 d1 c t project1 Hread1 Hwe Hopa Hc Htc Ht Htt Hf1)
    as Hrun2.
  pose proof (add_task_project pa d1 c project1 Hf1) as Hf2.
  assert (Hlen : length (tasks project1) = n - 1).
  { subst project1. cbn [tasks]. rewrite <- (length_fmap id), ids_after_filter, Hids.
    apply filter_seq_length. lia. }
  assert (Hnew : id (new_task pa project1) = Z.of_nat n).
  { unfold new_task. cbn [id]. rewrite Hlen. lia. }
  assert (Hin : Z.of_nat n ∈
            List.filter (fun z => negb (z =? k)%Z) (id <$> tasks project)).
  { apply list_elem_of_In, filter_In. split.
    - apply list_elem_of_In. rewrite Hids. apply list_elem_of_fmap.
      exists n. split; [done|]. apply elem_of_seq. lia.
    - apply negb_true_iff, Z.eqb_neq. lia. }
  eexists w1, _, _. split; [exact Hrun1|]. split; [exact Hrun2|].
  split; [exact Hf2|]. split.
  { rewrite Hids. apply list_elem_of_fmap. exists n. split; [done|].
    apply elem_of_seq. lia. }
  cbn [tasks]. rewrite fmap_app. cbn [fmap list_fmap]. rewrite Hnew.
  subst project1. cbn [tasks]. rewrite ids_after_filter. split; [done|].
  intros Hnd. apply NoDup_app in Hnd as (_ & Hdisj & _).
  apply (Hdisj (Z.of_nat n)); [exact Hin|]. by apply list_elem_of_singleton.
Qed.

End TodoRemove.

Section TodoRemoveWitness.
Import Async Outcome Js TodoListTool TodoStore.

Lemma remove_task_reports_without_removing_witness :
  handler (lib := garden_lib) (remove_task_call "seven") garden_world =
    Return (text_outcome "Task with ID seven removed.")
      (write_store garden_world (JSON_stringify_data (Lib := garden_lib) garden)).
Proof.
  apply (remove_task_reports_without_removing (lib := garden_lib)
           (remove_task_call "seven") garden_world garden "garden" "seven"
           (hd {| name := ""; tasks := [] |} (projects garden))
           garden_is_read eq_refl eq_refl eq_refl eq_refl eq_refl eq_refl eq_refl).
  intros t _. reflexivity.
Defined.

Lemma remove_then_add_repeats_an_id_witness :
  exists w1 d2 project2,
    handler (lib := garden_lib) (remove_task_call "1") garden_world =
      Return (text_outcome "Task with ID 1 removed.") w1 /\
    handler (lib := garden_lib) add_task_call w1 =
      Return (text_outcome "Task added to project 'garden'.")
        (write_store w1 (JSON_stringify_data (Lib := garden_lib) d2)) /\
    find (named "garden") (projects d2) = Some project2 /\
    2%Z ∈ id <$> tasks (hd {| name := ""; tasks := [] |} (projects garden)) /\
    id <$> tasks project2 = [2%Z; 2%Z] /\
    ~ NoDup (id <$> tasks project2).
Proof.
  apply (remove_then_add_repeats_an_id (lib := garden_lib)
           (remove_task_call "1") add_task_call garden_world garden
           "garden" "1" "water"
           (hd {| name := ""; tasks := [] |} (projects garden)) 1 2
           garden_is_read eq_refl eq_refl eq_refl eq_refl eq_refl eq_refl
           eq_refl eq_refl eq_refl);
    [lia | reflexivity | reflexivity | reflexivity | reflexivity].
Defined.

End TodoRemoveWitness.

(** ** tools/watch-file-changes.ts: starting and stopping *)

Section WatchRoundTrip.
Import Async Outcome Js WatchFileChanges.
Context {lib : Lib}.

(** X13. A 'start' returns a success exactly when a command is given, the
    path is not watched yet, the path exists and [fs.watch] does not
    throw; it then puts one watcher for the path into the map. *)
Theorem start_succeeds_exactly_when (p : params) (w : world) :
  action p = "start" ->
  let path := path_resolve (target_path p) in
  let accepted :=
    truthy (command p) = true /\ activeWatchers w !! path = None /\
    existsSync w path = true /\ watch_throws w path = None in
  exists o w',
    handler p w = Return o w' /\
    (isError o = None <-> accepted) /\
    (isError o = Some true <-> ~ accepted) /\
    (accepted ->
       activeWatchers w' =
         <[path := {| watched := path;
                      listener_command := default "" (command p);
                      watch_recursive := recursive p |}]> (activeWatchers w)) /\
    (~ accepted -> w' = w).
Proof.
  intros Ha path accepted. subst accepted. unfold handler. rewrite Ha.
  cbn [String.eqb Ascii.eqb Bool.eqb]. fold path.
  destruct (truthy (command p)); cbn [negb].
  2:{ eexists _, _. split; [reflexivity|]. cbn. intuition congruence. }
  unfold bind at 1. unfold gets at 1.
  destruct (activeWatchers w !! path) as [fw|] eqn:E.
  { rewrite bool_decide_eq_true_2 by done. eexists _, _. split; [reflexivity|].
    cbn. intuition congruence. }
  rewrite bool_decide_eq_false_2 by (intros [? ?]; done).
  unfold bind at 1. unfold gets at 1.
  destruct (existsSync w path) eqn:Ex; cbn [negb].
  2:{ eexists _, _. split; [reflexivity|]. cbn. intuition congruence. }
  unfold try_catch, bind, fs_watch.
  destruct (watch_throws w path) as [e|] eqn:Et.
  { eexists _, _. split; [reflexivity|]. cbn. intuition congruence. }
  eexists _, _. split; [reflexivity|]. cbn. intuition congruence.
Qed.

(** X14. On a world that has one watcher per path, a 'start' that
    succeeds followed by a 'stop' of the same path succeeds too and
    restores the map of active watchers and the open watchers. *)
Theorem start_then_stop_restores (p q : params) (w : world) :
  one_watcher_per_path w ->
  action p = "start" -> action q = "stop" ->
  target_path q = target_path p ->
  truthy (command p) = true ->
  activeWatchers w !! path_resolve (target_path p) = None ->
  existsSync w (path_resolve (target_path p)) = true ->
  watch_throws w (path_resolve (target_path p)) = None ->
  exists o1 w1 o2 w2,
    handler p w = Return o1 w1 /\ isError o1 = None /\
    handler q w1 = Return o2 w2 /\ isError o2 = None /\
    activeWatchers w2 = activeWatchers w /\
    open_watchers w2 = open_watchers w.
Proof.
  intros [Hnd Hmap] Hp Hq Hpath Hcmd Hnone Hex Hth.
  set (path := path_resolve (target_path p)) in *.
  set (watcher := {| watched := path; listener_command := default "" (command p);
                     watch_recursive := recursive p |}).
  assert (Hfresh : watcher ∉ open_watchers w).
  { intros Hin. assert (activeWatchers w !! path = Some watcher) as Hs
      by (apply Hmap; by split). congruence. }
  eexists _, _, _, _. split; [|split; [|split; [|split; [|split]]]].
  - unfold handler. rewrite Hp. cbn [String.eqb Ascii.eqb Bool.eqb]. fold path.
    rewrite Hcmd. cbn [negb]. unfold bind at 1. unfold gets at 1. rewrite Hnone.
    rewrite bool_decide_eq_false_2 by (intros [? ?]; done).
    unfold bind at 1. unfold gets at 1. rewrite Hex. cbn [negb].
    unfold try_catch, bind, fs_watch. rewrite Hth. reflexivity.
  - reflexivity.
  - unfold handler. rewrite Hq, Hpath. cbn [String.eqb Ascii.eqb Bool.eqb].
    fold path. unfold bind at 1. unfold gets at 1. cbn [activeWatchers set_activeWatchers
      set_open_watchers result_state]. cbn. rewrite lookup_insert_eq. reflexivity.
  - reflexivity.
  - cbn. rewrite delete_insert_eq. by apply delete_id.
  - cbn. rewrite filter_app. cbn. fold watcher.
    rewrite decide_False by (intros H; by apply H).
    rewrite app_nil_r. clear -Hfresh.
    induction (open_watchers w) as [|x l IH]; [done|].
    apply not_elem_of_cons in Hfresh as [Hne Hl].
    rewrite filter_cons_True by done. by rewrite IH.
Qed.

End WatchRoundTrip.

Section WatchRoundTripWitness.
Import Async Outcome Js WatchFileChanges.

Lemma start_succeeds_exactly_when_witness :
  exists o w',
    handler (lib := sample_lib) sample_start sample_world = Return o w' /\
    isError o = Some true /\ w' = sample_world.
Proof.
  destruct (start_succeeds_exactly_when (lib := sample_lib) sample_start sample_world
              eq_refl) as (o & w' & Hrun & _ & Herr & _ & Hsame).
  exists o, w'. split; [exact Hrun|].
  assert (Hnot : ~ (truthy (command sample_start) = true /\
                   activeWatchers sample_world !!
                     path_resolve (Lib := sample_lib) (target_path sample_start) = None /\
                   existsSync sample_world
                     (path_resolve (Lib := sample_lib) (target_path sample_start)) = true /\
                   watch_throws sample_world
                     (path_resolve (Lib := sample_lib) (target_path sample_start)) = None)).
  { intros (_ & H & _). vm_compute in H. discriminate. }
  split; [by apply Herr | by apply Hsame].
Defined.

End WatchRoundTripWitness.

Section WatchRestoreWitness.
Import Async Outcome Js WatchFileChanges WatchSamples.

Lemma start_then_stop_restores_witness :
  exists o1 w1 o2 w2,
    handler (lib := sample_lib) start_b sample_world = Return o1 w1 /\
    isError o1 = None /\
    handler (lib := sample_lib) sample_stop w1 = Return o2 w2 /\
    isError o2 = None /\
    activeWatchers w2 = activeWatchers sample_world /\
    open_watchers w2 = open_watchers sample_world.
Proof.
  apply (start_then_stop_restores (lib := sample_lib) start_b sample_stop
           sample_world sample_world_one_watcher);
    reflexivity.
Defined.

End WatchRestoreWitness.

(** ** src/tools/index.ts: the closing line *)

Section RegistryLog.
Import Async Registry.
Context {Tool : Type}.
Implicit Types (entries : list (entry Tool)) (b : boot Tool).

(** The loop never writes to [console.log]. *)
Lemma forEach_console_log entries : forall i b,
  console_log (result_state (forEach i entries b)) = console_log b.
Proof.
  induction entries as [|e rest IH]; intros i b; [done|].
  cbn [forEach]. unfold bind.
  destruct e as [fn|printed]; cbn [forEach_callback].
  - unfold call_entry. destruct (fn _) as [[] s1|err s1]; [|done].
    by rewrite IH.
  - unfold log_error, modify. by rewrite IH.
Qed.

(** A loop that ends has called the functions and reported the rest. *)
Lemma forEach_returned entries : forall i b b',
  forEach i entries b = Return tt b' ->
  invoked b' = invoked b ++ callable_positions i entries /\
  console_error b' = console_error b ++ diagnostics entries.
Proof.
  induction entries as [|e rest IH]; intros i b b' Hrun.
  - cbn in Hrun. injection Hrun as <-. by rewrite !app_nil_r.
  - cbn [forEach] in Hrun. unfold bind in Hrun.
    destruct e as [fn|printed]; cbn [forEach_callback] in Hrun.
    + unfold call_entry in Hrun. destruct (fn _) as [[] s1|err s1]; [|done].
      apply IH in Hrun as [H1 H2]. cbn in H1, H2. cbn.
      rewrite H1, H2. by rewrite <- app_assoc.
    + unfold log_error, modify in Hrun. apply IH in Hrun as [H1 H2].
      cbn in H1, H2. cbn. rewrite H1, H2. by rewrite <- app_assoc.
Qed.

Lemma callable_and_diagnostics_length entries : forall i,
  length (callable_positions i entries) + length (diagnostics entries)
  = length entries.
Proof.
  induction entries as [|[fn|v] rest IH]; intros i; cbn; [done| |];
    specialize (IH (S i)); lia.
Qed.

(** X15. When [registryTools] returns, its closing line announces as many
    tools as the array has entries, that is the functions called plus the
    entries skipped with a diagnostic; when a registration function throws,
    no closing line is printed. *)
Theorem closing_line_counts_all_entries entries b :
  (forall b', registryTools entries b = Return tt b' ->
     console_log b' =
       console_log b ++ [pretty (length entries) +:+ " tools have been registered."] /\
     length entries =
       (length (invoked b') - length (invoked b)) +
       (length (console_error b') - length (console_error b))) /\
  (rejects (registryTools entries b) ->
     console_log (result_state (registryTools entries b)) = console_log b).
Proof.
  unfold registryTools, bind.
  pose proof (forEach_console_log entries 0 b) as Hlog.
  destruct (forEach 0 entries b) as [[] b1|err b1] eqn:Hrun; cbn in Hlog.
  - split; [|done]. intros b' [= <-]. cbn. rewrite Hlog. split; [done|].
    apply forEach_returned in Hrun as [-> ->]. rewrite !length_app.
    pose proof (callable_and_diagnostics_length entries 0). lia.
  - split; [done|]. intros _. exact Hlog.
Qed.

End RegistryLog.

Section RegistryLogWitness.
Import Async Registry.

Lemma closing_line_counts_all_entries_witness :
  console_log (result_state (registryTools throwing_entries boot0)) = [].
Proof.
  apply (proj2 (closing_line_counts_all_entries throwing_entries boot0)).
  exact I.
Defined.

End RegistryLogWitness.

(** ** tools/count-files.ts and tools/list-files.ts: the walk *)

Section DirentInduction.
Import CountFiles.

(** Induction on a directory entry, with the property for the entries of a
    readable directory at hand. *)
Lemma Dirent_nested_ind (P : Dirent -> Prop) :
  (forall n s, P (FileEnt n s)) ->
  (forall n s, P (OtherEnt n s)) ->
  (forall n s e, P (DirEnt n s (inl e))) ->
  (forall n s items, Forall P items -> P (DirEnt n s (inr items))) ->
  forall d, P d.
Proof.
  intros Hf Ho He Hd. fix IH 1. intros [n s|n s [e|items]|n s].
  - apply Hf.
  - apply He.
  - apply Hd. induction items as [|x xs IHxs]; constructor; [apply IH|exact IHxs].
  - apply Ho.
Qed.

End DirentInduction.

Section WalkLoop.
Import Async Outcome Js CountFiles.
Context {lib : Lib}.

(** The loop inside a visited directory is [visit_all]. *)
Lemma count_loop_is_visit_all (p : params) (dir : string) (depth : Z)
    (items : list Dirent) :
  (fix loop (items : list Dirent) : Eff world (list FileDetails) :=
     match items with
     | [] => ret []
     | it :: rest =>
         let! added := visit p dir depth it in
         let! more := loop rest in
         ret (added ++ more)
     end) items = visit_all p dir depth items.
Proof. induction items as [|it rest IH]; [done|]. cbn. by rewrite IH. Qed.

End WalkLoop.

Section SameWalk.
Import Async Outcome Js CountFiles.
Context {lib : ListFiles.Lib}.
#[local] Existing Instance ListFiles.walk_lib.

Lemma list_loop_is_visit_all (p : ListFiles.params) (dir : string) (depth : Z)
    (items : list Dirent) :
  (fix loop (items : list Dirent) : Eff world (list FileDetails) :=
     match items with
     | [] => ret []
     | it :: rest =>
         let! added := ListFiles.visit p dir depth it in
         let! more := loop rest in
         ret (added ++ more)
     end) items = ListFiles.visit_all p dir depth items.
Proof. induction items as [|it rest IH]; [done|]. cbn. by rewrite IH. Qed.

Lemma visit_all_same (p : ListFiles.params) (items : list Dirent) :
  Forall (fun item => forall dir depth,
            ListFiles.visit p dir depth item =
            visit (ListFiles.as_count_params p) dir depth item) items ->
  forall dir depth,
  ListFiles.visit_all p dir depth items =
  visit_all (ListFiles.as_count_params p) dir depth items.
Proof.
  induction 1 as [|item rest Hitem _ IH]; intros dir depth; [done|].
  cbn. by rewrite Hitem, IH.
Qed.

Lemma visit_same (p : ListFiles.params) (item : Dirent) :
  forall dir depth,
  ListFiles.visit p dir depth item =
  visit (ListFiles.as_count_params p) dir depth item.
Proof.
  induction item as [n s|n s|n s e|n s items IH] using Dirent_nested_ind;
    intros dir depth; try reflexivity.
  cbn [ListFiles.visit visit]. rewrite list_loop_is_visit_all, count_loop_is_visit_all.
  by rewrite (visit_all_same p items IH).
Qed.

(** X16. The walk of count-files is the walk of list-files: with
    [count_files] set and [count_folders] as [include_folders],
    [listFilesRecursiveForCount] returns the items of [listFilesRecursive],
    in the same order and with the same warnings. *)
Theorem count_walk_is_list_walk (p : ListFiles.params) (dir : string)
    (listing : thrown + list Dirent) (depth : Z) (w : world) :
  listFilesRecursiveForCount dir listing (ListFiles.as_count_params p) depth w =
  ListFiles.listFilesRecursive dir listing p depth w.
Proof.
  unfold listFilesRecursiveForCount, ListFiles.listFilesRecursive.
  destruct listing as [e|items]; [done|].
  rewrite (visit_all_same p items); [done|].
  apply Forall_forall. intros item _. apply visit_same.
Qed.

End SameWalk.

(** ** tools/list-files.ts: the sort *)

Section StableSort.
Context {A : Type} (compare : A -> A -> comparison).
Hypothesis compare_antisym : forall a b, compare a b = CompOpp (compare b a).
Hypothesis compare_trans :
  forall a b c, compare a b <> Gt -> compare b c <> Gt -> compare a c <> Gt.

Lemma sort_insert_perm (x : A) (l : list A) :
  ListFiles.sort_insert compare x l ≡ₚ x :: l.
Proof.
  induction l as [|y l IH]; [done|]. cbn.
  destruct (compare x y); [done|done|].
  rewrite IH. apply Permutation_swap.
Qed.

Lemma sort_perm (l : list A) : ListFiles.sort compare l ≡ₚ l.
Proof.
  induction l as [|x l IH]; [done|]. cbn. fold (ListFiles.sort compare l).
  by rewrite sort_insert_perm, IH.
Qed.

Lemma sort_insert_sorted (x : A) (l : list A) :
  StronglySorted (fun a b => compare a b <> Gt) l ->
  StronglySorted (fun a b => compare a b <> Gt) (ListFiles.sort_insert compare x l).
Proof.
  induction 1 as [|y l Hl IH Hy]; cbn.
  - by repeat constructor.
  - destruct (compare x y) eqn:E.
    + constructor; [by constructor|]. constructor; [by rewrite E|].
      eapply Forall_impl; [exact Hy|]. intros z Hz. cbn in Hz.
      apply (compare_trans x y z); [by rewrite E|done].
    + constructor; [by constructor|]. constructor; [by rewrite E|].
      eapply Forall_impl; [exact Hy|]. intros z Hz. cbn in Hz.
      apply (compare_trans x y z); [by rewrite E|done].
    + constructor; [exact IH|].
      rewrite sort_insert_perm. constructor; [|done].
      rewrite compare_antisym, E. done.
Qed.

Lemma sort_sorted (l : list A) :
  StronglySorted (fun a b => compare a b <> Gt) (ListFiles.sort compare l).
Proof.
  induction l as [|x l IH]; [constructor|]. cbn. by apply sort_insert_sorted.
Qed.

(** Elements that compare equal to each other keep their order. *)
Lemma sort_insert_stable (group : A -> bool) (x : A) (l : list A) :
  (forall a b, group a = true -> group b = true -> compare a b = Eq) ->
  List.filter group (ListFiles.sort_insert compare x l) =
  List.filter group (x :: l).
Proof.
  intros Hgroup. induction l as [|y l IH]; [done|]. cbn.
  destruct (compare x y) eqn:E; [done|done|]. cbn. cbn in IH.
  destruct (group y) eqn:Gy.
  - destruct (group x) eqn:Gx; [|by rewrite IH].
    rewrite (Hgroup x y Gx Gy) in E. done.
  - exact IH.
Qed.

Lemma sort_stable (group : A -> bool) (l : list A) :
  (forall a b, group a = true -> group b = true -> compare a b = Eq) ->
  List.filter group (ListFiles.sort compare l) = List.filter group l.
Proof.
  intros Hgroup. induction l as [|x l IH]; [done|]. cbn.
  fold (ListFiles.sort compare l). rewrite sort_insert_stable by done.
  cbn. by rewrite IH.
Qed.

End StableSort.

Section Comparator.
Import CountFiles ListFiles.

Lemma ascii_compare_trans (a b c : Ascii.ascii) :
  Ascii.compare a b <> Gt -> Ascii.compare b c <> Gt -> Ascii.compare a c <> Gt.
Proof.
  unfold Ascii.compare. intros H1 H2.
  apply N.compare_le_iff in H1. apply N.compare_le_iff in H2.
  apply N.compare_le_iff.
  by apply (N.le_trans _ (Ascii.N_of_ascii b)).
Qed.

Lemma ascii_compare_refl (a : Ascii.ascii) : Ascii.compare a a = Eq.
Proof. unfold Ascii.compare. apply N.compare_refl. Qed.

Lemma string_compare_trans (a : string) : forall b c,
  String.compare a b <> Gt -> String.compare b c <> Gt ->
  String.compare a c <> Gt.
Proof.
  induction a as [|x a IH]; intros [|y b] [|z c]; cbn;
    try (intros; congruence).
  destruct (Ascii.compare x y) eqn:Exy; [| |intros; congruence].
  - apply Ascii.compare_eq_iff in Exy. subst y.
    destruct (Ascii.compare x z); [apply IH|intros; congruence..].
  - destruct (Ascii.compare y z) eqn:Eyz; [| |intros; congruence].
    + apply Ascii.compare_eq_iff in Eyz. subst z. rewrite Exy. congruence.
    + intros _ _.
      assert (Ascii.compare x z = Lt) as ->; [|congruence].
      unfold Ascii.compare in *. apply N.compare_lt_iff.
      apply N.compare_lt_iff in Exy. apply N.compare_lt_iff in Eyz.
      by apply (N.lt_trans _ (Ascii.N_of_ascii y)).
Qed.

Lemma Z_compare_trans (a b c : Z) :
  Z.compare a b <> Gt -> Z.compare b c <> Gt -> Z.compare a c <> Gt.
Proof.
  intros H1 H2. apply Z.compare_le_iff in H1. apply Z.compare_le_iff in H2.
  apply Z.compare_le_iff. by apply (Z.le_trans _ b).
Qed.

Lemma compare_field_antisym (sortBy : string) (a b : FileDetails) :
  compare_field sortBy a b = CompOpp (compare_field sortBy b a).
Proof.
  unfold compare_field.
  destruct (String.eqb sortBy "modified_date"); [apply Z.compare_antisym|].
  destruct (String.eqb sortBy "size"); [apply Z.compare_antisym|].
  destruct (String.eqb sortBy "path"); [apply String.compare_antisym|].
  destruct (String.eqb sortBy "type"); [apply String.compare_antisym|done].
Qed.

Lemma compare_field_trans (sortBy : string) (a b c : FileDetails) :
  compare_field sortBy a b <> Gt -> compare_field sortBy b c <> Gt ->
  compare_field sortBy a c <> Gt.
Proof.
  unfold compare_field.
  destruct (String.eqb sortBy "modified_date"); [apply Z_compare_trans|].
  destruct (String.eqb sortBy "size"); [apply Z_compare_trans|].
  destruct (String.eqb sortBy "path"); [apply string_compare_trans|].
  destruct (String.eqb sortBy "type"); [apply string_compare_trans|done].
Qed.

Lemma comparator_antisym (sortBy : string) (order : option string)
    (a b : FileDetails) :
  comparator sortBy order a b = CompOpp (comparator sortBy order b a).
Proof.
  unfold comparator. case_bool_decide.
  - by rewrite <- compare_field_antisym, CompOpp_involutive.
  - apply compare_field_antisym.
Qed.

Lemma comparator_trans (sortBy : string) (order : option string)
    (a b c : FileDetails) :
  comparator sortBy order a b <> Gt -> comparator sortBy order b c <> Gt ->
  comparator sortBy order a c <> Gt.
Proof.
  unfold comparator. case_bool_decide; [|apply compare_field_trans].
  rewrite <- !compare_field_antisym. intros H1 H2.
  by apply (compare_field_trans sortBy c b a).
Qed.

End Comparator.

Section ListFilesSort.
Import CountFiles ListFiles.

Lemma string_compare_refl (s : string) : String.compare s s = Eq.
Proof. induction s as [|c s IH]; [done|]. cbn. by rewrite ascii_compare_refl. Qed.

Lemma compare_field_eq_trans (sortBy : string) (a b x : FileDetails) :
  compare_field sortBy a x = Eq -> compare_field sortBy b x = Eq ->
  compare_field sortBy a b = Eq.
Proof.
  unfold compare_field.
  destruct (String.eqb sortBy "modified_date").
  { intros ->%Z.compare_eq_iff <-%Z.compare_eq_iff. apply Z.compare_refl. }
  destruct (String.eqb sortBy "size").
  { intros ->%Z.compare_eq_iff <-%Z.compare_eq_iff. apply Z.compare_refl. }
  destruct (String.eqb sortBy "path").
  { intros ->%String.compare_eq_iff <-%String.compare_eq_iff.
    apply string_compare_refl. }
  destruct (String.eqb sortBy "type"); [|done].
  intros ->%String.compare_eq_iff <-%String.compare_eq_iff.
  apply string_compare_refl.
Qed.

(** X17. The sort of list-files, by any field and in either order, keeps
    the items of the walk, each as often as the walk found it, and leaves
    no item before one it compares greater than. *)
Theorem list_files_sort_orders_the_walk (sortBy : string) (order : option string)
    (files : list FileDetails) :
  sort (comparator sortBy order) files ≡ₚ files /\
  StronglySorted (fun a b => comparator sortBy order a b <> Gt)
    (sort (comparator sortBy order) files).
Proof.
  split; [apply sort_perm|].
  apply sort_sorted; [apply comparator_antisym|apply comparator_trans].
Qed.

(** X18. The sort of list-files is stable, in ascending and in descending
    order alike: the items that agree on the sort field stay in the order
    in which the walk found them. *)
Theorem list_files_sort_keeps_ties_in_walk_order (sortBy : string)
    (order : option string) (x : FileDetails) (files : list FileDetails) :
  List.filter (same_key sortBy x) (sort (comparator sortBy order) files) =
  List.filter (same_key sortBy x) files.
Proof.
  apply sort_stable. intros a b Ha Hb. unfold same_key in Ha, Hb.
  assert (compare_field sortBy a b = Eq) as E.
  { apply (compare_field_eq_trans sortBy a b x).
    - by destruct (compare_field sortBy a x).
    - by destruct (compare_field sortBy b x). }
  unfold comparator. rewrite E. by case_bool_decide.
Qed.

End ListFilesSort.
(** ** tools/count-files.ts: the walk *)

Section WalkWarnings.
Import Async Outcome Js CountFiles Walk.
Context {lib : Lib}.

Lemma warned_nil (w : world) : warned w [] = w.
Proof. destruct w. unfold warned. cbn. by rewrite app_nil_r. Qed.

Lemma warned_warned (w : world) (a b : list string) :
  warned (warned w a) b = warned w (a ++ b).
Proof. unfold warned. cbn. by rewrite app_assoc. Qed.

Lemma console_warn_warned (line : string) (w : world) :
  console_warn line w = Return tt (warned w [line]).
Proof. done. Qed.

Lemma only_warns_ret {A} (a : A) : only_warns (ret a).
Proof. intros w. exists a, []. by rewrite warned_nil. Qed.

Lemma only_warns_bind {A B} (m : Eff world A) (k : A -> Eff world B) :
  only_warns m -> (forall a, only_warns (k a)) -> only_warns (bind m k).
Proof.
  intros Hm Hk w. destruct (Hm w) as (a & l1 & Em).
  destruct (Hk a (warned w l1)) as (b & l2 & Ek).
  exists b, (l1 ++ l2). unfold bind. by rewrite Em, Ek, warned_warned.
Qed.

Lemma only_warns_console_warn (line : string) : only_warns (console_warn line).
Proof. intros w. by exists tt, [line]. Qed.

Lemma only_warns_gets {A} (f : world -> A) : only_warns (gets f).
Proof. intros w. exists (f w), []. by rewrite warned_nil. Qed.

Lemma only_warns_weaken {A} (m : Eff world A) :
  only_warns m -> warns_or_throws m.
Proof. intros H w. destruct (H w) as (a & l & E). exists l. left. by exists a. Qed.

Lemma warns_or_throws_lift {A} (r : thrown + A) :
  warns_or_throws (lift_exc (S := world) r).
Proof.
  intros w. exists []. rewrite warned_nil. destruct r as [e|a]; [right|left]; eauto.
Qed.

Lemma warns_or_throws_bind {A B} (m : Eff world A) (k : A -> Eff world B) :
  warns_or_throws m -> (forall a, warns_or_throws (k a)) ->
  warns_or_throws (bind m k).
Proof.
  intros Hm Hk w. destruct (Hm w) as (l1 & [(a & Em)|(e & Em)]).
  - destruct (Hk a (warned w l1)) as (l2 & [(b & Ek)|(e & Ek)]);
      exists (l1 ++ l2); [left; exists b|right; exists e];
      unfold bind; by rewrite Em, Ek, warned_warned.
  - exists l1. right. exists e. unfold bind. by rewrite Em.
Qed.

Lemma only_warns_try_catch {A} (body : Eff world A) (handler : thrown -> Eff world A) :
  warns_or_throws body -> (forall e, only_warns (handler e)) ->
  only_warns (try_catch body handler).
Proof.
  intros Hb Hh w. destruct (Hb w) as (l1 & [(a & Eb)|(e & Eb)]).
  - exists a, l1. unfold try_catch. by rewrite Eb.
  - destruct (Hh e (warned w l1)) as (a & l2 & Eh).
    exists a, (l1 ++ l2). unfold try_catch. by rewrite Eb, Eh, warned_warned.
Qed.

Section ValidPattern.
Variable p : params.
Hypothesis pattern_is_valid :
  forall pat name, pattern p = Some pat -> answered (regexp_test pat name).

Lemma rejected_by_pattern_only_warns (name : string) :
  only_warns (rejected_by_pattern p name).
Proof.
  unfold rejected_by_pattern. destruct (pattern p) as [pat|] eqn:E;
    [|apply only_warns_ret].
  destruct (truthy_string pat); [|apply only_warns_ret].
  specialize (pattern_is_valid pat name eq_refl).
  destruct (regexp_test pat name) as [e|b]; [done|]. cbn [lift_exc].
  apply only_warns_bind; [apply only_warns_ret|intros; apply only_warns_ret].
Qed.

Lemma visit_all_only_warns (dir : string) (depth : Z) (items : list Dirent) :
  Forall (fun item => forall dir depth, only_warns (visit p dir depth item)) items ->
  only_warns (visit_all p dir depth items).
Proof.
  induction 1 as [|item rest Hitem _ IH]; cbn [visit_all]; [apply only_warns_ret|].
  apply only_warns_bind; [apply Hitem|]. intros added.
  apply only_warns_bind; [apply IH|]. intros more. apply only_warns_ret.
Qed.

Lemma visit_only_warns (item : Dirent) :
  forall dir depth, only_warns (visit p dir depth item).
Proof.
  induction item as [n s|n s|n s e|n s items IH] using Dirent_nested_ind;
    intros dir depth; cbn [visit].
  all: destruct (negb _ && _); [apply only_warns_ret|].
  all: apply only_warns_bind; [apply rejected_by_pattern_only_warns|].
  all: intros [|]; [apply only_warns_ret|].
  all: apply only_warns_try_catch;
    [|intros err; apply only_warns_bind;
        [apply only_warns_console_warn|intros; apply only_warns_ret]].
  all: apply warns_or_throws_bind; [apply warns_or_throws_lift|]; intros stats.
  all: apply only_warns_weaken.
  all: apply only_warns_bind; [apply only_warns_gets|]; intros w_now.
  all: destruct (too_old p w_now stats); [apply only_warns_ret|].
  - destruct (too_small p stats); [apply only_warns_ret|].
    destruct (too_large p stats); [apply only_warns_ret|].
    destruct (truthy_bool (count_files p)); apply only_warns_ret.
  - apply only_warns_ret.
  - destruct (descends p depth); [|apply only_warns_ret].
    apply only_warns_try_catch;
      [|intros err; apply only_warns_bind;
          [apply only_warns_console_warn|intros; apply only_warns_ret]].
    apply only_warns_weaken. apply only_warns_bind; [|intros; apply only_warns_ret].
    apply only_warns_bind; [apply only_warns_console_warn|intros; apply only_warns_ret].
  - destruct (descends p depth); [|apply only_warns_ret].
    apply only_warns_try_catch;
      [|intros err; apply only_warns_bind;
          [apply only_warns_console_warn|intros; apply only_warns_ret]].
    apply only_warns_weaken. apply only_warns_bind; [|intros; apply only_warns_ret].
    rewrite count_loop_is_visit_all. by apply visit_all_only_warns.
Qed.

End ValidPattern.

(** X19. Whatever [fs.readdir] and [fs.stat] answer below the folder, the
    walk of count-files returns when the pattern, if one is given, is a
    regular expression: an entry or a directory that cannot be read costs
    a line of [console.warn] and nothing else, and the walk changes
    nothing but these lines. *)
Theorem walk_survives_unreadable_entries (p : params) (dir : string)
    (listing : thrown + list Dirent) (depth : Z) (w : world) :
  (forall pat name, pattern p = Some pat -> answered (regexp_test pat name)) ->
  exists items lines,
    listFilesRecursiveForCount dir listing p depth w = Return items (warned w lines).
Proof.
  intros Hpat. unfold listFilesRecursiveForCount. destruct listing as [e|items].
  - exists [], ["Could not read directory " +:+ dir +:+ ": " +:+ String_of e]. done.
  - apply visit_all_only_warns.
    apply Forall_forall. intros item _. by apply visit_only_warns.
Qed.

End WalkWarnings.

Section WalkWarningsWitness.
Import Async Outcome Js CountFiles Walk.
#[local] Existing Instance sample_lib.

Lemma walk_survives_unreadable_entries_witness :
  exists items lines,
    listFilesRecursiveForCount "/home/u/Desktop" (inr sample_desktop)
      recursive_call 0 busy_world = Return items (warned busy_world lines) /\
    length items = 3 /\ length lines = 2.
Proof.
  destruct (walk_survives_unreadable_entries recursive_call "/home/u/Desktop"
              (inr sample_desktop) 0 busy_world) as (items & lines & E).
  { intros pat name H. discriminate H. }
  exists items, lines. split; [exact E|].
  vm_compute in E. injection E as <- E. split; [done|].
  apply (f_equal length) in E. cbn in E. symmetry. lia.
Defined.

End WalkWarningsWitness.
Section WalkPattern.
Import Async Outcome Js CountFiles Walk.
Context {lib : Lib}.

Lemma visit_skipped (p : params) (dir : string) (depth : Z) (item : Dirent) :
  skipped_as_hidden p item = true -> visit p dir depth item = ret [].
Proof.
  unfold skipped_as_hidden. intros H.
  destruct item; cbn [visit ent_name] in *; by rewrite H.
Qed.

Lemma visit_bad_pattern (p : params) (dir : string) (depth : Z) (item : Dirent)
    (pat : string) (e : thrown) (w : world) :
  skipped_as_hidden p item = false ->
  pattern p = Some pat -> truthy_string pat = true ->
  regexp_test pat (ent_name item) = inl e ->
  visit p dir depth item w = Throw e w.
Proof.
  unfold skipped_as_hidden. intros H Hp Ht Hr.
  destruct item; cbn [visit ent_name] in *; rewrite H;
    unfold bind at 1, rejected_by_pattern; rewrite Hp, Ht;
    unfold bind at 1; by rewrite Hr.
Qed.

Lemma visit_all_bad_pattern (p : params) (dir : string) (depth : Z)
    (pat : string) (e : thrown) (w : world) (items : list Dirent) :
  pattern p = Some pat -> truthy_string pat = true ->
  (forall name, regexp_test pat name = inl e) ->
  visit_all p dir depth items w =
  if forallb (skipped_as_hidden p) items then Return [] w else Throw e w.
Proof.
  intros Hp Ht Hr. induction items as [|item rest IH]; [done|].
  cbn [visit_all forallb]. unfold bind at 1.
  destruct (skipped_as_hidden p item) eqn:E.
  - rewrite (visit_skipped p dir depth item E). cbn [ret andb].
    unfold bind at 1. rewrite IH. by destruct (forallb _ rest).
  - by rewrite (visit_bad_pattern p dir depth item pat e w E Hp Ht (Hr _)).
Qed.

(** X20. A pattern that [new RegExp] refuses fails count-files only when
    the folder holds an entry that is not skipped as hidden: the
    expression is built in the loop over the entries, so that on an empty
    folder, or one of hidden entries only, the call succeeds and counts
    nothing. In both cases nothing is logged. *)
Theorem invalid_pattern_needs_a_visible_entry (p : params) (w : world)
    (items : list Dirent) (pat : string) (e : thrown) :
  tree w !! targetPath p w = Some (inr items) ->
  truthy_bool (count_files p) || truthy_bool (count_folders p) = true ->
  pattern p = Some pat -> truthy_string pat = true ->
  (forall name, regexp_test pat name = inl e) ->
  handler p w =
    if forallb (skipped_as_hidden p) items
    then Return (text_outcome (analysis p w 0 0)) w
    else Return (error_outcome
                   ("An unexpected error occurred: " +:+ message_or_String e)) w.
Proof.
  intros Htree Hcount Hp Ht Hr. unfold handler, try_catch, bind at 1, gets at 1.
  unfold bind at 1, gets at 1. fold (targetPath p w). rewrite Htree.
  assert (negb (truthy_bool (count_files p)) && negb (truthy_bool (count_folders p))
          = false) as ->.
  { by destruct (truthy_bool (count_files p)), (truthy_bool (count_folders p)). }
  unfold bind at 1, listFilesRecursiveForCount.
  rewrite (visit_all_bad_pattern p _ 0 pat e w items Hp Ht Hr).
  by destruct (forallb _ items).
Qed.

End WalkPattern.

Section WalkPatternWitness.
Import Async Outcome Js CountFiles Walk.
#[local] Existing Instance strict_lib.

Lemma invalid_pattern_needs_a_visible_entry_witness :
  handler bad_pattern_call hidden_only_world =
    Return (text_outcome "Analysis of '/home/u/Desktop':\n- Files found: 0\n")
      hidden_only_world /\
  handler bad_pattern_call busy_world =
    Return (error_outcome
              "An unexpected error occurred: Invalid regular expression: /(/: Unterminated group")
      busy_world.
Proof.
  split.
  - etrans; [by eapply (invalid_pattern_needs_a_visible_entry bad_pattern_call
                          hidden_only_world)|].
    by vm_compute.
  - etrans; [by eapply (invalid_pattern_needs_a_visible_entry bad_pattern_call
                          busy_world)|].
    by vm_compute.
Defined.

End WalkPatternWitness.
Section WalkCongruence.
Import Async.
Context {S A B : Type}.

Lemma bind_ext (m m' : Eff S A) (k k' : A -> Eff S B) (s : S) :
  (forall s, m s = m' s) -> (forall a s, k a s = k' a s) ->
  bind m k s = bind m' k' s.
Proof. intros Hm Hk. unfold bind. rewrite Hm. destruct (m' s); [apply Hk|done]. Qed.

Lemma try_catch_ext (body body' : Eff S A) (handler handler' : thrown -> Eff S A)
    (s : S) :
  (forall s, body s = body' s) -> (forall e s, handler e s = handler' e s) ->
  try_catch body handler s = try_catch body' handler' s.
Proof.
  intros Hb Hh. unfold try_catch. rewrite Hb. destruct (body' s); [done|apply Hh].
Qed.

End WalkCongruence.

Section WalkHidden.
Import Async Outcome Js CountFiles Walk.
Context {lib : Lib}.

Lemma keep_is_without_hidden_all (p : params) (items : list Dirent) :
  (fix keep (items : list Dirent) : list Dirent :=
     match items with
     | [] => []
     | it :: rest =>
         if skipped_as_hidden p it then keep rest
         else without_hidden p it :: keep rest
     end) items = without_hidden_all p items.
Proof. induction items as [|it rest IH]; [done|]. cbn. by rewrite IH. Qed.

Lemma ent_name_without_hidden (p : params) (item : Dirent) :
  ent_name (without_hidden p item) = ent_name item.
Proof. by destruct item as [n s|n s [e|items]|n s]. Qed.

Lemma visit_all_without_hidden (p : params) (items : list Dirent) :
  Forall (fun item => forall dir depth w,
            visit p dir depth item w =
            visit p dir depth (without_hidden p item) w) items ->
  forall dir depth w,
  visit_all p dir depth items w =
  visit_all p dir depth (without_hidden_all p items) w.
Proof.
  induction 1 as [|item rest Hitem _ IH]; intros dir depth w; [done|].
  cbn [visit_all without_hidden_all].
  destruct (skipped_as_hidden p item) eqn:E.
  - rewrite (visit_skipped p dir depth item E). unfold bind at 1, ret at 1.
    unfold bind. rewrite IH. by destruct (visit_all _ _ _ _ w).
  - cbn [visit_all]. apply bind_ext; [apply Hitem|]. intros added w'.
    apply bind_ext; [apply IH|done].
Qed.

Lemma visit_without_hidden (p : params) (item : Dirent) :
  forall dir depth w,
  visit p dir depth item w = visit p dir depth (without_hidden p item) w.
Proof.
  induction item as [n s|n s|n s e|n s items IH] using Dirent_nested_ind;
    intros dir depth w; try reflexivity.
  cbn [visit without_hidden ent_name ent_stat].
  rewrite keep_is_without_hidden_all, !count_loop_is_visit_all.
  destruct (negb _ && _); [done|].
  apply bind_ext; [done|]. intros [|] w1; [done|].
  apply try_catch_ext; [|done]. intros w2.
  apply bind_ext; [done|]. intros stats w3.
  apply bind_ext; [done|]. intros w_now w4.
  destruct (too_old p w_now stats); [done|].
  destruct (descends p depth); [|done].
  apply try_catch_ext; [|done]. intros w5.
  apply bind_ext; [|done]. intros w6.
  by apply visit_all_without_hidden.
Qed.

(** X21. What lies below a hidden directory plays no part when hidden
    entries are skipped: the walk of a folder returns the items, and logs
    the warnings, of the walk of the folder without its hidden entries at
    every level; a hidden directory that cannot be read is not warned
    about. *)
Theorem hidden_directories_are_not_opened (p : params) (dir : string)
    (items : list Dirent) (depth : Z) (w : world) :
  listFilesRecursiveForCount dir (inr items) p depth w =
  listFilesRecursiveForCount dir (inr (without_hidden_all p items)) p depth w.
Proof.
  unfold listFilesRecursiveForCount. apply visit_all_without_hidden.
  apply Forall_forall. intros item _. apply visit_without_hidden.
Qed.

End WalkHidden.

Section WalkDepth.
Import Async Outcome Js CountFiles Walk.
Context {lib : Lib}.
Variables (p : params) (d : Z).
Hypothesis max_depth_is : max_depth p = Some d.

Lemma visit_all_cut (items : list Dirent) :
  Forall (fun item => forall dir depth w,
            visit p dir depth item w =
            visit (without_max_depth p) dir depth
              (cut (Z.to_nat (d - depth)) item) w) items ->
  forall dir depth w,
  visit_all p dir depth items w =
  visit_all (without_max_depth p) dir depth
    (cut (Z.to_nat (d - depth)) <$> items) w.
Proof.
  induction 1 as [|item rest Hitem _ IH]; intros dir depth w; [done|].
  rewrite fmap_cons. cbn [visit_all].
  apply bind_ext; [apply Hitem|]. intros added w'.
  apply bind_ext; [apply IH|done].
Qed.

Lemma descends_at_the_limit (depth : Z) :
  Z.to_nat (d - depth) = O -> descends p depth = false.
Proof.
  intros H. unfold descends. rewrite max_depth_is.
  assert ((depth <? d)%Z = false) as -> by lia. apply andb_false_r.
Qed.

Lemma descends_above_the_limit (depth : Z) (k : nat) :
  Z.to_nat (d - depth) = S k ->
  descends p depth = truthy_bool (recursive p) /\
  Z.to_nat (d - (depth + 1)) = k.
Proof.
  intros H. unfold descends. rewrite max_depth_is.
  assert ((depth <? d)%Z = true) as -> by lia. split; [apply andb_true_r|lia].
Qed.

Lemma descends_without_max_depth (depth : Z) :
  descends (without_max_depth p) depth = truthy_bool (recursive p).
Proof. unfold descends. cbn. apply andb_true_r. Qed.

Lemma visit_cut (item : Dirent) :
  forall dir depth w,
  visit p dir depth item w =
  visit (without_max_depth p) dir depth (cut (Z.to_nat (d - depth)) item) w.
Proof.
  induction item as [n s|n s|n s e|n s items IH] using Dirent_nested_ind;
    intros dir depth w.
  - by destruct (Z.to_nat (d - depth)).
  - by destruct (Z.to_nat (d - depth)).
  - destruct (Z.to_nat (d - depth)) as [|k] eqn:E; cbn [cut visit ent_name ent_stat];
      rewrite descends_without_max_depth.
    + rewrite (descends_at_the_limit depth E).
      destruct (negb _ && _); [done|].
      apply bind_ext; [done|]. intros [|] w1; [done|].
      apply try_catch_ext; [|done]. intros w2.
      apply bind_ext; [done|]. intros stats w3.
      apply bind_ext; [done|]. intros w_now w4.
      change (too_old (without_max_depth p)) with (too_old p).
      destruct (too_old p w_now stats); [done|].
      change (count_folders (without_max_depth p)) with (count_folders p).
      destruct (truthy_bool (recursive p)); [|done].
      unfold try_catch, bind, ret. by rewrite app_nil_r.
    + destruct (descends_above_the_limit depth k E) as [-> _]. done.
  - destruct (Z.to_nat (d - depth)) as [|k] eqn:E; cbn [cut visit ent_name ent_stat];
      rewrite descends_without_max_depth.
    + rewrite (descends_at_the_limit depth E).
      destruct (negb _ && _); [done|].
      apply bind_ext; [done|]. intros [|] w1; [done|].
      apply try_catch_ext; [|done]. intros w2.
      apply bind_ext; [done|]. intros stats w3.
      apply bind_ext; [done|]. intros w_now w4.
      change (too_old (without_max_depth p)) with (too_old p).
      destruct (too_old p w_now stats); [done|].
      change (count_folders (without_max_depth p)) with (count_folders p).
      destruct (truthy_bool (recursive p)); [|done].
      unfold try_catch, bind, ret. by rewrite app_nil_r.
    + destruct (descends_above_the_limit depth k E) as [-> Ek].
      rewrite !count_loop_is_visit_all.
      destruct (negb _ && _); [done|].
      apply bind_ext; [done|]. intros [|] w1; [done|].
      apply try_catch_ext; [|done]. intros w2.
      apply bind_ext; [done|]. intros stats w3.
      apply bind_ext; [done|]. intros w_now w4.
      change (too_old (without_max_depth p)) with (too_old p).
      destruct (too_old p w_now stats); [done|].
      change (count_folders (without_max_depth p)) with (count_folders p).
      destruct (truthy_bool (recursive p)); [|done].
      apply try_catch_ext; [|done]. intros w5.
      apply bind_ext; [|done]. intros w6.
      rewrite <- Ek. by apply visit_all_cut.
Qed.

(** X22. [max_depth] cuts the tree: the walk with [max_depth] = d, started
    at depth k, returns the items and logs the warnings of the walk without
    [max_depth] over the tree in which every directory d - k levels down
    is empty. With [max_depth] = 0 no directory of the folder is opened,
    and one that cannot be read is not warned about. *)
Theorem max_depth_cuts_the_tree (dir : string) (items : list Dirent)
    (depth : Z) (w : world) :
  listFilesRecursiveForCount dir (inr items) p depth w =
  listFilesRecursiveForCount dir (inr (cut (Z.to_nat (d - depth)) <$> items))
    (without_max_depth p) depth w.
Proof.
  unfold listFilesRecursiveForCount. apply visit_all_cut.
  apply Forall_forall. intros item _. apply visit_cut.
Qed.

End WalkDepth.

Section WalkDepthWitness.
Import Async Outcome Js CountFiles Walk WalkSamples.
#[local] Existing Instance sample_lib.

Lemma max_depth_cuts_the_tree_witness :
  listFilesRecursiveForCount "/home/u/Desktop" (inr sample_desktop)
    one_level_call 0 busy_world =
  listFilesRecursiveForCount "/home/u/Desktop"
    (inr (cut 1 <$> sample_desktop)) (without_max_depth one_level_call) 0 busy_world.
Proof.
  exact (max_depth_cuts_the_tree one_level_call 1 eq_refl "/home/u/Desktop"
           sample_desktop 0 busy_world).
Defined.

End WalkDepthWitness.
(** ** tools/create-dir.ts *)

Section CreateDirFacts.
Import Async Outcome Js CreateDir.
Context {lib : Lib}.

Lemma lookup_make_directory (t : gmap string node) (d q : string) :
  make_directory d t !! q =
  match t !! q with
  | Some k => Some k
  | None => if decide (q = d) then Some DirNode else None
  end.
Proof.
  unfold make_directory. destruct (t !! d) as [k|] eqn:Ed.
  - destruct (t !! q) eqn:Eq; [done|].
    destruct (decide (q = d)) as [->|Hne]; [congruence|done].
  - destruct (decide (q = d)) as [->|Hne].
    + by rewrite lookup_insert_eq, Ed.
    + rewrite lookup_insert_ne by done. by destruct (t !! q).
Qed.

(** [fs.ensureDir] keeps what exists and makes directories only. *)
Lemma lookup_make_directories (t : gmap string node) (l : list string) (q : string) :
  foldr make_directory t l !! q =
  match t !! q with
  | Some k => Some k
  | None => if bool_decide (q ∈ l) then Some DirNode else None
  end.
Proof.
  induction l as [|d l IH]; cbn [foldr].
  - destruct (t !! q); [done|].
    by rewrite bool_decide_eq_false_2 by apply not_elem_of_nil.
  - rewrite lookup_make_directory, IH. destruct (t !! q); [done|].
    destruct (decide (q = d)) as [->|Hne].
    + rewrite (bool_decide_eq_true_2 (d ∈ d :: l)) by left.
      by destruct (bool_decide (d ∈ l)).
    + assert (bool_decide (q ∈ d :: l) = bool_decide (q ∈ l)) as ->.
      { apply bool_decide_ext. rewrite elem_of_cons. split; [by intros [?|?]|by right]. }
      by destruct (bool_decide (q ∈ l)).
Qed.

Lemma operation_on_existing (path : string) (k : node) (w : world) :
  tree w !! path = Some k ->
  operation path w = Return (text_outcome ("Directory already exists: " +:+ path)) w.
Proof.
  intros H. unfold operation, bind, pathExists, gets. rewrite H.
  by rewrite bool_decide_eq_true_2.
Qed.

Lemma operation_on_missing (path : string) (ancestors : list string) (w : world) :
  tree w !! path = None -> mkdirs w path = inr ancestors ->
  operation path w =
  Return (text_outcome ("Successfully created directory: " +:+ path))
    {| tree := foldr make_directory (tree w) (path :: ancestors);
       mkdirs := mkdirs w; operation_ms := operation_ms w |}.
Proof.
  intros H Hm. unfold operation, bind at 1, pathExists, gets. rewrite H.
  rewrite bool_decide_eq_false_2 by (by intros [? ?]).
  unfold bind, ensureDir. by rewrite Hm.
Qed.

Lemma handler_on_existing (p : params) (w : world) (k : node) :
  truthy_string (dirPath p) = true ->
  tree w !! dirPath p = Some k ->
  handler p w =
  Return (if in_time p w
          then text_outcome ("Directory already exists: " +:+ dirPath p)
          else error_outcome (timed_out_text p)) w.
Proof.
  intros Hp Hk. unfold handler, try_catch. rewrite Hp. cbn [negb].
  unfold withTimeout. rewrite (operation_on_existing _ k w Hk).
  unfold in_time. by destruct (Qle_bool _ _).
Qed.

(** X23. create-dir asks whether the path exists, not what it is: on a
    path that holds anything, a regular file as well, the call that ends
    in time answers 'Directory already exists' without [isError]; the
    file system is left as it is, whether the call ends in time or not. *)
Theorem create_dir_takes_what_exists_for_a_directory (p : params) (w : world)
    (k : node) :
  truthy_string (dirPath p) = true ->
  tree w !! dirPath p = Some k ->
  handler p w =
  Return (if in_time p w
          then text_outcome ("Directory already exists: " +:+ dirPath p)
          else error_outcome (timed_out_text p)) w.
Proof.
  intros Hp Hk. unfold handler, try_catch. rewrite Hp. cbn [negb].
  unfold withTimeout, operation, bind, pathExists, gets. rewrite Hk.
  rewrite bool_decide_eq_true_2 by done.
  unfold in_time. by destruct (Qle_bool _ _).
Qed.

(** X24. A call of create-dir that makes the directory in time can be
    repeated: the path is a directory afterwards, what existed before is
    still there, and the same call on the new file system answers
    'Directory already exists' and changes nothing. *)
Theorem create_dir_can_be_repeated (p : params) (w : world)
    (ancestors : list string) :
  truthy_string (dirPath p) = true ->
  tree w !! dirPath p = None ->
  mkdirs w (dirPath p) = inr ancestors ->
  in_time p w = true ->
  exists w1,
    handler p w =
      Return (text_outcome ("Successfully created directory: " +:+ dirPath p)) w1 /\
    tree w1 !! dirPath p = Some DirNode /\
    (forall q k, tree w !! q = Some k -> tree w1 !! q = Some k) /\
    handler p w1 =
      Return (text_outcome ("Directory already exists: " +:+ dirPath p)) w1.
Proof.
  intros Hp Hnone Hm Ht. eexists. split; [|split; [|split]].
  - unfold handler, try_catch. rewrite Hp. cbn [negb].
    unfold withTimeout. rewrite (operation_on_missing _ ancestors w Hnone Hm).
    unfold in_time in Ht. by rewrite Ht.
  - cbn [tree]. rewrite lookup_make_directories, Hnone.
    by rewrite (bool_decide_eq_true_2 (dirPath p ∈ dirPath p :: ancestors)) by left.
  - intros q k Hq. cbn [tree]. by rewrite lookup_make_directories, Hq.
  - match goal with |- handler p ?w1 = _ => set (w' := w1) end.
    assert (tree w' !! dirPath p = Some DirNode) as Hd.
    { subst w'. cbn [tree]. rewrite lookup_make_directories, Hnone.
      by rewrite (bool_decide_eq_true_2 (dirPath p ∈ dirPath p :: ancestors)) by left. }
    rewrite (handler_on_existing p w' DirNode Hp Hd).
    assert (in_time p w' = true) as -> by exact Ht. done.
Qed.

(** X25. The timer of create-dir does not cancel the operation: a call
    that is reported as timed out, with [isError], has made the directory
    all the same when [fs.ensureDir] succeeds. *)
Theorem create_dir_timeout_does_not_cancel (p : params) (w : world)
    (ancestors : list string) :
  truthy_string (dirPath p) = true ->
  tree w !! dirPath p = None ->
  mkdirs w (dirPath p) = inr ancestors ->
  in_time p w = false ->
  exists w1,
    handler p w = Return (error_outcome (timed_out_text p)) w1 /\
    tree w1 !! dirPath p = Some DirNode.
Proof.
  intros Hp Hnone Hm Ht. eexists. split.
  - unfold handler, try_catch. rewrite Hp. cbn [negb].
    unfold withTimeout. rewrite (operation_on_missing _ ancestors w Hnone Hm).
    unfold in_time in Ht. by rewrite Ht.
  - cbn [tree]. rewrite lookup_make_directories, Hnone.
    by rewrite (bool_decide_eq_true_2 (dirPath p ∈ dirPath p :: ancestors)) by left.
Qed.

End CreateDirFacts.

Section CreateDirWitness.
Import Async Outcome Js CreateDir.
#[local] Existing Instance sample_lib.

Lemma create_dir_takes_what_exists_for_a_directory_witness :
  handler on_a_file_call (sample_world 3) =
  Return (text_outcome "Directory already exists: /home/u/notes.txt") (sample_world 3).
Proof.
  exact (create_dir_takes_what_exists_for_a_directory on_a_file_call
           (sample_world 3) FileNode eq_refl eq_refl).
Defined.

Lemma create_dir_can_be_repeated_witness :
  exists w1,
    handler nested_call (sample_world 3) =
      Return (text_outcome "Successfully created directory: /home/u/a/b") w1 /\
    tree w1 !! "/home/u/a/b" = Some DirNode /\
    tree w1 !! "/home/u/a" = Some DirNode /\
    handler nested_call w1 =
      Return (text_outcome "Directory already exists: /home/u/a/b") w1.
Proof.
  destruct (create_dir_can_be_repeated nested_call (sample_world 3) ["/home/u/a"]
              eq_refl eq_refl eq_refl eq_refl) as (w1 & E1 & Hd & _ & E2).
  exists w1. split; [exact E1|]. split; [exact Hd|]. split; [|exact E2].
  vm_compute in E1. injection E1 as <-. by vm_compute.
Defined.

Lemma create_dir_timeout_does_not_cancel_witness :
  exists w1,
    handler nested_call (sample_world 5000) =
      Return (error_outcome
                "Error creating directory: Directory creation operation timed out after 2000ms")
        w1 /\
    tree w1 !! "/home/u/a/b" = Some DirNode.
Proof.
  exact (create_dir_timeout_does_not_cancel nested_call (sample_world 5000)
           ["/home/u/a"] eq_refl eq_refl eq_refl eq_refl).
Defined.

End CreateDirWitness.
(** ** get-system-info: the memory figures *)

Section SystemInfoMemory.
Import GetSystemInfo.

(** X26. The memory figures of get-system-info are the nearest number of
    megabytes, a half rounded up: the figure is at most half a megabyte
    off the bytes, and more bytes never give a smaller figure, so that the
    free memory is reported no larger than the total whenever it is no
    larger. *)
Theorem memory_is_rounded_to_the_nearest_megabyte (bytes more : Z) :
  (bytes <= more)%Z ->
  (- (1024 * 1024) < 2 * (round_MB bytes * (1024 * 1024) - bytes) <= 1024 * 1024)%Z /\
  (round_MB bytes <= round_MB more)%Z.
Proof.
  intros H. unfold round_MB. split.
  - pose proof (Z.div_mod (2 * bytes + 1024 * 1024) (2 * (1024 * 1024))) as Hd.
    pose proof (Z.mod_pos_bound (2 * bytes + 1024 * 1024) (2 * (1024 * 1024))) as Hm.
    lia.
  - apply Z.div_le_mono; lia.
Qed.

Lemma memory_is_rounded_to_the_nearest_megabyte_witness :
  round_MB 8388608000 = 8000%Z /\ round_MB 1572864 = 2%Z /\
  (round_MB 8388608000 <= round_MB 16777216000)%Z.
Proof.
  split; [reflexivity|]. split; [reflexivity|].
  apply (memory_is_rounded_to_the_nearest_megabyte 8388608000 16777216000). lia.
Defined.

End SystemInfoMemory.
(** ** tools/ping-tool.ts: the file of results *)

Section PingWrites.
Import Async Outcome Js PingTool.
Context {lib : Lib}.

(** X27. ping-tool writes at most one file, and only the result of a
    ping that succeeded: the handler resolves, and either the files are
    as before, or [exec] reported no error, [output_path] is given, the
    Outcome carries no [isError], and the one file added is [output_path]
    with the JSON text of the result. *)
Theorem ping_saves_only_a_successful_result (p : params) (w : world) :
  exists out w',
    handler p w = Return out w' /\
    (written w' = written w \/
     exists path,
       output_path p = Some path /\
       exec_error (exec w (command_for (platform w) p)) = false /\
       isError out = None /\
       written w' =
         written w ++
         [(path,
           JSON_stringify
             (parse_output (platform w) p
                (stdout (exec w (command_for (platform w) p)))))]).
Proof.
  unfold handler, try_catch, bind at 1, gets at 1.
  unfold bind at 1, exec_promise.
  destruct (exec_error (exec w (command_for (platform w) p))) eqn:Ee.
  { eexists _, w. split; [reflexivity|]. by left. }
  destruct (output_path p) as [path|] eqn:Eo; cbn [truthy];
    [|eexists _, w; split; [reflexivity|]; by left].
  destruct (truthy_string path) eqn:Et;
    [|eexists _, w; split; [reflexivity|]; by left].
  unfold bind at 1, writeFile. destruct (write_error w) as [e|] eqn:Ew.
  { eexists _, w. split; [reflexivity|]. by left. }
  eexists _, _. split; [reflexivity|]. right. exists path.
  split; [done|]. split; [done|]. split; done.
Qed.

End PingWrites.
(** ** index.ts: the table of SSE sessions *)

Section SessionTable.
Import Async Sessions.
Context {lib : Lib}.

(** X28. The route POST /messages looks the session up on an object
    literal, so that a [sessionId] that names a member of
    [Object.prototype] ('constructor', 'toString', ...) and no session is
    not answered with 400 as the other unknown ids are: the value found is
    truthy and has no [handlePostMessage], the call throws and the promise
    of the handler rejects, with nothing sent and nothing delivered. *)
Theorem post_to_an_inherited_name_rejects (key body : string) (w : world) :
  transports w !! key = None ->
  post_messages (Some key) body w =
  if bool_decide (key ∈ prototype_keys)
  then Throw (ErrorObj "transport.handlePostMessage is not a function") w
  else Return (Some {| status := 400; body := "Transport for session ID not found" |}) w.
Proof.
  intros H. unfold post_messages, bind, get_property, gets, property_key.
  cbn [default from_option Datatypes.id]. rewrite H. by case_bool_decide.
Qed.

(** X29. A session lives from its GET /sse to the close of the
    connection: for a transport whose id is no member of
    [Object.prototype] and is new to the table, a message posted after
    [server.connect] resolved is handed to this transport; after the close
    the table is as it was before the connection, and a message posted to
    the id is answered with 400. *)
Theorem session_ends_with_its_connection (transport : Transport)
    (body : string) (w : world) :
  sessionId transport ∉ prototype_keys ->
  transports w !! sessionId transport = None ->
  server_connect transport = inr tt ->
  handlePostMessage transport body = inr tt ->
  exists w1 w2 w3,
    get_sse transport w = Return tt w1 /\
    post_messages (Some (sessionId transport)) body w1 = Return None w2 /\
    delivered w2 = delivered w ++ [(sessionId transport, body)] /\
    on_close (sessionId transport) w2 = Return tt w3 /\
    transports w3 = transports w /\
    post_messages (Some (sessionId transport)) body w3 =
      Return (Some {| status := 400; body := "Transport for session ID not found" |}) w3.
Proof.
  intros Hkey Hnew Hconnect Hpost. eexists _, _, _.
  split; [|split; [|split; [|split; [|split]]]].
  - unfold get_sse, bind, console_log, set_property, modify. by rewrite Hconnect.
  - unfold post_messages, bind at 1, get_property, gets, property_key.
    cbn [default from_option Datatypes.id transports]. rewrite lookup_insert_eq.
    unfold bind, modify. by rewrite Hpost.
  - done.
  - done.
  - cbn [transports]. rewrite delete_insert_eq. by apply delete_id.
  - unfold post_messages, bind, get_property, gets, property_key.
    cbn [default from_option Datatypes.id transports].
    rewrite delete_insert_eq, (delete_id _ _ Hnew), Hnew.
    by rewrite bool_decide_eq_false_2.
Qed.

End SessionTable.

Section SessionTableWitness.
Import Async Sessions.
#[local] Existing Instance sample_lib.

Lemma post_to_an_inherited_name_rejects_witness :
  post_messages (Some "constructor") "{}" no_session =
    Throw (ErrorObj "transport.handlePostMessage is not a function") no_session /\
  post_messages None "{}" no_session =
    Return (Some {| status := 400; body := "Transport for session ID not found" |})
      no_session.
Proof.
  split.
  - exact (post_to_an_inherited_name_rejects "constructor" "{}" no_session eq_refl).
  - reflexivity.
Defined.

Lemma session_ends_with_its_connection_witness :
  exists w1 w2 w3,
    get_sse sample_transport no_session = Return tt w1 /\
    post_messages (Some (sessionId sample_transport)) "{}" w1 = Return None w2 /\
    delivered w2 = delivered no_session ++ [(sessionId sample_transport, "{}")] /\
    on_close (sessionId sample_transport) w2 = Return tt w3 /\
    transports w3 = transports no_session /\
    post_messages (Some (sessionId sample_transport)) "{}" w3 =
      Return (Some {| status := 400; body := "Transport for session ID not found" |}) w3.
Proof.
  apply (session_ends_with_its_connection sample_transport "{}" no_session);
    [|reflexivity..].
  intros H. by vm_compute in H; repeat (apply elem_of_cons in H as [H|H]; [discriminate H|]);
    apply elem_of_nil in H.
Defined.

End SessionTableWitness.
